(** * ExperienceBuffer: rollout storage and GAE returns

    A shallow embedding of [NCF_policies/algo2/policy/ppo/experience.py].

    The file is organised as follows.
    - [Py]: Python-level plumbing (exceptions, insertion-ordered dicts,
      integer index and slice normalisation).
    - [Torch]: the part of the tensor library the buffer calls: dense
      row-major arrays with a shape, broadcasting, indexing, in-place
      row and slice assignment, transpose and reshape.
    - [Buffer]: typed tensors ([float32] and [uint8]), the object and its
      methods [__init__], [__len__], [__getitem__], [update_mu_sigma],
      [update_data], [computer_return], [prepare_training], written in a
      state-and-exception monad over the object's attributes; then the
      GAE recursion as the specification words it, the layout invariant
      of a constructed buffer, and sequences of method calls.
    - [RealOps], [Float32Ops], [Concrete] and [ConcreteFloat]: the
      carrier of exact real numbers, the carrier of IEEE 754 binary32
      numbers, and a few concrete buffers over each.
    - [ListFacts], [DictFacts], [Theory], [Exact], [Binary32]: the
      lemmas and theorems.

    Every definition is parametric in a carrier [F] with the operations
    of the class [FloatOps].  Statements that only depend on which
    operations are applied in which order are proved for every carrier
    (section [Theory]); the degenerate cases of the backward pass are
    proved for binary32, with its rounding, signed zeros, infinities
    and NaN (section [Binary32]); the moments of the normalised
    advantages are an idealisation, proved for the exact real-number
    carrier (section [Exact]). *)

From Stdlib Require Import String.
From Stdlib Require Import List ZArith Lia Bool Arith.
From Stdlib Require Import Permutation.
From Stdlib Require SpecFloat.
From Stdlib Require Import Reals Lra.
Import ListNotations.

Set Implicit Arguments.

(* ------------------------------------------------------------------ *)
(** ** Python plumbing *)

Module Py.

(** The exception classes the buffer can raise. *)
Inductive pyerr : Type :=
| KeyError | IndexError | RuntimeError | AttributeError
| TypeError | ZeroDivisionError.

(** Result of a pure library call. *)
Inductive result (A : Type) : Type :=
| Ok (a : A)
| Err (e : pyerr).
Arguments Ok {A} a.
Arguments Err {A} e.

Definition rbind {A B} (r : result A) (k : A -> result B) : result B :=
  match r with
  | Ok a => k a
  | Err e => Err e
  end.

(** A Python [dict] with string keys: insertion-ordered, keys unique. *)
Definition dict (V : Type) : Type := list (string * V).

Fixpoint dict_get {V} (k : string) (d : dict V) : option V :=
  match d with
  | [] => None
  | (k', v) :: d' => if String.eqb k k' then Some v else dict_get k d'
  end.

(** [d[k] = v]: replaces the value of an existing key in place, appends a
    new key at the end. *)
Fixpoint dict_set {V} (k : string) (v : V) (d : dict V) : dict V :=
  match d with
  | [] => [(k, v)]
  | (k', v') :: d' =>
      if String.eqb k k' then (k', v) :: d' else (k', v') :: dict_set k v d'
  end.

(** In-place mutation of the object stored under [k]: the dict itself
    (its keys and their order) is untouched, and nothing happens when
    the key is absent. *)
Fixpoint dict_mutate {V} (k : string) (v : V) (d : dict V) : dict V :=
  match d with
  | [] => []
  | (k', v') :: d' =>
      if String.eqb k k' then (k', v) :: d' else (k', v') :: dict_mutate k v d'
  end.

Definition keys {V} (d : dict V) : list string := map fst d.

(** Equality test on lists, from one on their elements. *)
Fixpoint list_eqb {A} (eqb : A -> A -> bool) (l1 l2 : list A) : bool :=
  match l1, l2 with
  | [], [] => true
  | a :: l1', b :: l2' => eqb a b && list_eqb eqb l1' l2'
  | _, _ => false
  end.

(** Normalisation of an integer index against an axis of extent [n]:
    [0 <= i < n] is itself, [-n <= i < 0] counts from the end, anything
    else is an [IndexError].  The index is one that fits a 64-bit
    integer; what the library does with a larger Python integer is not
    represented. *)
Definition norm_index (n : nat) (i : Z) : option nat :=
  if ((0 <=? i) && (i <? Z.of_nat n))%Z then Some (Z.to_nat i)
  else if ((- Z.of_nat n <=? i) && (i <? 0))%Z then Some (Z.to_nat (i + Z.of_nat n))
  else None.

(** One bound of a slice [a:b] against an axis of extent [n]: negative
    bounds count from the end, and the result is clamped to [0..n]. *)
Definition clamp_bound (n : nat) (i : Z) : nat :=
  if (i <? 0)%Z then Z.to_nat (Z.max 0 (i + Z.of_nat n))
  else Z.to_nat (Z.min i (Z.of_nat n)).

(** Bounds [(lo, hi)] of the slice [start:stop], with [lo <= hi]. *)
Definition slice_bounds (n : nat) (start stop : Z) : nat * nat :=
  let lo := clamp_bound n start in
  (lo, Nat.max lo (clamp_bound n stop)).

End Py.
Import Py.

Notation "x <-r c1 ;; c2" := (rbind c1 (fun x => c2))
  (at level 61, c1 at next level, right associativity).

(* ------------------------------------------------------------------ *)
(** ** Scalars *)

(** The float32 operations the buffer relies on.  [of_uint8] and
    [to_uint8] are the dtype casts between [torch.uint8] and
    [torch.float32]; [of_count] turns an element count into a float (the
    divisor of [mean] and [std]); [eps] is the literal [1e-8]. *)
Class FloatOps (F : Type) : Type := {
  f0 : F;
  f1 : F;
  fadd : F -> F -> F;
  fsub : F -> F -> F;
  fmul : F -> F -> F;
  fdiv : F -> F -> F;
  fsqrt : F -> F;
  of_uint8 : Z -> F;
  to_uint8 : F -> Z;
  of_count : nat -> F;
  eps : F
}.

(* ------------------------------------------------------------------ *)
(** ** Tensors *)

Module Torch.

(** A dense array: its shape and its elements in row-major order. *)
Record arr (A : Type) : Type := mkArr { shape : list nat; data : list A }.

Definition numel (s : list nat) : nat := fold_right Nat.mul 1 s.

Definition shape_eqb (s1 s2 : list nat) : bool := list_eqb Nat.eqb s1 s2.

(** [k] elements of [l] starting at offset [s]. *)
Definition chunk {A} (l : list A) (s k : nat) : list A := firstn k (skipn s l).

(** Overwrite the [length v] elements of [l] that start at offset [s]. *)
Definition splice {A} (l : list A) (s : nat) (v : list A) : list A :=
  firstn s l ++ v ++ skipn (s + length v) l.

Fixpoint map2 {A B C} (f : A -> B -> C) (l1 : list A) (l2 : list B) : list C :=
  match l1, l2 with
  | a :: l1', b :: l2' => f a b :: map2 f l1' l2'
  | _, _ => []
  end.

(** [tab n g] is the list [g 0; ...; g (n-1)]. *)
Definition tab {A} (n : nat) (g : nat -> A) : list A := map g (seq 0 n).

(** *** Broadcasting *)

Fixpoint strip_ones (s : list nat) : list nat :=
  match s with
  | 1 :: s' => strip_ones s'
  | _ => s
  end.

(** Shapes are aligned on the right; this works on reversed shapes. *)
Fixpoint expandable_rev (dst src : list nat) : bool :=
  match src, dst with
  | [], _ => true
  | _ :: _, [] => false
  | s :: src', d :: dst' => ((s =? d) || (s =? 1)) && expandable_rev dst' src'
  end.

(** [src] can be expanded to [dst]. *)
Definition expandable (dst src : list nat) : bool :=
  expandable_rev (rev dst) (rev src).

Fixpoint broadcast_rev (s1 s2 : list nat) : option (list nat) :=
  match s1, s2 with
  | [], _ => Some s2
  | _, [] => Some s1
  | a :: s1', b :: s2' =>
      match broadcast_rev s1' s2' with
      | None => None
      | Some r =>
          if a =? b then Some (a :: r)
          else if a =? 1 then Some (b :: r)
          else if b =? 1 then Some (a :: r)
          else None
      end
  end.

(** The common shape of two operands of an elementwise operation. *)
Definition broadcast_shapes (s1 s2 : list nat) : option (list nat) :=
  option_map (@rev nat) (broadcast_rev (rev s1) (rev s2)).

(** Left-pad a shape with ones up to rank [n]. *)
Definition pad_shape (n : nat) (s : list nat) : list nat :=
  repeat 1 (n - length s) ++ s.

(** Elements of an array of shape [src] (same rank as [dst]) expanded to
    shape [dst]: an axis of extent 1 is repeated, an axis of equal
    extent is traversed. *)
Fixpoint expand_data {A} (dst src : list nat) (l : list A) : list A :=
  match dst, src with
  | d :: dst', s :: src' =>
      if s =? d
      then flat_map (fun i => expand_data dst' src' (chunk l (i * numel src') (numel src')))
                    (seq 0 d)
      else concat (repeat (expand_data dst' src' l) d)
  | _, _ => l
  end.

Definition expand_to {A} (dst : list nat) (x : arr A) : list A :=
  expand_data dst (pad_shape (length dst) (shape x)) (data x).

(** Elementwise binary operation with broadcasting. *)
Definition binop {A B C} (f : A -> B -> C) (x : arr A) (y : arr B) : result (arr C) :=
  match broadcast_shapes (shape x) (shape y) with
  | None => Err RuntimeError
  | Some s => Ok (mkArr s (map2 f (expand_to s x) (expand_to s y)))
  end.

(** *** Indexing *)

(** [x[i]]: select along the first axis. *)
Definition select {A} (x : arr A) (i : Z) : result (arr A) :=
  match shape x with
  | [] => Err IndexError
  | d :: rest =>
      match norm_index d i with
      | None => Err IndexError
      | Some j => Ok (mkArr rest (chunk (data x) (j * numel rest) (numel rest)))
      end
  end.

(** [x[start:stop]]: a range of the first axis. *)
Definition slice {A} (x : arr A) (start stop : Z) : result (arr A) :=
  match shape x with
  | [] => Err IndexError
  | d :: rest =>
      let '(lo, hi) := slice_bounds d start stop in
      Ok (mkArr ((hi - lo) :: rest)
                (chunk (data x) (lo * numel rest) ((hi - lo) * numel rest)))
  end.

(** The elements written by an indexed assignment into a view of shape
    [view]: equal shapes are copied, a 0-dimensional source is filled
    in, anything else has its leading unit axes dropped and is then
    expanded; a source that cannot be expanded is a [RuntimeError]. *)
Definition copy_to {A} (view : list nat) (src : arr A) : result (list A) :=
  if shape_eqb view (shape src) then Ok (data src)
  else match shape src with
       | [] => Ok (concat (repeat (data src) (numel view)))
       | _ =>
           let s := strip_ones (shape src) in
           if expandable view s
           then Ok (expand_data view (pad_shape (length view) s) (data src))
           else Err RuntimeError
       end.

(** Whether a source of shape [src] may be assigned into a view of
    shape [view]. *)
Definition assignable (view src : list nat) : bool :=
  shape_eqb view src
  || match src with
     | [] => true
     | _ => expandable view (strip_ones src)
     end.

(** [x[i] = src]. *)
Definition assign {A} (x : arr A) (i : Z) (src : arr A) : result (arr A) :=
  match shape x with
  | [] => Err IndexError
  | d :: rest =>
      match norm_index d i with
      | None => Err IndexError
      | Some j =>
          v <-r copy_to rest src ;;
          Ok (mkArr (shape x) (splice (data x) (j * numel rest) v))
      end
  end.

(** [x[i, :] = src]: as [x[i] = src], on an array of rank at least 2. *)
Definition assign_row {A} (x : arr A) (i : Z) (src : arr A) : result (arr A) :=
  match shape x with
  | _ :: _ :: _ => assign x i src
  | _ => Err IndexError
  end.

(** [x[start:stop] = src]. *)
Definition assign_slice {A} (x : arr A) (start stop : Z) (src : arr A)
  : result (arr A) :=
  match shape x with
  | [] => Err IndexError
  | d :: rest =>
      let '(lo, hi) := slice_bounds d start stop in
      v <-r copy_to ((hi - lo) :: rest) src ;;
      Ok (mkArr (shape x) (splice (data x) (lo * numel rest) v))
  end.

(** *** Shape manipulation *)

(** [x.transpose(0, 1)]: element [(e, t, ...)] of the result is element
    [(t, e, ...)] of [x]. *)
Definition transpose01 {A} (x : arr A) : result (arr A) :=
  match shape x with
  | s0 :: s1 :: rest =>
      let k := numel rest in
      Ok (mkArr (s1 :: s0 :: rest)
            (flat_map (fun e =>
               flat_map (fun t => chunk (data x) ((t * s1 + e) * k) k) (seq 0 s0))
               (seq 0 s1)))
  | _ => Err IndexError
  end.

(** [x.reshape(s)]: same elements in the same order. *)
Definition reshape {A} (x : arr A) (s : list nat) : result (arr A) :=
  if numel s =? numel (shape x) then Ok (mkArr s (data x)) else Err RuntimeError.

(** [x.unsqueeze(1)]. *)
Definition unsqueeze1 {A} (x : arr A) : result (arr A) :=
  match shape x with
  | d :: rest => Ok (mkArr (d :: 1 :: rest) (data x))
  | [] => Err IndexError
  end.

(** [x.squeeze(1)]: drops the second axis when its extent is 1. *)
Definition squeeze1 {A} (x : arr A) : result (arr A) :=
  match shape x with
  | d :: 1 :: rest => Ok (mkArr (d :: rest) (data x))
  | _ :: _ :: _ => Ok x
  | _ => Err IndexError
  end.

End Torch.
Import Torch.

(* ------------------------------------------------------------------ *)
(** ** The buffer *)

Section Buffer.

Context {F : Type} {ops : FloatOps F}.

(** *** Typed tensors

    The buffer holds [float32] tensors and one [uint8] tensor
    ([dones]). *)
Inductive tensor : Type :=
| TF (a : arr F)
| TB (a : arr Z).

Definition tshape (x : tensor) : list nat :=
  match x with TF a => shape a | TB a => shape a end.

(** [x.float()] *)
Definition to_float (x : tensor) : arr F :=
  match x with
  | TF a => a
  | TB a => mkArr (shape a) (map of_uint8 (data a))
  end.

(** Cast to [uint8]. *)
Definition to_byte (x : tensor) : arr Z :=
  match x with
  | TF a => mkArr (shape a) (map to_uint8 (data a))
  | TB a => a
  end.

(** A Python number used as an operand: a 0-dimensional tensor. *)
Definition scalar (c : F) : tensor := TF (mkArr [] [c]).

Definition wrap8 (z : Z) : Z := (z mod 256)%Z.

(** Elementwise arithmetic with dtype promotion: two [uint8] operands
    stay [uint8] (wrapping), anything else is computed in [float32]. *)
Definition arith (ff : F -> F -> F) (fb : Z -> Z -> Z) (x y : tensor) : result tensor :=
  match x, y with
  | TB a, TB b => r <-r binop (fun p q => wrap8 (fb p q)) a b ;; Ok (TB r)
  | _, _ => r <-r binop ff (to_float x) (to_float y) ;; Ok (TF r)
  end.

Definition tadd : tensor -> tensor -> result tensor := arith fadd Z.add.
Definition tsub : tensor -> tensor -> result tensor := arith fsub Z.sub.
Definition tmul : tensor -> tensor -> result tensor := arith fmul Z.mul.

(** True division always yields [float32]. *)
Definition tdiv (x y : tensor) : result tensor :=
  r <-r binop fdiv (to_float x) (to_float y) ;; Ok (TF r).

(** Lifting of a dtype-agnostic array operation. *)
Definition lift_arr (f : forall A, arr A -> result (arr A)) (x : tensor) : result tensor :=
  match x with
  | TF a => r <-r f F a ;; Ok (TF r)
  | TB a => r <-r f Z a ;; Ok (TB r)
  end.

Definition tselect (x : tensor) (i : Z) : result tensor :=
  lift_arr (fun A a => select a i) x.
Definition tslice (x : tensor) (start stop : Z) : result tensor :=
  lift_arr (fun A a => slice a start stop) x.
Definition ttranspose01 : tensor -> result tensor := lift_arr (@transpose01).
Definition treshape (x : tensor) (s : list nat) : result tensor :=
  lift_arr (fun A a => reshape a s) x.
Definition tunsqueeze1 : tensor -> result tensor := lift_arr (@unsqueeze1).
Definition tsqueeze1 : tensor -> result tensor := lift_arr (@squeeze1).

(** Indexed assignment casts the source to the dtype of the target. *)
Definition lift_assign (f : forall A, arr A -> arr A -> result (arr A))
           (dst src : tensor) : result tensor :=
  match dst with
  | TF a => r <-r f F a (to_float src) ;; Ok (TF r)
  | TB a => r <-r f Z a (to_byte src) ;; Ok (TB r)
  end.

Definition tassign (dst : tensor) (i : Z) (src : tensor) : result tensor :=
  lift_assign (fun A a s => assign a i s) dst src.
Definition tassign_row (dst : tensor) (i : Z) (src : tensor) : result tensor :=
  lift_assign (fun A a s => assign_row a i s) dst src.
Definition tassign_slice (dst : tensor) (start stop : Z) (src : tensor) : result tensor :=
  lift_assign (fun A a s => assign_slice a start stop s) dst src.

(** What an indexed assignment of [v] leaves in a view of shape [view] of
    [x]: [v] cast to the dtype of [x] and expanded to [view]. *)
Definition written_row (x v : tensor) (view : list nat) : result tensor :=
  match x with
  | TF _ => w <-r copy_to view (to_float v) ;; Ok (TF (mkArr view w))
  | TB _ => w <-r copy_to view (to_byte v) ;; Ok (TB (mkArr view w))
  end.

(** [torch.zeros(shape, dtype=...)]; a negative extent is rejected.
    [Ok] stands for an allocation that succeeds: the failure of the
    library on extents too large to allocate is not represented. *)
Definition extent (z : Z) : result nat :=
  if (0 <=? z)%Z then Ok (Z.to_nat z) else Err RuntimeError.

Fixpoint extents (zs : list Z) : result (list nat) :=
  match zs with
  | [] => Ok []
  | z :: zs' => n <-r extent z ;; s <-r extents zs' ;; Ok (n :: s)
  end.

Definition zeros_f32 (zs : list Z) : result tensor :=
  s <-r extents zs ;; Ok (TF (mkArr s (repeat f0 (numel s)))).
Definition zeros_u8 (zs : list Z) : result tensor :=
  s <-r extents zs ;; Ok (TB (mkArr s (repeat 0%Z (numel s)))).

(** [torch.zeros_like(x)] *)
Definition zeros_like (x : tensor) : tensor :=
  match x with
  | TF a => TF (mkArr (shape a) (repeat f0 (numel (shape a))))
  | TB a => TB (mkArr (shape a) (repeat 0%Z (numel (shape a))))
  end.

Definition fsum (l : list F) : F := fold_right fadd f0 l.

Definition mean_of (l : list F) : F := fdiv (fsum l) (of_count (length l)).

(** Sample standard deviation (Bessel's correction), as [Tensor.std()]. *)
Definition std_of (l : list F) : F :=
  let m := mean_of l in
  fsqrt (fdiv (fsum (map (fun v => fmul (fsub v m) (fsub v m)) l))
              (of_count (length l - 1))).

(** [x.mean()] and [x.std()] are defined on floating tensors only. *)
Definition tmean (x : tensor) : result tensor :=
  match x with
  | TF a => Ok (scalar (mean_of (data a)))
  | TB _ => Err RuntimeError
  end.
Definition tstd (x : tensor) : result tensor :=
  match x with
  | TF a => Ok (scalar (std_of (data a)))
  | TB _ => Err RuntimeError
  end.

(** *** [transform_op]

    Swap and then flatten axes 0 and 1.  The [None] guard of the source
    is not represented: the values of [storage_dict] are tensors. *)
Definition transform_op (x : tensor) : result tensor :=
  match tshape x with
  | s0 :: s1 :: rest =>
      y <-r ttranspose01 x ;; treshape y (s0 * s1 :: rest)
  | _ => Err IndexError
  end.

(** *** The object and its methods *)

(** Attributes of an [ExperienceBuffer].  [device] is left out, and the
    attribute [length] is called [len] here.  [last_range] is not
    assigned by the constructor: [None] stands for the missing
    attribute.  The tensors of [data_dict] are kept as
    values of their own (in torch they share memory with
    [storage_dict] when one of the two leading extents is 1). *)
Record ExperienceBuffer : Type := mkBuf {
  num_envs : Z;
  transitions_per_env : Z;
  priv_info_dim : Z;
  data_dict : option (dict tensor);
  obs_dim : Z;
  act_dim : Z;
  priv_dim : Z;
  point_cloud_dim : Z;
  storage_dict : dict tensor;
  batch_size : Z;
  minibatch_size : Z;
  len : Z;
  last_range : option (Z * Z)
}.

Definition set_data_dict (d : option (dict tensor)) (s : ExperienceBuffer) :=
  mkBuf (num_envs s) (transitions_per_env s) (priv_info_dim s) d (obs_dim s)
        (act_dim s) (priv_dim s) (point_cloud_dim s) (storage_dict s)
        (batch_size s) (minibatch_size s) (len s) (last_range s).
Definition set_storage_dict (d : dict tensor) (s : ExperienceBuffer) :=
  mkBuf (num_envs s) (transitions_per_env s) (priv_info_dim s) (data_dict s) (obs_dim s)
        (act_dim s) (priv_dim s) (point_cloud_dim s) d
        (batch_size s) (minibatch_size s) (len s) (last_range s).
Definition set_last_range (r : option (Z * Z)) (s : ExperienceBuffer) :=
  mkBuf (num_envs s) (transitions_per_env s) (priv_info_dim s) (data_dict s) (obs_dim s)
        (act_dim s) (priv_dim s) (point_cloud_dim s) (storage_dict s)
        (batch_size s) (minibatch_size s) (len s) r.

(** A method call either returns or raises; the object keeps whatever
    was written to it before the exception. *)
Inductive outcome (A : Type) : Type :=
| Return (a : A) (s : ExperienceBuffer)
| Raise (e : pyerr) (s : ExperienceBuffer).
Arguments Return {A} a s.
Arguments Raise {A} e s.

Definition M (A : Type) : Type := ExperienceBuffer -> outcome A.

Definition ret {A} (a : A) : M A := fun s => Return a s.
Definition raise {A} (e : pyerr) : M A := fun s => Raise e s.
Definition bind {A B} (m : M A) (k : A -> M B) : M B :=
  fun s => match m s with
           | Return a s' => k a s'
           | Raise e s' => Raise e s'
           end.
Definition get : M ExperienceBuffer := fun s => Return s s.
Definition modify (f : ExperienceBuffer -> ExperienceBuffer) : M unit :=
  fun s => Return tt (f s).
Definition lift {A} (r : result A) : M A :=
  match r with Ok a => ret a | Err e => raise e end.
Definition lookup (k : string) (d : dict tensor) : M tensor :=
  match dict_get k d with Some v => ret v | None => raise KeyError end.
Definition final_state {A} (o : outcome A) : ExperienceBuffer :=
  match o with Return _ s => s | Raise _ s => s end.

Notation "x <- c1 ;; c2" := (bind c1 (fun x => c2))
  (at level 61, c1 at next level, right associativity).
Notation "c1 ;; c2" := (bind c1 (fun _ => c2))
  (at level 61, right associativity).

(** [self.storage_dict[k]] *)
Definition storage (k : string) : M tensor :=
  s <- get ;; lookup k (storage_dict s).

(** [__init__]: allocates the eleven zero tensors in the order of the
    dict literal, then derives the number of minibatches by floor
    division. *)
Definition __init__ (num_envs horizon_length batch_size minibatch_size
                     obs_dim act_dim priv_dim point_cloud_dim : Z)
  : result ExperienceBuffer :=
  let T := horizon_length in
  let N := num_envs in
  obses <-r zeros_f32 [T; N; obs_dim] ;;
  priv_info <-r zeros_f32 [T; N; priv_dim] ;;
  point_cloud_info <-r zeros_f32 [T; N; point_cloud_dim; 3%Z] ;;
  rewards <-r zeros_f32 [T; N; 1%Z] ;;
  values <-r zeros_f32 [T; N; 1%Z] ;;
  neglogpacs <-r zeros_f32 [T; N] ;;
  dones <-r zeros_u8 [T; N] ;;
  actions <-r zeros_f32 [T; N; act_dim] ;;
  mus <-r zeros_f32 [T; N; act_dim] ;;
  sigmas <-r zeros_f32 [T; N; act_dim] ;;
  returns <-r zeros_f32 [T; N; 1%Z] ;;
  let sd := [("obses", obses); ("priv_info", priv_info);
             ("point_cloud_info", point_cloud_info); ("rewards", rewards);
             ("values", values); ("neglogpacs", neglogpacs); ("dones", dones);
             ("actions", actions); ("mus", mus); ("sigmas", sigmas);
             ("returns", returns)]%string in
  if (minibatch_size =? 0)%Z then Err ZeroDivisionError
  else Ok (mkBuf N T priv_dim None obs_dim act_dim priv_dim point_cloud_dim sd
                 batch_size minibatch_size (batch_size / minibatch_size)%Z None).

Definition __len__ (s : ExperienceBuffer) : Z := len s.

(** The loop of [__getitem__] over [data_dict.items()]; the values of
    [data_dict] are tensors, so only the [else] branch is taken. *)
Fixpoint slice_items (items : dict tensor) (start stop : Z) (input_dict : dict tensor)
  : M (dict tensor) :=
  match items with
  | [] => ret input_dict
  | (k, v) :: items' =>
      w <- lift (tslice v start stop) ;;
      slice_items items' start stop (dict_set k w input_dict)
  end.

(** The order in which [__getitem__] returns the fields. *)
Definition minibatch_fields : list string :=
  ["values"; "neglogpacs"; "advantages"; "mus"; "sigmas"; "returns";
   "actions"; "obses"; "priv_info"; "point_cloud_info"]%string.

Fixpoint lookup_all (ks : list string) (d : dict tensor) : M (list tensor) :=
  match ks with
  | [] => ret []
  | k :: ks' => v <- lookup k d ;; vs <- lookup_all ks' d ;; ret (v :: vs)
  end.

(** [__getitem__]: the returned tuple is a list of ten tensors. *)
Definition __getitem__ (idx : Z) : M (list tensor) :=
  s <- get ;;
  let start := (idx * minibatch_size s)%Z in
  let stop := ((idx + 1) * minibatch_size s)%Z in
  modify (set_last_range (Some (start, stop))) ;;
  match data_dict s with
  | None => raise AttributeError
  | Some dd =>
      input_dict <- slice_items dd start stop [] ;;
      lookup_all minibatch_fields input_dict
  end.

(** [self.data_dict[k][start:end] = v] *)
Definition data_assign_slice (k : string) (start stop : Z) (v : tensor) : M unit :=
  s <- get ;;
  match data_dict s with
  | None => raise TypeError
  | Some dd =>
      x <- lookup k dd ;;
      x' <- lift (tassign_slice x start stop v) ;;
      modify (set_data_dict (Some (dict_mutate k x' dd)))
  end.

Definition update_mu_sigma (mu sigma : tensor) : M unit :=
  s <- get ;;
  match last_range s with
  | None => raise AttributeError
  | Some (start, stop) =>
      data_assign_slice "mus" start stop mu ;;
      data_assign_slice "sigmas" start stop sigma
  end.

(** The [val] argument of [update_data]: a tensor, or a dict of tensors
    with string keys. *)
Inductive pyval : Type :=
| VTensor (v : tensor)
| VDict (items : dict tensor).

(** [self.storage_dict[name][index, :] = v] *)
Definition storage_assign_row (name : string) (index : Z) (v : tensor) : M unit :=
  x <- storage name ;;
  x' <- lift (tassign_row x index v) ;;
  modify (fun s => set_storage_dict (dict_mutate name x' (storage_dict s)) s).

(** [update_data].  A dict value is a dict with string keys, the only
    kind represented here.  In the dict branch [self.storage_dict[name]]
    is a tensor, so subscripting it with the string key of the first
    item raises [TypeError]; an empty dict leaves the loop without doing
    anything. *)
Definition update_data (name : string) (index : Z) (val : pyval) : M unit :=
  match val with
  | VDict [] => ret tt
  | VDict (_ :: _) => storage name ;; raise TypeError
  | VTensor v => storage_assign_row name index v
  end.

(** One iteration of the loop of [computer_return]; the locals
    [last_gae_lam] and [mb_advs] are threaded through. *)
Definition computer_return_step (last_values : tensor) (gamma tau : F) (t : Z)
           (last_gae_lam mb_advs : tensor) : M (tensor * tensor) :=
  s <- get ;;
  next_values <-
    (if (t =? transitions_per_env s - 1)%Z then ret last_values
     else (v <- storage "values" ;; lift (tselect v (t + 1)))) ;;
  d <- storage "dones" ;;
  dt <- lift (tselect (TF (to_float d)) t) ;;
  next_nonterminal <- lift (tsub (scalar f1) dt) ;;
  next_nonterminal <- lift (tunsqueeze1 next_nonterminal) ;;
  r <- storage "rewards" ;;
  rt <- lift (tselect r t) ;;
  gv <- lift (tmul (scalar gamma) next_values) ;;
  gvn <- lift (tmul gv next_nonterminal) ;;
  rg <- lift (tadd rt gvn) ;;
  v <- storage "values" ;;
  vt <- lift (tselect v t) ;;
  delta <- lift (tsub rg vt) ;;
  gtn <- lift (tmul (scalar (fmul gamma tau)) next_nonterminal) ;;
  gtnl <- lift (tmul gtn last_gae_lam) ;;
  gae <- lift (tadd delta gtnl) ;;
  mb_advs' <- lift (tassign mb_advs t gae) ;;
  at_ <- lift (tselect mb_advs' t) ;;
  v <- storage "values" ;;
  vt <- lift (tselect v t) ;;
  rhs <- lift (tadd at_ vt) ;;
  storage_assign_row "returns" t rhs ;;
  ret (gae, mb_advs').

Fixpoint computer_return_loop (last_values : tensor) (gamma tau : F) (ts : list Z)
         (last_gae_lam mb_advs : tensor) : M unit :=
  match ts with
  | [] => ret tt
  | t :: ts' =>
      p <- computer_return_step last_values gamma tau t last_gae_lam mb_advs ;;
      computer_return_loop last_values gamma tau ts' (fst p) (snd p)
  end.

(** [range(n)] *)
Definition range (n : Z) : list Z := map Z.of_nat (seq 0 (Z.to_nat n)).

(** [computer_return].  The initial [last_gae_lam = 0] only ever
    multiplies a float tensor, so it is the float scalar zero.  The
    Python floats [gamma] and [tau] are taken in the carrier, the
    precision in which they meet the tensors. *)
Definition computer_return (last_values : tensor) (gamma tau : F) : M unit :=
  r <- storage "rewards" ;;
  let mb_advs := zeros_like r in
  s <- get ;;
  computer_return_loop last_values gamma tau (rev (range (transitions_per_env s)))
                       (scalar f0) mb_advs.

(** The loop of [prepare_training] over [storage_dict.items()]. *)
Fixpoint transform_items (items : dict tensor) : M unit :=
  match items with
  | [] => ret tt
  | (k, v) :: items' =>
      y <- lift (transform_op v) ;;
      modify (fun s => set_data_dict (option_map (dict_set k y) (data_dict s)) s) ;;
      transform_items items'
  end.

(** [self.data_dict[k]] for a [data_dict] that has been created. *)
Definition data_item (k : string) : M tensor :=
  s <- get ;;
  match data_dict s with
  | None => raise TypeError
  | Some dd => lookup k dd
  end.

Definition prepare_training : M (dict tensor) :=
  modify (set_data_dict (Some [])) ;;
  s <- get ;;
  transform_items (storage_dict s) ;;
  rets <- data_item "returns" ;;
  vals <- data_item "values" ;;
  advantages <- lift (tsub rets vals) ;;
  m <- lift (tmean advantages) ;;
  centred <- lift (tsub advantages m) ;;
  sd <- lift (tstd advantages) ;;
  sde <- lift (tadd sd (scalar eps)) ;;
  q <- lift (tdiv centred sde) ;;
  a <- lift (tsqueeze1 q) ;;
  modify (fun s => set_data_dict (option_map (dict_set "advantages" a) (data_dict s)) s) ;;
  s <- get ;;
  match data_dict s with
  | None => raise TypeError
  | Some dd => ret dd
  end.

(** *** The GAE recursion as the specification words it

    One environment at a time: [reward t], [value t] and [done t] are
    the stored quantities of that environment at step [t], [bootstrap]
    its bootstrap value. *)
Section GaeSpec.

Variables (horizon_length : nat) (reward value : nat -> F) (done : nat -> Z).
Variables (bootstrap gamma tau : F).

Definition spec_next_value (t : nat) : F :=
  if t =? horizon_length - 1 then bootstrap else value (t + 1).

Definition spec_nonterminal (t : nat) : F := fsub f1 (of_uint8 (done t)).

Definition spec_delta (t : nat) : F :=
  fsub (fadd (reward t) (fmul (fmul gamma (spec_next_value t)) (spec_nonterminal t)))
       (value t).

(** [last_gae] after the backward pass has handled the [k] steps
    [t, t+1, ..., t+k-1]; it starts from zero. *)
Fixpoint spec_last_gae_from (k t : nat) : F :=
  match k with
  | 0 => f0
  | S k' =>
      fadd (spec_delta t)
           (fmul (fmul (fmul gamma tau) (spec_nonterminal t))
                 (spec_last_gae_from k' (S t)))
  end.

Definition spec_last_gae (t : nat) : F := spec_last_gae_from (horizon_length - t) t.

Definition spec_return (t : nat) : F := fadd (spec_last_gae t) (value t).

End GaeSpec.

(** The normalisation of [prepare_training], on the list of raw
    advantages. *)
Definition normalised (raw : list F) : list F :=
  map (fun a => fdiv (fsub a (mean_of raw)) (fadd (std_of raw) eps)) raw.

(** *** Shapes of a constructed buffer *)

Definition is_float (x : tensor) : bool :=
  match x with TF _ => true | TB _ => false end.

Definition tlen (x : tensor) : nat :=
  match x with TF a => length (data a) | TB a => length (data a) end.

(** Element [i] of the row-major contents, read as a float. *)
Definition felem (x : tensor) (i : nat) : F := nth i (data (to_float x)) f0.

(** Element [i] of a [uint8] tensor. *)
Definition belem (x : tensor) (i : nat) : Z :=
  match x with TB a => nth i (data a) 0%Z | TF _ => 0%Z end.

Definition field_names : list string :=
  ["obses"; "priv_info"; "point_cloud_info"; "rewards"; "values"; "neglogpacs";
   "dones"; "actions"; "mus"; "sigmas"; "returns"]%string.

Definition horizon (s : ExperienceBuffer) : nat := Z.to_nat (transitions_per_env s).
Definition envs (s : ExperienceBuffer) : nat := Z.to_nat (num_envs s).

(** Trailing axes of each field, after [time, env]. *)
Definition trailing (s : ExperienceBuffer) (k : string) : list nat :=
  if (k =? "obses")%string then [Z.to_nat (obs_dim s)]
  else if (k =? "priv_info")%string then [Z.to_nat (priv_dim s)]
  else if (k =? "point_cloud_info")%string then [Z.to_nat (point_cloud_dim s); 3]
  else if ((k =? "neglogpacs") || (k =? "dones"))%string then []
  else if ((k =? "actions") || (k =? "mus") || (k =? "sigmas"))%string
       then [Z.to_nat (act_dim s)]
  else [1].

(** A tensor of the given dtype and shape, holding as many elements as
    the shape says. *)
Definition tensor_okb (float : bool) (sh : list nat) (x : tensor) : bool :=
  Bool.eqb (is_float x) float && shape_eqb (tshape x) sh && (tlen x =? numel sh).

Definition field_okb (s : ExperienceBuffer) (kx : string * tensor) : bool :=
  tensor_okb (negb (fst kx =? "dones")%string)
             (horizon s :: envs s :: trailing s (fst kx)) (snd kx).

(** The layout the constructor establishes: the eleven fields, each of
    shape [[horizon, envs] ++ trailing], [dones] in [uint8] and the
    others in [float32]. *)
Definition buffer_okb (s : ExperienceBuffer) : bool :=
  (0 <=? transitions_per_env s)%Z && (0 <=? num_envs s)%Z
  && list_eqb String.eqb (keys (storage_dict s)) field_names
  && forallb (field_okb s) (storage_dict s).

(** Row [j] of [o] is row [lo + j] of [x], for the rows of [x] whose
    index lies in [lo, hi). *)
Definition is_rows (x : tensor) (lo hi : nat) (o : tensor) : Prop :=
  exists n rest,
    tshape x = n :: rest /\
    tshape o = (Nat.min n hi - Nat.min n lo) :: rest /\
    forall j, lo + j < Nat.min n hi ->
         tselect o (Z.of_nat j) = tselect x (Z.of_nat (lo + j)).

(** The rows of [x'] are those of [x], except that rows [lo .. hi-1]
    are the rows of [v]. *)
Definition rows_overwritten (x v x' : tensor) (lo hi : nat) : Prop :=
  is_float x' = is_float x /\ tshape x' = tshape x /\ tlen x' = tlen x /\
  forall j, j < hd 0 (tshape x) ->
       tselect x' (Z.of_nat j)
       = if (lo <=? j) && (j <? hi) then tselect v (Z.of_nat (j - lo))
         else tselect x (Z.of_nat j).

(** [y] holds the elements of [x], each as often, in [x]'s dtype. *)
Definition same_elements (x y : tensor) : Prop :=
  match x, y with
  | TF a, TF b => Permutation (data a) (data b)
  | TB a, TB b => Permutation (data a) (data b)
  | _, _ => False
  end.

(** *** The backward pass, as an invariant

    The state of the buffer during the pass of [computer_return]: the
    tensors it reads, the current contents [Rc] of ["returns"], and the
    horizon. *)
Definition pass_state (T N : nat) (rewards values : arr F) (dones : arr Z)
           (st : ExperienceBuffer) (Rc : arr F) : Prop :=
  dict_get "rewards"%string (storage_dict st) = Some (TF rewards)
  /\ dict_get "values"%string (storage_dict st) = Some (TF values)
  /\ dict_get "dones"%string (storage_dict st) = Some (TB dones)
  /\ dict_get "returns"%string (storage_dict st) = Some (TF Rc)
  /\ transitions_per_env st = Z.of_nat T
  /\ shape Rc = [T; N; 1] /\ length (data Rc) = T * N.

(** [last_gae_lam] is the Python number 0 before the first iteration
    and a column afterwards; [g e] is its value for environment [e]. *)
Definition holds_gae (N : nat) (last : tensor) (g : nat -> F) : Prop :=
  (last = scalar f0 /\ forall e, g e = f0) \/ last = TF (mkArr [N; 1] (tab N g)).

(** *** Frames

    [preserves R m]: whatever [m] does, and whether it returns or
    raises, the object it leaves behind is [R]-related to the one it
    started from. *)
Definition preserves {A} (R : ExperienceBuffer -> ExperienceBuffer -> Prop) (m : M A)
  : Prop :=
  forall s, R s (final_state (m s)).

(** Everything but the tensor stored under ["returns"] is the same. *)
Definition only_returns_differ (s s' : ExperienceBuffer) : Prop :=
  s' = set_storage_dict (storage_dict s') s /\
  keys (storage_dict s') = keys (storage_dict s) /\
  forall k, k <> "returns"%string ->
       dict_get k (storage_dict s') = dict_get k (storage_dict s).

Definition same_last_range (s s' : ExperienceBuffer) : Prop :=
  last_range s' = last_range s.

(** *** Sequences of method calls *)

Inductive call : Type :=
| CallUpdateData (name : string) (index : Z) (val : pyval)
| CallComputerReturn (last_values : tensor) (gamma tau : F)
| CallPrepareTraining
| CallGetItem (idx : Z)
| CallUpdateMuSigma (mu sigma : tensor).

(** The object after a call, whether it returned or raised. *)
Definition run_call (c : call) (s : ExperienceBuffer) : ExperienceBuffer :=
  match c with
  | CallUpdateData name index val => final_state (update_data name index val s)
  | CallComputerReturn lv gamma tau => final_state (computer_return lv gamma tau s)
  | CallPrepareTraining => final_state (prepare_training s)
  | CallGetItem idx => final_state (__getitem__ idx s)
  | CallUpdateMuSigma mu sigma => final_state (update_mu_sigma mu sigma s)
  end.

Definition run_calls (cs : list call) (s : ExperienceBuffer) : ExperienceBuffer :=
  fold_left (fun s c => run_call c s) cs s.

Definition is_getitem (c : call) : bool :=
  match c with CallGetItem _ => true | _ => false end.

(** Whether a minibatch has been requested since the last
    [prepare_training] of the call sequence. *)
Definition served_in_cycle (cs : list call) : bool :=
  fold_left (fun b c => match c with
                        | CallPrepareTraining => false
                        | CallGetItem _ => true
                        | _ => b
                        end) cs false.

(** Everything but the training view is the same. *)
Definition only_view_differs (s s' : ExperienceBuffer) : Prop :=
  s' = set_data_dict (data_dict s') s.

(** A tensor holds as many elements as its shape says; every tensor
    of the library does. *)
Definition well_formed (x : tensor) : bool := tlen x =? numel (tshape x).

(** The tensor arguments of a call that may reach [storage_dict] are
    well formed. *)
Definition call_wfb (c : call) : bool :=
  match c with
  | CallUpdateData _ _ (VTensor v) => well_formed v
  | CallComputerReturn last_values _ _ => well_formed last_values
  | _ => true
  end.

(** The index passed to the last [__getitem__] of a call sequence. *)
Definition last_getitem (cs : list call) : option Z :=
  fold_left (fun o c => match c with CallGetItem idx => Some idx | _ => o end) cs None.

(** The configuration of a buffer: its scalar attributes and the keys
    of [storage_dict]. *)
Definition same_config (s s' : ExperienceBuffer) : Prop :=
  num_envs s' = num_envs s
  /\ transitions_per_env s' = transitions_per_env s
  /\ priv_info_dim s' = priv_info_dim s
  /\ obs_dim s' = obs_dim s
  /\ act_dim s' = act_dim s
  /\ priv_dim s' = priv_dim s
  /\ point_cloud_dim s' = point_cloud_dim s
  /\ batch_size s' = batch_size s
  /\ minibatch_size s' = minibatch_size s
  /\ len s' = len s
  /\ keys (storage_dict s') = keys (storage_dict s).

End Buffer.

Arguments Return {F A} a s.
Arguments Raise {F A} e s.

(** ** Exact arithmetic

    The carrier of real numbers: float32 idealised, without rounding,
    infinities or NaN.  It serves for runs on concrete buffers and for
    the moments of the normalised advantages. *)

Definition trunc (x : R) : Z :=
  if Rle_dec 0 x then Int_part x else (- Int_part (- x))%Z.

#[export] Instance RealOps : FloatOps R := {|
  f0 := 0%R;
  f1 := 1%R;
  fadd := Rplus;
  fsub := Rminus;
  fmul := Rmult;
  fdiv := Rdiv;
  fsqrt := sqrt;
  of_uint8 := IZR;
  to_uint8 := fun x => wrap8 (trunc x);
  of_count := INR;
  eps := (1 / 100000000)%R
|}.

(** ** Float32 arithmetic

    The carrier of IEEE 754 binary32 numbers, the element type of every
    floating tensor of the buffer: the operations of the Standard
    Library's [SpecFloat] at 24 bits of precision and [emax = 128],
    rounding to nearest, ties to even, with signed zeros, infinities
    and NaN. *)

Definition float32 : Type := SpecFloat.spec_float.

(** The float32 nearest to an integer. *)
Definition float32_of_Z (z : Z) : float32 := SpecFloat.binary_normalize 24 128 z 0 false.

(** The integer part of a float32; 0 stands for the cast of an infinity
    or a NaN, which the library leaves undefined. *)
Definition float32_to_Z (x : float32) : Z :=
  match x with
  | SpecFloat.S754_finite s m e =>
      let a := match e with
               | Z0 => Zpos m
               | Zpos _ => Z.shiftl (Zpos m) e
               | Zneg q => Z.shiftr (Zpos m) (Zpos q)
               end in
      if s then (- a)%Z else a
  | _ => 0%Z
  end.

#[export] Instance Float32Ops : FloatOps float32 := {|
  f0 := SpecFloat.S754_zero false;
  f1 := SpecFloat.S754_finite false 8388608 (-23);
  fadd := SpecFloat.SFadd 24 128;
  fsub := SpecFloat.SFsub 24 128;
  fmul := SpecFloat.SFmul 24 128;
  fdiv := SpecFloat.SFdiv 24 128;
  fsqrt := SpecFloat.SFsqrt 24 128;
  of_uint8 := float32_of_Z;
  to_uint8 := fun x => wrap8 (float32_to_Z x);
  of_count := fun n => float32_of_Z (Z.of_nat n);
  eps := SpecFloat.S754_finite false 11258999 (-50)
|}.

(** Neither an infinity nor a NaN. *)
Definition finite32 (x : float32) : bool :=
  match x with
  | SpecFloat.S754_zero _ | SpecFloat.S754_finite _ _ _ => true
  | _ => false
  end.

Definition is_nan32 (x : float32) : bool :=
  match x with SpecFloat.S754_nan => true | _ => false end.

Definition is_zero32 (x : float32) : bool :=
  match x with SpecFloat.S754_zero _ => true | _ => false end.

(** The same float32, or two zeros of any sign. *)
Definition same_number (x y : float32) : Prop :=
  x = y \/ exists sx sy, x = SpecFloat.S754_zero sx /\ y = SpecFloat.S754_zero sy.

(** ** Concrete buffers over the reals *)

Section Concrete.

Local Open Scope Z_scope.

Local Abbreviation rbuffer := (@ExperienceBuffer R).
Local Abbreviation rtensor := (@tensor R).

Definition empty_buffer : rbuffer :=
  mkBuf 0 0 0 None 0 0 0 0 [] 0 0 0 None.

(** Two environments, horizon 3, minibatches of 2, [obs_dim = 2]. *)
Definition small_buffer : rbuffer :=
  match __init__ 2 3 6 2 2 1 1 1 with
  | Ok s => s
  | Err _ => empty_buffer
  end.

Definition column (a b : R) : rtensor := TF (mkArr [2%nat; 1%nat] [a; b]).
Definition flags (a b : Z) : rtensor := TB (mkArr [2%nat] [a; b]).

(** Every step terminal, rewards and values filled in. *)
Definition terminal_buffer : rbuffer :=
  run_calls
    [CallUpdateData "rewards" 0 (VTensor (column 1 2));
     CallUpdateData "rewards" 1 (VTensor (column 3 4));
     CallUpdateData "rewards" 2 (VTensor (column 5 6));
     CallUpdateData "values" 0 (VTensor (column 1 1));
     CallUpdateData "values" 1 (VTensor (column 2 2));
     CallUpdateData "values" 2 (VTensor (column 3 3));
     CallUpdateData "dones" 0 (VTensor (flags 1 1));
     CallUpdateData "dones" 1 (VTensor (flags 1 1));
     CallUpdateData "dones" 2 (VTensor (flags 1 1))]
    small_buffer.


(** The buffer once a training view has been prepared, and that view. *)
Definition prepared_buffer : rbuffer := run_calls [CallPrepareTraining] small_buffer.

Definition prepared_view : dict rtensor :=
  match data_dict prepared_buffer with
  | Some dd => dd
  | None => []
  end.

(** A second collection cycle in which no minibatch has been requested
    yet. *)
Definition second_cycle : list (@call R) :=
  [CallPrepareTraining;
   CallGetItem 0;
   CallUpdateData "rewards" 0 (VTensor (column 1 2));
   CallComputerReturn (column 0 0) (99 / 100)%R (95 / 100)%R;
   CallPrepareTraining].

(** The scenario of the specification: horizon 4, two environments,
    [obs_dim = 3], rewards 1 everywhere, values 0, done only at the last
    step. *)
Definition scenario_buffer : rbuffer :=
  run_calls
    [CallUpdateData "rewards" 0 (VTensor (column 1 1));
     CallUpdateData "rewards" 1 (VTensor (column 1 1));
     CallUpdateData "rewards" 2 (VTensor (column 1 1));
     CallUpdateData "rewards" 3 (VTensor (column 1 1));
     CallUpdateData "dones" 3 (VTensor (flags 1 1))]
    match __init__ 2 4 8 4 3 1 1 1 with
    | Ok s => s
    | Err _ => empty_buffer
    end.

End Concrete.

(** ** Concrete buffers over float32 *)

Section ConcreteFloat.

Local Open Scope Z_scope.

Local Abbreviation fbuffer := (@ExperienceBuffer float32).
Local Abbreviation ftensor := (@tensor float32).

Definition empty_fbuffer : fbuffer :=
  mkBuf 0 0 0 None 0 0 0 0 [] 0 0 0 None.

Definition fcolumn (a b : Z) : ftensor :=
  TF (mkArr [2%nat; 1%nat] [float32_of_Z a; float32_of_Z b]).

(** Two environments, horizon 2, every step terminal, rewards
    33554436 and values 2: [33554436 - 2] is not a float32. *)
Definition rounding_buffer : fbuffer :=
  run_calls
    [CallUpdateData "rewards" 0 (VTensor (fcolumn 33554436 33554436));
     CallUpdateData "rewards" 1 (VTensor (fcolumn 33554436 33554436));
     CallUpdateData "values" 0 (VTensor (fcolumn 2 2));
     CallUpdateData "values" 1 (VTensor (fcolumn 2 2));
     CallUpdateData "dones" 0 (VTensor (TB (mkArr [2%nat] [1; 1])));
     CallUpdateData "dones" 1 (VTensor (TB (mkArr [2%nat] [1; 1])))]
    match __init__ 2 2 4 2 1 1 1 1 with
    | Ok s => s
    | Err _ => empty_fbuffer
    end.



End ConcreteFloat.

(* ------------------------------------------------------------------ *)
(** ** Facts about the list operations underlying tensors *)

Module ListFacts.

Lemma list_eqb_eq {A} (eqb : A -> A -> bool) :
  (forall a b, eqb a b = true <-> a = b) ->
  forall l1 l2, list_eqb eqb l1 l2 = true <-> l1 = l2.
Proof.
  intros E. induction l1 as [|a l1 IH]; intros [|b l2]; cbn;
    try (split; [discriminate | congruence]); [tauto|].
  rewrite andb_true_iff, E, IH. split; [intros [-> ->]; reflexivity | intros [= -> ->]; auto].
Qed.

Lemma shape_eqb_eq s1 s2 : shape_eqb s1 s2 = true <-> s1 = s2.
Proof. apply list_eqb_eq. apply Nat.eqb_eq. Qed.

Lemma shape_eqb_refl s : shape_eqb s s = true.
Proof. now apply shape_eqb_eq. Qed.

Lemma keys_eqb_eq l1 l2 : list_eqb String.eqb l1 l2 = true <-> l1 = l2.
Proof. apply list_eqb_eq. apply String.eqb_eq. Qed.

Lemma length_tab {A} n (g : nat -> A) : length (tab n g) = n.
Proof. unfold tab. now rewrite length_map, length_seq. Qed.

Lemma nth_tab {A} n (g : nat -> A) i d : i < n -> nth i (tab n g) d = g i.
Proof.
  intros Hi. unfold tab.
  rewrite (nth_indep _ d (g 0)) by now rewrite length_map, length_seq.
  rewrite map_nth, seq_nth by assumption. reflexivity.
Qed.

Lemma tab_ext {A} n (g h : nat -> A) :
  (forall i, i < n -> g i = h i) -> tab n g = tab n h.
Proof.
  intros E. apply map_ext_in. intros i Hi. apply in_seq in Hi. apply E. lia.
Qed.

Lemma tab_of_list {A} (l : list A) d : l = tab (length l) (fun i => nth i l d).
Proof.
  apply (nth_ext _ _ d d).
  - now rewrite length_tab.
  - intros i Hi. now rewrite nth_tab.
Qed.

Lemma tab_const {A} n (c : A) : tab n (fun _ => c) = repeat c n.
Proof.
  apply (nth_ext _ _ c c).
  - now rewrite length_tab, repeat_length.
  - intros i Hi. rewrite length_tab in Hi. rewrite nth_tab by assumption.
    now rewrite nth_repeat.
Qed.

Lemma length_chunk {A} (l : list A) s k :
  s + k <= length l -> length (chunk l s k) = k.
Proof. intros H. unfold chunk. rewrite length_firstn, length_skipn. lia. Qed.

Lemma length_chunk_le {A} (l : list A) s k : length (chunk l s k) <= k.
Proof. unfold chunk. rewrite length_firstn. lia. Qed.

Lemma nth_chunk {A} (l : list A) s k i d :
  i < k -> nth i (chunk l s k) d = nth (s + i) l d.
Proof.
  intros Hi. unfold chunk. rewrite nth_firstn, nth_skipn.
  destruct (Nat.ltb_spec i k); [reflexivity | lia].
Qed.

Lemma chunk_tab {A} (l : list A) s k d :
  s + k <= length l -> chunk l s k = tab k (fun i => nth (s + i) l d).
Proof.
  intros H. apply (nth_ext _ _ d d).
  - now rewrite length_chunk, length_tab.
  - intros i Hi. rewrite length_chunk in Hi by assumption.
    now rewrite nth_chunk, nth_tab.
Qed.

Lemma chunk_all {A} (l : list A) : chunk l 0 (length l) = l.
Proof. unfold chunk. rewrite skipn_0. apply firstn_all. Qed.

Lemma chunk_chunk {A} (l : list A) s k s' k' :
  s' + k' <= k -> chunk (chunk l s k) s' k' = chunk l (s + s') k'.
Proof.
  intros H. unfold chunk.
  rewrite skipn_firstn_comm, firstn_firstn, skipn_skipn.
  f_equal; [lia | f_equal; lia].
Qed.

Lemma chunk_split {A} (l : list A) s k1 k2 :
  chunk l s (k1 + k2) = chunk l s k1 ++ chunk l (s + k1) k2.
Proof.
  unfold chunk. rewrite (Nat.add_comm s k1), <- skipn_skipn.
  generalize (skipn s l) as m. intros m.
  revert m; induction k1 as [|k1 IH]; intros m.
  - reflexivity.
  - destruct m as [|a m].
    + cbn. now rewrite firstn_nil.
    + cbn. f_equal. apply IH.
Qed.

(** Consecutive rows of equal length: row [i] of their concatenation. *)
Lemma chunk_flat_map {A} (g : nat -> list A) k n a i :
  (forall j, a <= j < a + n -> length (g j) = k) ->
  i < n -> chunk (flat_map g (seq a n)) (i * k) k = g (a + i).
Proof.
  revert a i. induction n as [|n IH]; intros a i Hg Hi; [lia|].
  cbn [seq flat_map]. unfold chunk. destruct i as [|i].
  - cbn [Nat.mul skipn]. rewrite firstn_app, Hg, Nat.sub_diag by lia.
    cbn [firstn]. rewrite app_nil_r, Nat.add_0_r.
    apply firstn_all2. rewrite Hg by lia. lia.
  - rewrite skipn_app, Hg by lia.
    rewrite (skipn_all2 (g a)) by (rewrite Hg by lia; cbn; lia).
    cbn [app]. replace (S i * k - k) with (i * k) by (cbn; lia).
    replace (a + S i) with (S a + i) by lia.
    apply IH; [intros j Hj; apply Hg; lia | lia].
Qed.

Lemma length_flat_map_const {A} (g : nat -> list A) k n a :
  (forall j, a <= j < a + n -> length (g j) = k) ->
  length (flat_map g (seq a n)) = n * k.
Proof.
  revert a. induction n as [|n IH]; intros a Hg; [reflexivity|].
  cbn [seq flat_map]. rewrite length_app, Hg, IH by (try intros j Hj; try apply Hg; lia).
  cbn. lia.
Qed.

(** Cutting a list into rows and gluing them back. *)
Lemma flat_map_chunks {A} (l : list A) k n a :
  flat_map (fun i => chunk l (i * k) k) (seq a n) = chunk l (a * k) (n * k).
Proof.
  revert a. induction n as [|n IH]; intros a.
  - reflexivity.
  - cbn [seq flat_map]. rewrite IH.
    replace (S n * k) with (k + n * k) by (cbn; lia).
    rewrite chunk_split. do 2 f_equal. cbn; lia.
Qed.

Lemma flat_map_chunks_id {A} (l : list A) k n :
  length l = n * k -> flat_map (fun i => chunk l (i * k) k) (seq 0 n) = l.
Proof.
  intros H. rewrite flat_map_chunks. cbn [Nat.mul]. rewrite <- H. apply chunk_all.
Qed.

Lemma length_splice {A} (l v : list A) s :
  s + length v <= length l -> length (splice l s v) = length l.
Proof.
  intros H. unfold splice.
  rewrite !length_app, length_firstn, length_skipn. lia.
Qed.

Lemma nth_splice {A} (l v : list A) s i d :
  s + length v <= length l ->
  nth i (splice l s v) d =
    if (s <=? i) && (i <? s + length v) then nth (i - s) v d else nth i l d.
Proof.
  intros H. unfold splice.
  assert (Hf : length (firstn s l) = s) by (rewrite length_firstn; lia).
  destruct (Nat.leb_spec s i) as [Hs|Hs]; cbn [andb].
  - rewrite app_nth2 by lia. rewrite Hf.
    destruct (Nat.ltb_spec i (s + length v)) as [Hv|Hv].
    + now rewrite app_nth1 by lia.
    + rewrite app_nth2 by lia. rewrite nth_skipn. f_equal. lia.
  - rewrite app_nth1 by lia. rewrite nth_firstn.
    destruct (Nat.ltb_spec i s); [reflexivity | lia].
Qed.

Lemma chunk_splice_same {A} (l v : list A) s :
  s + length v <= length l -> chunk (splice l s v) s (length v) = v.
Proof.
  intros H. unfold chunk, splice.
  rewrite skipn_app, length_firstn.
  rewrite skipn_all2 by (rewrite length_firstn; lia).
  replace (s - Nat.min s (length l)) with 0 by lia.
  cbn [app skipn]. rewrite firstn_app, Nat.sub_diag. cbn [firstn].
  rewrite app_nil_r. apply firstn_all.
Qed.

Lemma chunk_splice_other {A} (l v : list A) s s' k (d : A) :
  s + length v <= length l -> s' + k <= length l ->
  s' + k <= s \/ s + length v <= s' ->
  chunk (splice l s v) s' k = chunk l s' k.
Proof.
  intros H H' Hd. apply (nth_ext _ _ d d).
  - rewrite !length_chunk; rewrite ?length_splice; lia.
  - intros i Hi. rewrite length_chunk in Hi by (rewrite length_splice; lia).
    rewrite !nth_chunk, nth_splice by lia.
    destruct (Nat.leb_spec s (s' + i)), (Nat.ltb_spec (s' + i) (s + length v));
      cbn [andb]; try reflexivity; lia.
Qed.

Lemma length_map2 {A B C} (f : A -> B -> C) l1 l2 :
  length (map2 f l1 l2) = Nat.min (length l1) (length l2).
Proof.
  revert l2; induction l1 as [|a l1 IH]; intros [|b l2]; cbn; auto.
Qed.

Lemma nth_map2 {A B C} (f : A -> B -> C) l1 l2 i da db dc :
  i < length l1 -> i < length l2 ->
  nth i (map2 f l1 l2) dc = f (nth i l1 da) (nth i l2 db).
Proof.
  revert l2 i; induction l1 as [|a l1 IH]; intros [|b l2] [|i] H1 H2;
    cbn in *; try lia; auto. apply IH; lia.
Qed.

Lemma map2_tab {A B C} (f : A -> B -> C) n g h :
  map2 f (tab n g) (tab n h) = tab n (fun i => f (g i) (h i)).
Proof.
  unfold tab. generalize (seq 0 n) as l.
  induction l as [|a l IH]; cbn; [reflexivity | now rewrite IH].
Qed.

Lemma cell_bound T N K t e :
  t < T -> e < N -> (t * N + e) * K + K <= T * (N * K).
Proof.
  intros Ht He. assert (H : t * N + e + 1 <= T * N) by nia.
  apply (Nat.mul_le_mono_r _ _ K) in H. lia.
Qed.

Lemma row_bound T K t : t < T -> t * K + K <= T * K.
Proof. intros Ht. nia. Qed.

Lemma Forall2_impl_in {A B} (P Q : A -> B -> Prop) l1 l2 :
  (forall a b, In a l1 -> P a b -> Q a b) -> Forall2 P l1 l2 -> Forall2 Q l1 l2.
Proof.
  intros H Hf. induction Hf as [|a b l1 l2 Hab Hf IH]; constructor.
  - apply H; [now left | exact Hab].
  - apply IH. intros a' b' Hin. apply H. now right.
Qed.

Lemma concat_repeat_singleton {A} (c : A) n : concat (repeat [c] n) = repeat c n.
Proof. induction n as [|n IH]; cbn; [reflexivity | now rewrite IH]. Qed.

Lemma concat_repeat_repeat {A} (c : A) m n :
  concat (repeat (repeat c m) n) = repeat c (n * m).
Proof.
  induction n as [|n IH]; cbn; [reflexivity|].
  now rewrite IH, repeat_app.
Qed.

(** Exchanging two nested traversals reorders the elements. *)
Lemma flat_map_nil_const {A B} (l : list A) : flat_map (fun _ => @nil B) l = [].
Proof. induction l; cbn; auto. Qed.

Lemma Permutation_flat_map_app {A B} (f h : A -> list B) l :
  Permutation (flat_map (fun a => f a ++ h a) l) (flat_map f l ++ flat_map h l).
Proof.
  induction l as [|a l IH]; cbn; [constructor|].
  rewrite IH, <- !app_assoc. apply Permutation_app_head.
  rewrite !app_assoc. apply Permutation_app_tail. apply Permutation_app_comm.
Qed.

Lemma Permutation_flat_map_swap {A B C} (g : A -> B -> list C) la lb :
  Permutation (flat_map (fun a => flat_map (fun b => g a b) lb) la)
              (flat_map (fun b => flat_map (fun a => g a b) la) lb).
Proof.
  induction la as [|a la IH]; cbn.
  - now rewrite flat_map_nil_const.
  - rewrite Permutation_flat_map_app. now apply Permutation_app_head.
Qed.

Lemma flat_map_seq_shift {A} (g : nat -> list A) a n :
  flat_map (fun i => g (a + i)) (seq 0 n) = flat_map g (seq a n).
Proof.
  revert a. induction n as [|n IH]; intros a; [reflexivity|].
  rewrite !seq_S, !flat_map_app, IH. cbn. now rewrite !app_nil_r.
Qed.

Lemma length_concat_repeat {A} (l : list A) n :
  length (concat (repeat l n)) = n * length l.
Proof. induction n as [|n IH]; cbn; [reflexivity|]. rewrite length_app, IH. lia. Qed.

End ListFacts.
Import ListFacts.

(* ------------------------------------------------------------------ *)
(** ** Facts about dicts *)

Module DictFacts.

Lemma keys_mutate {V} k (v : V) d : keys (dict_mutate k v d) = keys d.
Proof.
  induction d as [|[k' v'] d IH]; cbn; [reflexivity|].
  destruct (String.eqb k k'); cbn; [reflexivity | now f_equal].
Qed.

Lemma get_mutate_ne {V} k k' (v : V) d :
  k <> k' -> dict_get k (dict_mutate k' v d) = dict_get k d.
Proof.
  intros Hne. induction d as [|[k0 v0] d IH]; cbn; [reflexivity|].
  destruct (String.eqb_spec k' k0) as [->|Hk]; cbn.
  - destruct (String.eqb_spec k k0); [contradiction | reflexivity].
  - now rewrite IH.
Qed.

Lemma get_mutate_eq {V} k (v x : V) d :
  dict_get k d = Some x -> dict_get k (dict_mutate k v d) = Some v.
Proof.
  induction d as [|[k0 v0] d IH]; cbn; [discriminate|].
  destruct (String.eqb_spec k k0) as [->|Hk]; cbn.
  - now rewrite String.eqb_refl.
  - intros H. destruct (String.eqb_spec k k0); [contradiction | auto].
Qed.

Lemma get_set_eq {V} k (v : V) d : dict_get k (dict_set k v d) = Some v.
Proof.
  induction d as [|[k0 v0] d IH]; cbn.
  - now rewrite String.eqb_refl.
  - destruct (String.eqb_spec k k0) as [->|Hk]; cbn.
    + now rewrite String.eqb_refl.
    + destruct (String.eqb_spec k k0); [contradiction | auto].
Qed.

Lemma get_set_ne {V} k k' (v : V) d :
  k <> k' -> dict_get k (dict_set k' v d) = dict_get k d.
Proof.
  intros Hne. induction d as [|[k0 v0] d IH]; cbn.
  - destruct (String.eqb_spec k k'); [contradiction | reflexivity].
  - destruct (String.eqb_spec k' k0) as [->|Hk]; cbn.
    + destruct (String.eqb_spec k k0); [contradiction | reflexivity].
    + now rewrite IH.
Qed.

Lemma get_in {V} k (x : V) d : dict_get k d = Some x -> In (k, x) d.
Proof.
  induction d as [|[k0 v0] d IH]; cbn; [discriminate|].
  destruct (String.eqb_spec k k0) as [->|Hk].
  - intros [= ->]. now left.
  - intros H. right. auto.
Qed.

Lemma get_some_of_key {V} k (d : dict V) :
  In k (keys d) -> exists x, dict_get k d = Some x.
Proof.
  induction d as [|[k0 v0] d IH]; cbn; [contradiction|].
  destruct (String.eqb_spec k k0) as [->|Hk].
  - intros _. now exists v0.
  - intros [E|H]; [congruence | auto].
Qed.

Lemma get_none_of_key {V} k (d : dict V) :
  ~ In k (keys d) -> dict_get k d = None.
Proof.
  induction d as [|[k0 v0] d IH]; cbn; [reflexivity|].
  intros H. destruct (String.eqb_spec k k0) as [->|Hk].
  - exfalso. apply H. now left.
  - apply IH. intros Hin. apply H. now right.
Qed.

Lemma in_get_nodup {V} k (x : V) d :
  NoDup (keys d) -> In (k, x) d -> dict_get k d = Some x.
Proof.
  induction d as [|[k0 v0] d IH]; cbn; [contradiction|].
  intros Hnd [E|Hin]; inversion Hnd as [|? ? Hni Hnd']; subst.
  - injection E as -> ->. now rewrite String.eqb_refl.
  - destruct (String.eqb_spec k k0) as [->|Hk].
    + exfalso. apply Hni. change k0 with (fst (k0, x)). now apply in_map.
    + auto.
Qed.

End DictFacts.
Import DictFacts.

(* ------------------------------------------------------------------ *)
(** ** Properties valid for every float carrier *)

Section Theory.

Context {F : Type} {ops : FloatOps F}.

Notation "x <- c1 ;; c2" := (bind c1 (fun x => c2))
  (at level 61, c1 at next level, right associativity).
Notation "c1 ;; c2" := (bind c1 (fun _ => c2))
  (at level 61, right associativity).
Local Abbreviation buffer := (@ExperienceBuffer F).

(** *** Frame reasoning *)

Section Frame.

Variable R : buffer -> buffer -> Prop.
Hypothesis R_refl : forall s, R s s.
Hypothesis R_trans : forall s1 s2 s3, R s1 s2 -> R s2 s3 -> R s1 s3.

Lemma preserves_bind {A B} (m : M A) (k : A -> M B) :
  preserves R m -> (forall a, preserves R (k a)) -> preserves R (bind m k).
Proof.
  intros Hm Hk s. unfold bind. specialize (Hm s).
  destruct (m s) as [a s'|e s']; cbn in *; [|assumption].
  eapply R_trans; [exact Hm | apply Hk].
Qed.

Lemma preserves_ret {A} (a : A) : preserves R (ret a).
Proof. intros s. apply R_refl. Qed.

Lemma preserves_raise {A} e : preserves R (@raise F A e).
Proof. intros s. apply R_refl. Qed.

Lemma preserves_get : preserves R get.
Proof. intros s. apply R_refl. Qed.

Lemma preserves_lift {A} (r : result A) : preserves R (lift r).
Proof. destruct r; [apply preserves_ret | apply preserves_raise]. Qed.

Lemma preserves_lookup k d : preserves R (lookup k d).
Proof.
  unfold lookup. destruct (dict_get k d); [apply preserves_ret | apply preserves_raise].
Qed.

Lemma preserves_storage k : preserves R (storage k).
Proof.
  unfold storage. apply preserves_bind; [apply preserves_get|].
  intros s. apply preserves_lookup.
Qed.

Lemma preserves_modify f : (forall s, R s (f s)) -> preserves R (modify f).
Proof. intros H s. apply H. Qed.

End Frame.

Ltac frame_step :=
  match goal with
  | |- preserves _ (bind _ _) => apply preserves_bind; [assumption | | intros]
  | |- preserves _ (ret _) => apply preserves_ret; assumption
  | |- preserves _ (raise _) => apply preserves_raise; assumption
  | |- preserves _ get => apply preserves_get; assumption
  | |- preserves _ (lift _) => apply preserves_lift; assumption
  | |- preserves _ (lookup _ _) => apply preserves_lookup; assumption
  | |- preserves _ (storage _) => apply preserves_storage; assumption
  | |- preserves _ (if ?c then _ else _) => destruct c
  | |- preserves _ (match ?x with _ => _ end) => destruct x
  end.

(** Attributes after an attribute update. *)
Lemma data_dict_set_data_dict d (s : buffer) : data_dict (set_data_dict d s) = d.
Proof. reflexivity. Qed.
Lemma data_dict_set_storage_dict d (s : buffer) :
  data_dict (set_storage_dict d s) = data_dict s.
Proof. reflexivity. Qed.
Lemma data_dict_set_last_range r (s : buffer) :
  data_dict (set_last_range r s) = data_dict s.
Proof. reflexivity. Qed.
Lemma storage_dict_set_data_dict d (s : buffer) :
  storage_dict (set_data_dict d s) = storage_dict s.
Proof. reflexivity. Qed.
Lemma storage_dict_set_storage_dict d (s : buffer) :
  storage_dict (set_storage_dict d s) = d.
Proof. reflexivity. Qed.
Lemma storage_dict_set_last_range r (s : buffer) :
  storage_dict (set_last_range r s) = storage_dict s.
Proof. reflexivity. Qed.
Lemma last_range_set_data_dict d (s : buffer) :
  last_range (set_data_dict d s) = last_range s.
Proof. reflexivity. Qed.
Lemma last_range_set_storage_dict d (s : buffer) :
  last_range (set_storage_dict d s) = last_range s.
Proof. reflexivity. Qed.
Lemma last_range_set_last_range r (s : buffer) : last_range (set_last_range r s) = r.
Proof. reflexivity. Qed.
Lemma horizon_attr_set_storage_dict d (s : buffer) :
  transitions_per_env (set_storage_dict d s) = transitions_per_env s.
Proof. reflexivity. Qed.
Lemma minibatch_size_set_last_range r (s : buffer) :
  minibatch_size (set_last_range r s) = minibatch_size s.
Proof. reflexivity. Qed.
Lemma set_data_dict_twice d d' (s : buffer) :
  set_data_dict d (set_data_dict d' s) = set_data_dict d s.
Proof. reflexivity. Qed.
Lemma set_storage_dict_twice d d' (s : buffer) :
  set_storage_dict d (set_storage_dict d' s) = set_storage_dict d s.
Proof. reflexivity. Qed.

Create Rewrite HintDb attrs.
Hint Rewrite data_dict_set_data_dict data_dict_set_storage_dict data_dict_set_last_range
     storage_dict_set_data_dict storage_dict_set_storage_dict storage_dict_set_last_range
     last_range_set_data_dict last_range_set_storage_dict last_range_set_last_range
     horizon_attr_set_storage_dict minibatch_size_set_last_range
     set_data_dict_twice set_storage_dict_twice : attrs.

Lemma run_bind {A B} (m : M A) (k : A -> M B) (s s' : buffer) a :
  m s = Return a s' -> bind m k s = k a s'.
Proof. intros H. unfold bind. now rewrite H. Qed.

Lemma run_bind_raise {A B} (m : M A) (k : A -> M B) (s s' : buffer) e :
  m s = Raise e s' -> bind m k s = Raise e s'.
Proof. intros H. unfold bind. now rewrite H. Qed.

(** Run the monadic plumbing of a method as far as it goes. *)
Ltac mstep :=
  repeat progress
    (cbn [bind get modify lift ret raise data_item storage lookup
          option_map rbind final_state fst snd];
     autorewrite with attrs).

Lemma data_item_run k (s : buffer) dd v :
  data_dict s = Some dd -> dict_get k dd = Some v -> data_item k s = Return v s.
Proof. intros H1 H2. unfold data_item, bind, get, lookup. now rewrite H1, H2. Qed.

Lemma storage_run k (s : buffer) v :
  dict_get k (storage_dict s) = Some v -> storage k s = Return v s.
Proof. intros H. unfold storage, bind, get, lookup. now rewrite H. Qed.

Ltac mrun E := erewrite run_bind by exact E; mstep.

(** Expose the array operation under a tensor operation. *)
Ltac tstep :=
  cbn [tadd tsub tmul tdiv arith to_float to_byte scalar shape data tmean tstd
       tshape tlen is_float].

Ltac go := repeat progress (mstep; tstep).
Ltac mdata G :=
  erewrite run_bind
    by (eapply data_item_run; [autorewrite with attrs; reflexivity | exact G]);
  mstep.
Ltac mstorage G :=
  erewrite run_bind by (eapply storage_run; autorewrite with attrs; exact G);
  mstep.

(** *** What [computer_return] may touch *)

Lemma only_returns_differ_refl (s : buffer) : only_returns_differ s s.
Proof. destruct s; repeat split. Qed.

Lemma only_returns_differ_trans (s1 s2 s3 : buffer) :
  only_returns_differ s1 s2 -> only_returns_differ s2 s3 -> only_returns_differ s1 s3.
Proof.
  intros (E1 & K1 & G1) (E2 & K2 & G2). repeat split.
  - rewrite E2 at 1. rewrite E1. destruct s1; reflexivity.
  - congruence.
  - intros k Hk. rewrite G2, G1 by assumption. reflexivity.
Qed.

Lemma storage_assign_row_returns t rhs :
  preserves only_returns_differ (storage_assign_row "returns" t rhs).
Proof.
  pose proof only_returns_differ_refl as Hr.
  pose proof only_returns_differ_trans as Ht.
  unfold storage_assign_row. repeat frame_step.
  apply preserves_modify. intros s. split; [|split].
  - destruct s; reflexivity.
  - cbn. apply keys_mutate.
  - intros k Hk. cbn. now apply get_mutate_ne.
Qed.

Lemma computer_return_step_frame lv gamma tau t last mb :
  preserves only_returns_differ (computer_return_step lv gamma tau t last mb).
Proof.
  pose proof only_returns_differ_refl as Hr.
  pose proof only_returns_differ_trans as Ht.
  unfold computer_return_step.
  repeat first [apply storage_assign_row_returns | frame_step].
Qed.

Lemma computer_return_loop_frame lv gamma tau ts :
  forall last mb,
    preserves only_returns_differ (computer_return_loop lv gamma tau ts last mb).
Proof.
  pose proof only_returns_differ_refl as Hr.
  pose proof only_returns_differ_trans as Ht.
  induction ts as [|t ts IH]; intros last mb; cbn [computer_return_loop].
  - frame_step.
  - apply preserves_bind; auto. apply computer_return_step_frame.
Qed.

Lemma computer_return_only_returns lv gamma tau :
  preserves only_returns_differ (computer_return lv gamma tau).
Proof.
  pose proof only_returns_differ_refl as Hr.
  pose proof only_returns_differ_trans as Ht.
  unfold computer_return. repeat frame_step. apply computer_return_loop_frame.
Qed.

(** C10.  [computer_return] changes no stored field but ["returns"]:
    whatever the state, the bootstrap values and the discount
    parameters, and whether the call returns or raises, every other
    entry of [storage_dict] is as before and [storage_dict] has the
    same keys, so the per-step advantages [mb_advs] are not kept under
    any key; [last_range] and the scalar attributes are as before, and
    a training view, if there is one, keeps its keys. *)
Theorem computer_return_frame (s : buffer) (last_values : tensor) (gamma tau : F) :
  let s' := final_state (computer_return last_values gamma tau s) in
  keys (storage_dict s') = keys (storage_dict s)
  /\ (forall k, k <> "returns"%string ->
           dict_get k (storage_dict s') = dict_get k (storage_dict s))
  /\ last_range s' = last_range s
  /\ num_envs s' = num_envs s /\ transitions_per_env s' = transitions_per_env s
  /\ batch_size s' = batch_size s /\ minibatch_size s' = minibatch_size s
  /\ __len__ s' = __len__ s
  /\ option_map keys (data_dict s') = option_map keys (data_dict s).
Proof.
  destruct (computer_return_only_returns last_values gamma tau s) as (E & K & G).
  cbn zeta. split; [exact K|]. split; [exact G|].
  rewrite E. repeat split.
Qed.

(** *** The constructor *)

Lemma extents_ok zs s :
  extents zs = Ok s -> s = map Z.to_nat zs /\ Forall (fun z => 0 <= z)%Z zs.
Proof.
  revert s. induction zs as [|z zs IH]; cbn; intros s H.
  - injection H as <-. auto.
  - unfold extent in H. destruct (Z.leb_spec 0 z) as [Hz|Hz]; cbn in H; [|discriminate].
    destruct (extents zs) as [s'|]; cbn in H; [|discriminate].
    injection H as <-. destruct (IH _ eq_refl) as [-> Hf]. auto.
Qed.

Lemma zeros_f32_ok zs x :
  zeros_f32 zs = Ok x ->
  x = TF (mkArr (map Z.to_nat zs) (repeat f0 (numel (map Z.to_nat zs))))
  /\ Forall (fun z => 0 <= z)%Z zs.
Proof.
  unfold zeros_f32. destruct (extents zs) as [s|] eqn:E; cbn; [|discriminate].
  intros [= <-]. destruct (extents_ok _ E) as [-> Hf]. auto.
Qed.

Lemma zeros_u8_ok zs (x : @tensor F) :
  zeros_u8 zs = Ok x ->
  x = TB (mkArr (map Z.to_nat zs) (repeat 0%Z (numel (map Z.to_nat zs))))
  /\ Forall (fun z => 0 <= z)%Z zs.
Proof.
  unfold zeros_u8. destruct (extents zs) as [s|] eqn:E; cbn; [|discriminate].
  intros [= <-]. destruct (extents_ok _ E) as [-> Hf]. auto.
Qed.

(** What a successful construction yields. *)
Lemma init_inversion N T bs mbs od ad pd pcd (s : buffer) :
  __init__ N T bs mbs od ad pd pcd = Ok s ->
  (0 <= T)%Z /\ (0 <= N)%Z /\ mbs <> 0%Z /\
  exists sd,
    s = mkBuf N T pd None od ad pd pcd sd bs mbs (bs / mbs)%Z None
    /\ keys sd = field_names
    /\ forallb (field_okb s) sd = true.
Proof.
  unfold __init__.
  repeat match goal with
         | |- context [rbind (zeros_f32 ?zs) _] =>
             let E := fresh "E" in
             destruct (zeros_f32 zs) eqn:E; cbn [rbind]; [|discriminate];
             apply zeros_f32_ok in E; destruct E as [-> ?]
         | |- context [rbind (zeros_u8 ?zs) _] =>
             let E := fresh "E" in
             destruct (zeros_u8 zs) eqn:E; cbn [rbind]; [|discriminate];
             apply zeros_u8_ok in E; destruct E as [-> ?]
         end.
  destruct (Z.eqb_spec mbs 0) as [|Hm]; [discriminate|].
  intros [= <-].
  match goal with H : Forall _ [T; N] |- _ =>
    inversion H as [|? ? HT H']; inversion H' as [|? ? HN _]; subst end.
  repeat split; try assumption.
  eexists; split; [reflexivity|]. split; [reflexivity|].
  unfold field_okb, tensor_okb, horizon, envs, trailing; cbn.
  rewrite !repeat_length, !Nat.eqb_refl. reflexivity.
Qed.

Lemma init_buffer_ok N T bs mbs od ad pd pcd (s : buffer) :
  __init__ N T bs mbs od ad pd pcd = Ok s -> buffer_okb s = true.
Proof.
  intros H. destruct (init_inversion _ _ _ _ _ _ _ _ H) as (HT & HN & _ & sd & E & K & Hf).
  unfold buffer_okb. rewrite E in Hf |- *. cbn [transitions_per_env num_envs storage_dict].
  rewrite K, Hf.
  destruct (Z.leb_spec 0 T); [|lia]. destruct (Z.leb_spec 0 N); [|lia].
  reflexivity.
Qed.

(** C3 (as amended).  A constructed buffer has
    [len = batch_size // minibatch_size]: the constructor does not check
    divisibility, so [len * minibatch_size] is [batch_size] rounded
    down to a multiple of [minibatch_size], and equals [batch_size]
    exactly when [minibatch_size] divides it. *)
Theorem len_times_minibatch_size N T bs mbs od ad pd pcd (s : buffer) :
  __init__ N T bs mbs od ad pd pcd = Ok s ->
  batch_size s = bs /\ minibatch_size s = mbs /\
  __len__ s = (bs / mbs)%Z /\
  (__len__ s * minibatch_size s = batch_size s - batch_size s mod minibatch_size s)%Z /\
  ((__len__ s * minibatch_size s = batch_size s)%Z <->
   (batch_size s mod minibatch_size s = 0)%Z).
Proof.
  intros H. destruct (init_inversion _ _ _ _ _ _ _ _ H) as (_ & _ & Hm & sd & -> & _).
  unfold __len__. cbn.
  pose proof (Z.div_mod bs mbs Hm) as D.
  repeat split; try reflexivity; lia.
Qed.

(** *** Indexing lemmas *)

Lemma numel_cons d s : numel (d :: s) = d * numel s.
Proof. reflexivity. Qed.

Lemma norm_index_nat n j : j < n -> norm_index n (Z.of_nat j) = Some j.
Proof.
  intros H. unfold norm_index.
  destruct (Z.leb_spec 0 (Z.of_nat j)); [|lia].
  destruct (Z.ltb_spec (Z.of_nat j) (Z.of_nat n)); [|lia].
  cbn. now rewrite Nat2Z.id.
Qed.

Lemma norm_index_neg n i :
  (- Z.of_nat n <= i < 0)%Z -> norm_index n i = norm_index n (i + Z.of_nat n).
Proof.
  intros H. unfold norm_index.
  destruct (Z.leb_spec 0 i); [lia|]. cbn [andb].
  destruct (Z.leb_spec (- Z.of_nat n) i); [|lia].
  destruct (Z.ltb_spec i 0); [|lia]. cbn [andb].
  destruct (Z.leb_spec 0 (i + Z.of_nat n)); [|lia].
  destruct (Z.ltb_spec (i + Z.of_nat n) (Z.of_nat n)); [|lia].
  reflexivity.
Qed.

Lemma norm_index_out n i :
  (i < - Z.of_nat n \/ Z.of_nat n <= i)%Z -> norm_index n i = None.
Proof.
  intros H. unfold norm_index.
  destruct (Z.leb_spec 0 i), (Z.ltb_spec i (Z.of_nat n)),
    (Z.leb_spec (- Z.of_nat n) i), (Z.ltb_spec i 0); cbn; try reflexivity; lia.
Qed.

Lemma norm_index_in n i :
  (- Z.of_nat n <= i < Z.of_nat n)%Z ->
  exists j, j < n /\ norm_index n i = Some j.
Proof.
  intros H. destruct (Z.ltb_spec i 0) as [Hneg|Hpos].
  - rewrite norm_index_neg by lia.
    exists (Z.to_nat (i + Z.of_nat n)). split; [lia|].
    rewrite <- (Z2Nat.id (i + Z.of_nat n)) at 1 by lia.
    apply norm_index_nat. lia.
  - exists (Z.to_nat i). split; [lia|].
    rewrite <- (Z2Nat.id i) at 1 by lia. apply norm_index_nat. lia.
Qed.

Lemma select_nat {A} (x : arr A) d rest j :
  shape x = d :: rest -> j < d ->
  select x (Z.of_nat j) = Ok (mkArr rest (chunk (data x) (j * numel rest) (numel rest))).
Proof. intros Hs Hj. unfold select. now rewrite Hs, norm_index_nat. Qed.

(** Selecting a row, then an entry of that row. *)
Lemma select_select {A} (x : arr A) T N rest t e :
  shape x = T :: N :: rest -> t < T -> e < N ->
  (r <-r select x (Z.of_nat t) ;; select r (Z.of_nat e))
  = Ok (mkArr rest (chunk (data x) ((t * N + e) * numel rest) (numel rest))).
Proof.
  intros Hs Ht He. rewrite (select_nat x Hs Ht). cbn [rbind].
  erewrite select_nat; [|reflexivity|exact He]. cbn [data].
  rewrite chunk_chunk by (rewrite numel_cons; nia).
  do 3 f_equal. rewrite numel_cons. nia.
Qed.

(** *** [transform_op] *)

Lemma transpose_reshape_select {A} (x : arr A) T N rest t e :
  shape x = T :: N :: rest -> length (data x) = numel (T :: N :: rest) ->
  t < T -> e < N ->
  exists y,
    (z <-r transpose01 x ;; reshape z (T * N :: rest)) = Ok y
    /\ shape y = T * N :: rest
    /\ length (data y) = numel (T * N :: rest)
    /\ select y (Z.of_nat (e * T + t))
       = (r <-r select x (Z.of_nat t) ;; select r (Z.of_nat e)).
Proof.
  intros Hs Hl Ht He. rewrite (select_select x Hs Ht He).
  unfold transpose01. rewrite Hs. cbn [rbind]. unfold reshape. cbn [shape data].
  rewrite !numel_cons in *.
  replace (T * N * numel rest =? N * (T * numel rest)) with true
    by (symmetry; apply Nat.eqb_eq; nia).
  set (K := numel rest) in *.
  set (inner := fun e => flat_map (fun t => chunk (data x) ((t * N + e) * K) K) (seq 0 T)).
  assert (Hin : forall e', e' < N -> length (inner e') = T * K).
  { intros e' He'. unfold inner. apply length_flat_map_const.
    intros j Hj. apply length_chunk. rewrite Hl. apply cell_bound; lia. }
  eexists. split; [reflexivity|]. cbn [shape data]. split; [reflexivity|]. split.
  - rewrite (@length_flat_map_const _ inner (T * K) N 0) by (intros; apply Hin; lia).
    rewrite ?numel_cons. fold K. lia.
  - erewrite select_nat; [|reflexivity|nia]. cbn [data]. fold K. do 2 f_equal.
    replace ((e * T + t) * K) with (e * (T * K) + t * K) by nia.
    rewrite <- (@chunk_chunk _ _ (e * (T * K)) (T * K) (t * K) K) by nia.
    rewrite (@chunk_flat_map _ inner (T * K) N 0 e) by (intros; try apply Hin; lia).
    cbn [Nat.add]. unfold inner.
    rewrite (@chunk_flat_map _ _ K T 0 t); [reflexivity | | lia].
    intros j Hj. apply length_chunk. rewrite Hl. apply cell_bound; lia.
Qed.

Lemma transform_op_shape (x : @tensor F) T N rest :
  tshape x = T :: N :: rest -> tlen x = numel (T :: N :: rest) ->
  exists y,
    transform_op x = Ok y
    /\ is_float y = is_float x
    /\ tshape y = T * N :: rest
    /\ tlen y = numel (T * N :: rest).
Proof.
  intros Hs Hl. unfold transform_op. rewrite Hs.
  unfold ttranspose01, treshape, lift_arr.
  destruct x as [a|a]; cbn [tshape tlen] in *;
    unfold transpose01, reshape; rewrite Hs; cbn [rbind shape data];
    rewrite !numel_cons;
    replace (T * N * numel rest =? N * (T * numel rest)) with true
      by (symmetry; apply Nat.eqb_eq; nia);
    cbn [rbind]; eexists; (split; [reflexivity|]); cbn [is_float tshape tlen shape data];
    (split; [reflexivity|]); (split; [reflexivity|]);
    rewrite (@length_flat_map_const _ _ (T * numel rest) N 0);
    try (rewrite ?numel_cons; nia);
    intros j Hj; apply length_flat_map_const; intros i Hi; apply length_chunk;
    rewrite Hl, !numel_cons; apply cell_bound; lia.
Qed.

(** The flattened index of transition [(t, e)] is [e * T + t], whatever
    the field. *)
Lemma transform_op_select (x y : @tensor F) T N rest t e :
  tshape x = T :: N :: rest -> tlen x = numel (T :: N :: rest) ->
  transform_op x = Ok y -> t < T -> e < N ->
  tselect y (Z.of_nat (e * T + t))
  = (r <-r tselect x (Z.of_nat t) ;; tselect r (Z.of_nat e)).
Proof.
  intros Hs Hl Hy Ht He. unfold transform_op in Hy. rewrite Hs in Hy.
  unfold ttranspose01, treshape, tselect, lift_arr in *.
  destruct x as [a|a]; cbn [tshape tlen] in *.
  - destruct (transpose_reshape_select a Hs Hl Ht He) as (y' & E & _ & _ & Hsel).
    destruct (transpose01 a) as [z|]; cbn [rbind] in *; [|discriminate].
    rewrite E in Hy. cbn [rbind] in Hy. injection Hy as <-.
    rewrite Hsel. destruct (select a (Z.of_nat t)); reflexivity.
  - destruct (transpose_reshape_select a Hs Hl Ht He) as (y' & E & _ & _ & Hsel).
    destruct (transpose01 a) as [z|]; cbn [rbind] in *; [|discriminate].
    rewrite E in Hy. cbn [rbind] in Hy. injection Hy as <-.
    rewrite Hsel. destruct (select a (Z.of_nat t)); reflexivity.
Qed.

(** *** Indexed assignment *)

Lemma copy_to_same {A} (src : arr A) : copy_to (shape src) src = Ok (data src).
Proof. unfold copy_to. now rewrite shape_eqb_refl. Qed.

Lemma copy_to_rejects {A} view (src : arr A) :
  assignable view (shape src) = false -> copy_to view src = Err RuntimeError.
Proof.
  unfold assignable, copy_to. intros H. apply orb_false_iff in H as [-> H].
  destruct (shape src); [discriminate|]. now rewrite H.
Qed.

Lemma copy_to_accepts {A} view (src : arr A) :
  assignable view (shape src) = true -> exists v, copy_to view src = Ok v.
Proof.
  unfold assignable, copy_to. intros H.
  destruct (shape_eqb view (shape src)); [eauto|]. cbn [orb] in H.
  destruct (shape src); [eauto|]. rewrite H. eauto.
Qed.

Lemma tshape_to_float (x : @tensor F) : shape (to_float x) = tshape x.
Proof. now destruct x. Qed.

Lemma tshape_to_byte (x : @tensor F) : shape (to_byte x) = tshape x.
Proof. now destruct x. Qed.

(** How [x[i, :] = v] ends, from the shapes alone. *)
Lemma tassign_row_cases (x v : @tensor F) T N trail i :
  tshape x = T :: N :: trail ->
  ((i < - Z.of_nat T \/ Z.of_nat T <= i)%Z -> tassign_row x i v = Err IndexError)
  /\ ((- Z.of_nat T <= i < Z.of_nat T)%Z -> assignable (N :: trail) (tshape v) = false ->
      tassign_row x i v = Err RuntimeError)
  /\ ((- Z.of_nat T <= i < Z.of_nat T)%Z -> assignable (N :: trail) (tshape v) = true ->
      exists x', tassign_row x i v = Ok x')
  /\ ((- Z.of_nat T <= i < 0)%Z ->
      tassign_row x i v = tassign_row x (i + Z.of_nat T) v).
Proof.
  intros Hs. unfold tassign_row, lift_assign.
  destruct x as [a|a]; cbn [tshape] in Hs; unfold assign_row, assign; rewrite Hs.
  all: repeat split.
  all: try (intros Hi; rewrite (norm_index_out _ Hi); reflexivity).
  all: try (intros Hi Hv; destruct (norm_index_in _ Hi) as (j & _ & ->)).
  all: try (intros Hi; rewrite (norm_index_neg _ Hi); reflexivity).
  - rewrite copy_to_rejects by now rewrite tshape_to_float. reflexivity.
  - destruct (@copy_to_accepts F (N :: trail) (to_float v)) as [w ->];
      [now rewrite tshape_to_float | cbn; eauto].
  - rewrite copy_to_rejects by now rewrite tshape_to_byte. reflexivity.
  - destruct (@copy_to_accepts Z (N :: trail) (to_byte v)) as [w ->];
      [now rewrite tshape_to_byte | cbn; eauto].
Qed.

Lemma storage_assign_row_run (s : buffer) name index v x x' :
  dict_get name (storage_dict s) = Some x ->
  tassign_row x index v = Ok x' ->
  storage_assign_row name index v s
  = Return tt (set_storage_dict (dict_mutate name x' (storage_dict s)) s).
Proof.
  intros H Ha. unfold storage_assign_row, storage, bind, get, lookup.
  rewrite H. cbn. rewrite Ha. reflexivity.
Qed.

Lemma update_data_unfold (s : buffer) name index v x :
  dict_get name (storage_dict s) = Some x ->
  update_data name index (VTensor v) s =
    match tassign_row x index v with
    | Ok x' => Return tt (set_storage_dict (dict_mutate name x' (storage_dict s)) s)
    | Err e => Raise e s
    end.
Proof.
  intros H. unfold update_data, storage_assign_row, storage, bind, get, lookup.
  rewrite H. cbn. destruct (tassign_row x index v); reflexivity.
Qed.

(** *** Broadcasting lemmas *)

Lemma broadcast_rev_same s : broadcast_rev s s = Some s.
Proof.
  induction s as [|a s IH]; cbn; [reflexivity|]. now rewrite IH, Nat.eqb_refl.
Qed.

Lemma broadcast_shapes_same s : broadcast_shapes s s = Some s.
Proof. unfold broadcast_shapes. rewrite broadcast_rev_same. cbn. now rewrite rev_involutive. Qed.

Lemma broadcast_shapes_nil_l s : broadcast_shapes [] s = Some s.
Proof. unfold broadcast_shapes. cbn. now rewrite rev_involutive. Qed.

Lemma broadcast_shapes_nil_r s : broadcast_shapes s [] = Some s.
Proof.
  unfold broadcast_shapes. cbn [rev].
  rewrite <- (rev_involutive s) at 2.
  destruct (rev s); reflexivity.
Qed.

Lemma flat_map_ext_seq {A} (g h : nat -> list A) a n :
  (forall i, a <= i < a + n -> g i = h i) ->
  flat_map g (seq a n) = flat_map h (seq a n).
Proof.
  intros E. rewrite !flat_map_concat_map. f_equal.
  apply map_ext_in. intros i Hi. apply in_seq in Hi. now apply E.
Qed.

Lemma expand_data_same {A} s (l : list A) :
  length l = numel s -> expand_data s s l = l.
Proof.
  revert l. induction s as [|d s IH]; intros l Hl; [reflexivity|].
  cbn [expand_data]. rewrite Nat.eqb_refl. rewrite numel_cons in Hl.
  rewrite (@flat_map_ext_seq _ _ (fun i => chunk l (i * numel s) (numel s))).
  - now apply flat_map_chunks_id.
  - intros i Hi. apply IH. apply length_chunk. rewrite Hl. apply row_bound. lia.
Qed.

Lemma pad_shape_same s : pad_shape (length s) s = s.
Proof. unfold pad_shape. now rewrite Nat.sub_diag. Qed.

Lemma expand_to_same {A} (x : arr A) :
  length (data x) = numel (shape x) -> expand_to (shape x) x = data x.
Proof. intros H. unfold expand_to. rewrite pad_shape_same. now apply expand_data_same. Qed.

Lemma numel_ones n : numel (repeat 1 n) = 1.
Proof. induction n as [|n IH]; cbn; [reflexivity|]. fold (numel (repeat 1 n)). lia. Qed.

Lemma expand_data_scalar {A} s (c : A) :
  expand_data s (repeat 1 (length s)) [c] = repeat c (numel s).
Proof.
  induction s as [|d s IH]; [reflexivity|].
  cbn [length repeat expand_data]. rewrite numel_cons.
  destruct (Nat.eqb_spec 1 d) as [<-|Hd].
  - cbn [seq flat_map]. rewrite numel_ones. cbn [Nat.mul chunk skipn firstn].
    rewrite IH, app_nil_r. f_equal. lia.
  - rewrite IH. apply concat_repeat_repeat.
Qed.

Lemma expand_to_scalar {A} s (c : A) :
  expand_to s (mkArr [] [c]) = repeat c (numel s).
Proof.
  unfold expand_to, pad_shape. cbn [shape data length].
  rewrite Nat.sub_0_r, app_nil_r. apply expand_data_scalar.
Qed.

Lemma map2_repeat_r {A B C} (f : A -> B -> C) l c :
  map2 f l (repeat c (length l)) = map (fun a => f a c) l.
Proof. induction l as [|a l IH]; cbn; [reflexivity | now rewrite IH]. Qed.

Lemma map2_repeat_l {A B C} (f : A -> B -> C) l c :
  map2 f (repeat c (length l)) l = map (f c) l.
Proof. induction l as [|a l IH]; cbn; [reflexivity | now rewrite IH]. Qed.

Lemma binop_same {A B C} (f : A -> B -> C) (x : arr A) (y : arr B) :
  shape y = shape x ->
  length (data x) = numel (shape x) -> length (data y) = numel (shape y) ->
  binop f x y = Ok (mkArr (shape x) (map2 f (data x) (data y))).
Proof.
  intros Hs Hx Hy. unfold binop. rewrite Hs, broadcast_shapes_same.
  rewrite expand_to_same by assumption.
  rewrite <- Hs, expand_to_same by assumption. reflexivity.
Qed.

Lemma binop_scalar_r {A B C} (f : A -> B -> C) (x : arr A) c :
  length (data x) = numel (shape x) ->
  binop f x (mkArr [] [c]) = Ok (mkArr (shape x) (map (fun a => f a c) (data x))).
Proof.
  intros Hx. unfold binop. cbn [shape]. rewrite broadcast_shapes_nil_r.
  rewrite expand_to_same, expand_to_scalar by assumption.
  now rewrite <- Hx, map2_repeat_r.
Qed.

Lemma binop_scalar_l {A B C} (f : A -> B -> C) c (y : arr B) :
  length (data y) = numel (shape y) ->
  binop f (mkArr [] [c]) y = Ok (mkArr (shape y) (map (f c) (data y))).
Proof.
  intros Hy. unfold binop. cbn [shape]. rewrite broadcast_shapes_nil_l.
  rewrite expand_to_same, expand_to_scalar by assumption.
  now rewrite <- Hy, map2_repeat_l.
Qed.

Lemma map_tab {A B} (f : A -> B) n g : map f (tab n g) = tab n (fun i => f (g i)).
Proof. unfold tab. apply map_map. Qed.

(** *** Facts carried by [buffer_okb] *)

Lemma tensor_okb_spec fl sh (x : @tensor F) :
  tensor_okb fl sh x = true <->
  is_float x = fl /\ tshape x = sh /\ tlen x = numel sh.
Proof.
  unfold tensor_okb. rewrite !andb_true_iff, Nat.eqb_eq, shape_eqb_eq.
  split.
  - intros [[H1 H2] H3]. apply eqb_prop in H1. auto.
  - intros (-> & H2 & H3). rewrite eqb_reflx. auto.
Qed.

Lemma buffer_ok_keys (s : buffer) :
  buffer_okb s = true -> keys (storage_dict s) = field_names.
Proof.
  unfold buffer_okb. rewrite !andb_true_iff. intros [[_ H] _]. now apply keys_eqb_eq.
Qed.

Lemma buffer_ok_field (s : buffer) k x :
  buffer_okb s = true -> dict_get k (storage_dict s) = Some x ->
  is_float x = negb (k =? "dones")%string
  /\ tshape x = horizon s :: envs s :: trailing s k
  /\ tlen x = numel (horizon s :: envs s :: trailing s k).
Proof.
  unfold buffer_okb. rewrite !andb_true_iff. intros [_ H] Hx.
  rewrite forallb_forall in H. specialize (H _ (get_in _ _ Hx)).
  now apply tensor_okb_spec in H.
Qed.

Lemma buffer_ok_has (s : buffer) k :
  buffer_okb s = true -> In k field_names ->
  exists x, dict_get k (storage_dict s) = Some x.
Proof.
  intros H Hk. apply get_some_of_key. now rewrite (buffer_ok_keys _ H).
Qed.

Lemma buffer_ok_dims (s : buffer) :
  buffer_okb s = true ->
  transitions_per_env s = Z.of_nat (horizon s) /\ num_envs s = Z.of_nat (envs s).
Proof.
  unfold buffer_okb, horizon, envs. rewrite !andb_true_iff, !Z.leb_le.
  intros [[[H1 H2] _] _]. split; now rewrite Z2Nat.id.
Qed.

Lemma field_names_nodup : NoDup field_names.
Proof.
  unfold field_names.
  repeat (constructor; [cbn; intros H; repeat (destruct H as [H|H]; [discriminate|]); exact H|]).
  constructor.
Qed.

Lemma forallb_mutate (P : string * @tensor F -> bool) k x' d :
  forallb P d = true -> P (k, x') = true -> forallb P (dict_mutate k x' d) = true.
Proof.
  intros Hd Hx. induction d as [|[k0 v0] d IH]; cbn in *; [reflexivity|].
  apply andb_true_iff in Hd as [H0 Hd].
  destruct (String.eqb_spec k k0) as [->|Hk]; cbn.
  - now rewrite Hx, Hd.
  - now rewrite H0, IH.
Qed.

(** Replacing a stored tensor by one of the same dtype and shape keeps
    the layout. *)
Lemma buffer_ok_mutate (s : buffer) k x x' :
  buffer_okb s = true -> dict_get k (storage_dict s) = Some x ->
  is_float x' = is_float x -> tshape x' = tshape x -> tlen x' = tlen x ->
  buffer_okb (set_storage_dict (dict_mutate k x' (storage_dict s)) s) = true.
Proof.
  intros H Hx Hf Hs Hl.
  destruct (buffer_ok_field _ _ H Hx) as (F1 & F2 & F3).
  unfold buffer_okb in *. rewrite !andb_true_iff in *.
  destruct H as [[[H1 H2] H3] H4].
  cbn [set_storage_dict storage_dict transitions_per_env num_envs].
  rewrite keys_mutate. repeat split; try assumption.
  change (field_okb (set_storage_dict (dict_mutate k x' (storage_dict s)) s))
    with (field_okb s).
  apply forallb_mutate; [exact H4|].
  unfold field_okb. cbn [fst snd]. apply tensor_okb_spec.
  repeat split; congruence.
Qed.

(** *** [prepare_training] *)

Lemma keys_set_new {V} k (v : V) d : ~ In k (keys d) -> keys (dict_set k v d) = keys d ++ [k].
Proof.
  induction d as [|[k0 v0] d IH]; cbn; [reflexivity|]. intros H.
  destruct (String.eqb_spec k k0) as [->|Hk]; [tauto|]. cbn. f_equal. apply IH. tauto.
Qed.

Lemma transform_items_ok items :
  forall acc (s : buffer),
    data_dict s = Some acc ->
    NoDup (keys acc ++ keys items) ->
    (forall k x, In (k, x) items -> exists y, transform_op x = Ok y) ->
    exists dd,
      transform_items items s = Return tt (set_data_dict (Some dd) s)
      /\ keys dd = keys acc ++ keys items
      /\ (forall k x, dict_get k items = Some x ->
                 exists y, transform_op x = Ok y /\ dict_get k dd = Some y)
      /\ (forall k, dict_get k items = None -> dict_get k dd = dict_get k acc).
Proof.
  induction items as [|[k0 x0] items IH]; intros acc s Hs Hnd Hall.
  - exists acc. cbn. rewrite app_nil_r. repeat split; try discriminate.
    destruct s; cbn in *; subst; reflexivity.
  - destruct (Hall k0 x0 (or_introl eq_refl)) as [y0 Hy0].
    cbn [transform_items]. unfold bind at 1. rewrite Hy0. cbn [lift ret].
    unfold bind at 1. cbn [modify]. rewrite Hs. cbn [option_map].
    cbn [keys map fst] in Hnd.
    assert (Hk0 : ~ In k0 (keys acc)).
    { intros Hin. apply NoDup_remove_2 in Hnd. apply Hnd. apply in_or_app. now left. }
    assert (Hk0' : ~ In k0 (keys items)).
    { intros Hin. apply NoDup_remove_2 in Hnd. apply Hnd. apply in_or_app. now right. }
    destruct (IH (dict_set k0 y0 acc) (set_data_dict (Some (dict_set k0 y0 acc)) s))
      as (dd & E & K & G1 & G2).
    + reflexivity.
    + rewrite keys_set_new by assumption. rewrite <- app_assoc. exact Hnd.
    + intros k x Hin. apply (Hall k x). now right.
    + exists dd. split; [exact E|]. split.
      { rewrite K, keys_set_new by assumption. now rewrite <- app_assoc. }
      split.
      * intros k x. cbn [dict_get].
        destruct (String.eqb_spec k k0) as [->|Hk].
        -- intros [= <-]. exists y0. split; [exact Hy0|].
           rewrite G2 by now apply get_none_of_key. apply get_set_eq.
        -- apply G1.
      * intros k. cbn [dict_get].
        destruct (String.eqb_spec k k0) as [->|Hk]; [discriminate|].
        intros Hn. rewrite (G2 _ Hn). now apply get_set_ne.
Qed.

Lemma is_float_TF (y : @tensor F) : is_float y = true -> exists a, y = TF a.
Proof. destruct y; [eauto | discriminate]. Qed.

Lemma numel_col n : numel [n; 1] = n.
Proof. cbn. lia. Qed.

(** On a buffer with the constructor's layout [prepare_training]
    returns; every field is flattened by [transform_op], and the
    advantages are the normalised differences of the flattened returns
    and values. *)
Lemma prepare_training_ok (s : buffer) :
  buffer_okb s = true ->
  exists dd rets vals,
    prepare_training s = Return dd (set_data_dict (Some dd) s)
    /\ keys dd = field_names ++ ["advantages"%string]
    /\ (forall k x, dict_get k (storage_dict s) = Some x ->
               exists y, transform_op x = Ok y /\ dict_get k dd = Some y)
    /\ dict_get "returns"%string dd = Some (TF rets)
    /\ dict_get "values"%string dd = Some (TF vals)
    /\ length (data rets) = horizon s * envs s
    /\ length (data vals) = horizon s * envs s
    /\ dict_get "advantages"%string dd
       = Some (TF (mkArr [horizon s * envs s]
                         (normalised (map2 fsub (data rets) (data vals))))).
Proof.
  intros Hok.
  pose proof (buffer_ok_keys _ Hok) as Hkeys.
  destruct (@transform_items_ok (storage_dict s) [] (set_data_dict (Some []) s))
    as (dd0 & E0 & K0 & G1 & G2).
  { reflexivity. }
  { cbn [keys map app]. fold (keys (storage_dict s)). rewrite Hkeys. apply field_names_nodup. }
  { intros k x Hin.
    assert (Hx : dict_get k (storage_dict s) = Some x).
    { apply in_get_nodup; [rewrite Hkeys; apply field_names_nodup | exact Hin]. }
    destruct (buffer_ok_field _ _ Hok Hx) as (_ & Hsh & Hl).
    destruct (transform_op_shape x Hsh Hl) as (y & Hy & _). eauto. }
  destruct (@buffer_ok_has s "returns"%string Hok) as [xr Hxr]; [cbn; tauto|].
  destruct (@buffer_ok_has s "values"%string Hok) as [xv Hxv]; [cbn; tauto|].
  destruct (buffer_ok_field _ _ Hok Hxr) as (Fr & Sr & Lr).
  destruct (buffer_ok_field _ _ Hok Hxv) as (Fv & Sv & Lv).
  destruct (transform_op_shape xr Sr Lr) as (yr & Hyr & Fyr & Syr & Lyr).
  destruct (transform_op_shape xv Sv Lv) as (yv & Hyv & Fyv & Syv & Lyv).
  destruct (G1 _ _ Hxr) as (yr' & Hyr' & Gr). rewrite Hyr in Hyr'. injection Hyr' as <-.
  destruct (G1 _ _ Hxv) as (yv' & Hyv' & Gv). rewrite Hyv in Hyv'. injection Hyv' as <-.
  rewrite Fr in Fyr. rewrite Fv in Fyv. cbn in Fyr, Fyv.
  destruct (is_float_TF _ Fyr) as [rets ->]. destruct (is_float_TF _ Fyv) as [vals ->].
  change (trailing s "returns"%string) with [1] in *.
  change (trailing s "values"%string) with [1] in *.
  cbn [tshape tlen] in Syr, Syv, Lyr, Lyv.
  set (B := horizon s * envs s) in *.
  rewrite numel_col in Lyr, Lyv.
  set (raw := map2 fsub (data rets) (data vals)).
  set (adv := TF (mkArr [B] (normalised raw))).
  exists (dict_set "advantages"%string adv dd0), rets, vals.
  assert (Hadv : ~ In "advantages"%string (keys dd0)).
  { rewrite K0. cbn [keys map app]. fold (keys (storage_dict s)). rewrite Hkeys.
    cbn. intros H. repeat (destruct H as [H|H]; [discriminate|]). exact H. }
  split.
  { unfold prepare_training. mstep. mrun E0.
    mdata Gr. mdata Gv. go.
    rewrite binop_same by (rewrite ?Syr, ?Syv, ?numel_col; congruence).
    go.
    rewrite binop_scalar_r
      by (cbn [shape data]; rewrite length_map2, Syr, numel_col; lia).
    go.
    rewrite binop_same by reflexivity.
    go. cbn [map2]. unfold tdiv. go.
    rewrite binop_scalar_r
      by (cbn [shape data]; rewrite length_map, length_map2, Syr, numel_col; lia).
    go. unfold tsqueeze1, lift_arr, squeeze1. cbn [shape data]. rewrite Syr. go.
    unfold normalised in adv. subst adv. fold raw. rewrite map_map. reflexivity. }
  split.
  { rewrite keys_set_new by assumption. rewrite K0. cbn [keys map app].
    fold (keys (storage_dict s)). now rewrite Hkeys. }
  assert (Hne : forall k x, dict_get k (storage_dict s) = Some x -> k <> "advantages"%string).
  { intros k x Hx ->. apply get_in in Hx. apply (in_map fst) in Hx. cbn in Hx.
    fold (keys (storage_dict s)) in Hx. rewrite Hkeys in Hx.
    cbn in Hx. repeat (destruct Hx as [Hx|Hx]; [discriminate|]). exact Hx. }
  split.
  { intros k x Hx. destruct (G1 _ _ Hx) as (y & Hy & Gy). exists y. split; [exact Hy|].
    rewrite get_set_ne by (eapply Hne; eauto). exact Gy. }
  split. { rewrite get_set_ne by discriminate. exact Gr. }
  split. { rewrite get_set_ne by discriminate. exact Gv. }
  split. { exact Lyr. }
  split. { exact Lyv. }
  apply get_set_eq.
Qed.

(** *** Writing a row and reading it back *)

Lemma assign_same {A} (x src : arr A) T rest t :
  shape x = T :: rest -> length (data x) = numel (T :: rest) ->
  shape src = rest -> length (data src) = numel rest -> t < T ->
  exists x',
    assign x (Z.of_nat t) src = Ok x'
    /\ shape x' = shape x
    /\ length (data x') = length (data x)
    /\ data x' = splice (data x) (t * numel rest) (data src)
    /\ select x' (Z.of_nat t) = Ok src.
Proof.
  intros Hs Hl Hss Hls Ht.
  assert (Hb : t * numel rest + length (data src) <= length (data x)).
  { rewrite Hl, Hls, numel_cons. apply row_bound. exact Ht. }
  exists (mkArr (shape x) (splice (data x) (t * numel rest) (data src))).
  split.
  { unfold assign. rewrite Hs, norm_index_nat by assumption.
    rewrite <- Hss at 1. rewrite copy_to_same. reflexivity. }
  cbn [shape data].
  split; [reflexivity|]. split; [now apply length_splice|]. split; [reflexivity|].
  unfold select. cbn [shape data]. rewrite Hs, norm_index_nat by assumption.
  rewrite <- Hls in Hb |- *. rewrite chunk_splice_same by exact Hb.
  destruct src; cbn in *; subst; reflexivity.
Qed.

Lemma tassign_row_same (x v : @tensor F) T N trail t :
  tshape x = T :: N :: trail -> tlen x = numel (T :: N :: trail) ->
  is_float v = is_float x -> tshape v = N :: trail -> tlen v = numel (N :: trail) ->
  t < T ->
  exists x',
    tassign_row x (Z.of_nat t) v = Ok x'
    /\ is_float x' = is_float x /\ tshape x' = tshape x /\ tlen x' = tlen x
    /\ tselect x' (Z.of_nat t) = Ok v.
Proof.
  intros Hs Hl Hf Hsv Hlv Ht. unfold tassign_row, lift_assign, tselect, lift_arr.
  destruct x as [a|a], v as [b|b]; try discriminate; cbn [tshape tlen to_float to_byte] in *;
    unfold assign_row; rewrite Hs;
    destruct (assign_same a b Hs Hl Hsv Hlv Ht) as (x' & -> & E1 & E2 & _ & E3);
    cbn [rbind]; eexists; (split; [reflexivity|]); cbn [is_float tshape tlen];
    rewrite E3; repeat split; try assumption; congruence.
Qed.

(** A write of the field's dtype and per-timestep shape, at a time index
    of the horizon, returns and keeps the constructor's layout. *)
Lemma update_data_keeps_layout (s : buffer) name x v t :
  buffer_okb s = true ->
  dict_get name (storage_dict s) = Some x ->
  is_float v = is_float x ->
  tshape v = envs s :: trailing s name ->
  tlen v = numel (envs s :: trailing s name) ->
  (0 <= t < transitions_per_env s)%Z ->
  exists s', update_data name t (VTensor v) s = Return tt s' /\ buffer_okb s' = true.
Proof.
  intros Hok Hx Hf Hsv Hlv Ht.
  destruct (buffer_ok_dims _ Hok) as [HT HN].
  destruct (buffer_ok_field _ _ Hok Hx) as (Fx & Sx & Lx).
  assert (Htn : Z.to_nat t < horizon s) by lia.
  destruct (tassign_row_same x v Sx Lx Hf Hsv Hlv Htn) as (x' & Ea & Fa & Sa & La & _).
  rewrite Z2Nat.id in Ea by lia.
  eexists. split.
  - rewrite (update_data_unfold s name t v Hx), Ea. reflexivity.
  - eapply buffer_ok_mutate; eauto.
Qed.

(** C2.  On a buffer with the constructor's layout, writing a value of
    the field's dtype and per-timestep shape at time [t] and then
    calling [prepare_training] both succeed; in the flattened view of
    that field the row at index [e * horizon + t] is row [e] of the
    written value, and for every field the row at index
    [e * horizon + t'] of its flattened view is the entry at time [t']
    and environment [e] of its stored tensor: one correspondence for
    all fields. *)
Theorem write_then_flattened_read (s : buffer) name x v t :
  buffer_okb s = true ->
  dict_get name (storage_dict s) = Some x ->
  is_float v = is_float x ->
  tshape v = envs s :: trailing s name ->
  tlen v = numel (envs s :: trailing s name) ->
  (0 <= t < transitions_per_env s)%Z ->
  exists s1 dd,
    update_data name t (VTensor v) s = Return tt s1
    /\ prepare_training s1 = Return dd (set_data_dict (Some dd) s1)
    /\ (exists y, dict_get name dd = Some y
                  /\ forall e, e < envs s ->
                        tselect y (Z.of_nat e * transitions_per_env s + t)
                        = tselect v (Z.of_nat e))
    /\ (forall k x1, dict_get k (storage_dict s1) = Some x1 ->
          exists y, dict_get k dd = Some y
                    /\ forall t' e, (0 <= t' < transitions_per_env s)%Z -> e < envs s ->
                          tselect y (Z.of_nat e * transitions_per_env s + t')
                          = (r <-r tselect x1 t' ;; tselect r (Z.of_nat e))).
Proof.
  intros Hok Hx Hf Hsv Hlv Ht.
  destruct (buffer_ok_dims _ Hok) as [HT HN].
  destruct (buffer_ok_field _ _ Hok Hx) as (Fx & Sx & Lx).
  assert (Htn : Z.to_nat t < horizon s) by lia.
  destruct (tassign_row_same x v Sx Lx Hf Hsv Hlv Htn) as (x' & Ea & Fa & Sa & La & Sel).
  rewrite Z2Nat.id in Ea, Sel by lia.
  set (s1 := set_storage_dict (dict_mutate name x' (storage_dict s)) s).
  assert (Hok1 : buffer_okb s1 = true) by (eapply buffer_ok_mutate; eauto).
  destruct (prepare_training_ok _ Hok1) as (dd & rets & vals & Ep & _ & G & _).
  assert (Hsel : forall k x1, dict_get k (storage_dict s1) = Some x1 ->
            exists y, dict_get k dd = Some y
              /\ forall t' e, (0 <= t' < transitions_per_env s)%Z -> e < envs s ->
                    tselect y (Z.of_nat e * transitions_per_env s + t')
                    = (r <-r tselect x1 t' ;; tselect r (Z.of_nat e))).
  { intros k x1 Hx1. destruct (G _ _ Hx1) as (y & Hy & Gy).
    exists y. split; [exact Gy|]. intros t' e Ht' He.
    destruct (buffer_ok_field _ _ Hok1 Hx1) as (_ & S1 & L1).
    change (horizon s1) with (horizon s) in *. change (envs s1) with (envs s) in *.
    assert (Ht'n : Z.to_nat t' < horizon s) by lia.
    pose proof (transform_op_select x1 S1 L1 Hy Ht'n He) as E.
    rewrite Z2Nat.id in E by lia. rewrite <- E. f_equal. lia. }
  exists s1, dd. split.
  { rewrite (update_data_unfold s name t v Hx), Ea. reflexivity. }
  split; [exact Ep|]. split; [|exact Hsel].
  assert (Hx1 : dict_get name (storage_dict s1) = Some x').
  { unfold s1. autorewrite with attrs. eapply get_mutate_eq; eauto. }
  destruct (Hsel _ _ Hx1) as (y & Gy & Hy). exists y. split; [exact Gy|].
  intros e He. rewrite (Hy t e Ht He), Sel. reflexivity.
Qed.

(** *** Minibatches *)

Lemma clamp_bound_nat n k : clamp_bound n (Z.of_nat k) = Nat.min n k.
Proof.
  unfold clamp_bound. destruct (Z.ltb_spec (Z.of_nat k) 0); [lia|]. lia.
Qed.

Lemma slice_rows {A} (x : arr A) n rest lo hi :
  shape x = n :: rest -> lo <= hi ->
  exists o,
    slice x (Z.of_nat lo) (Z.of_nat hi) = Ok o
    /\ shape o = (Nat.min n hi - Nat.min n lo) :: rest
    /\ forall j, lo + j < Nat.min n hi ->
            select o (Z.of_nat j) = select x (Z.of_nat (lo + j)).
Proof.
  intros Hs Hle. unfold slice, slice_bounds. rewrite Hs, !clamp_bound_nat.
  replace (Nat.max (Nat.min n lo) (Nat.min n hi)) with (Nat.min n hi) by lia.
  eexists. split; [reflexivity|]. cbn [shape]. split; [reflexivity|].
  intros j Hj. unfold select. cbn [shape data]. rewrite Hs.
  rewrite !norm_index_nat by lia. do 2 f_equal.
  rewrite chunk_chunk by nia. f_equal. lia.
Qed.

Lemma tslice_rows (x : @tensor F) lo hi :
  tshape x <> [] -> lo <= hi ->
  exists o, tslice x (Z.of_nat lo) (Z.of_nat hi) = Ok o /\ is_rows x lo hi o.
Proof.
  intros Hs Hle. destruct (tshape x) as [|n rest] eqn:E; [contradiction|].
  unfold tslice, is_rows, tselect, lift_arr.
  destruct x as [a|a]; cbn [tshape] in E;
    destruct (slice_rows a E Hle) as (o & -> & So & Ro); cbn [rbind];
    eexists; (split; [reflexivity|]); exists n, rest; cbn [tshape];
    (split; [exact E|]); (split; [exact So|]);
    intros j Hj; now rewrite Ro.
Qed.

Lemma slice_items_ok a b (s : buffer) items :
  forall acc,
    NoDup (keys items) ->
    (forall k x, In (k, x) items -> exists o, tslice x a b = Ok o) ->
    exists out,
      slice_items items a b acc s = Return out s
      /\ (forall k x, dict_get k items = Some x ->
                 exists o, tslice x a b = Ok o /\ dict_get k out = Some o)
      /\ (forall k, dict_get k items = None -> dict_get k out = dict_get k acc).
Proof.
  induction items as [|[k0 x0] items IH]; intros acc Hnd Hall.
  - exists acc. cbn. repeat split; discriminate.
  - destruct (Hall k0 x0 (or_introl eq_refl)) as [o0 Ho0].
    cbn [slice_items]. rewrite Ho0. mstep.
    cbn [keys map fst] in Hnd. inversion Hnd as [|? ? Hni Hnd']; subst.
    destruct (IH (dict_set k0 o0 acc) Hnd') as (out & E & G1 & G2).
    { intros k x Hin. apply (Hall k x). now right. }
    exists out. split; [exact E|]. split.
    + intros k x. cbn [dict_get].
      destruct (String.eqb_spec k k0) as [->|Hk].
      * intros [= <-]. exists o0. split; [exact Ho0|].
        rewrite G2 by now apply get_none_of_key. apply get_set_eq.
      * apply G1.
    + intros k. cbn [dict_get].
      destruct (String.eqb_spec k k0) as [->|Hk]; [discriminate|].
      intros Hn. rewrite (G2 _ Hn). now apply get_set_ne.
Qed.

Lemma lookup_all_ok (s : buffer) d ks :
  (forall k, In k ks -> exists v, dict_get k d = Some v) ->
  exists vs, lookup_all ks d s = Return vs s
             /\ Forall2 (fun k v => dict_get k d = Some v) ks vs.
Proof.
  induction ks as [|k ks IH]; intros H.
  - exists []. split; [reflexivity | constructor].
  - destruct (H k (or_introl eq_refl)) as [v Hv].
    destruct IH as (vs & E & Hf); [intros k' Hk'; apply H; now right|].
    exists (v :: vs). split; [|now constructor].
    cbn [lookup_all]. unfold lookup at 1. rewrite Hv. mstep. mrun E. reflexivity.
Qed.

(** The training view built by [prepare_training] on a buffer with the
    constructor's layout has distinct keys, among them the ten fields
    served by [__getitem__], and every entry has the flattened sample
    axis as its first axis. *)
Lemma prepare_training_view (s : buffer) :
  buffer_okb s = true ->
  exists dd,
    prepare_training s = Return dd (set_data_dict (Some dd) s)
    /\ NoDup (keys dd)
    /\ (forall k, In k minibatch_fields -> In k (keys dd))
    /\ (forall k x, dict_get k dd = Some x ->
               exists rest, tshape x = (horizon s * envs s) :: rest).
Proof.
  intros Hok.
  destruct (prepare_training_ok s Hok) as (dd & rets & vals & E & K & G & _ & _ & _ & _ & Ha).
  exists dd. split; [exact E|]. split; [|split].
  - rewrite K. cbn [field_names app].
    repeat (constructor; [cbn; intros H; repeat (destruct H as [H|H]; [discriminate|]); exact H|]).
    constructor.
  - intros k Hk. rewrite K. cbn in Hk |- *.
    repeat (destruct Hk as [<-|Hk]; [tauto|]). contradiction.
  - intros k x Hx.
    destruct (String.eqb_spec k "advantages") as [->|Hne].
    + rewrite Ha in Hx. injection Hx as <-. exists []. reflexivity.
    + assert (Hin : In k (keys (storage_dict s))).
      { pose proof (get_in _ _ Hx) as Hi. apply (in_map fst) in Hi. cbn [fst] in Hi.
        fold (keys dd) in Hi. rewrite K in Hi. apply in_app_or in Hi.
        rewrite (buffer_ok_keys _ Hok). destruct Hi as [Hi|[Hi|[]]]; [exact Hi | congruence]. }
      destruct (get_some_of_key k _ Hin) as [x0 Hx0].
      destruct (G _ _ Hx0) as (y & Hy & Gy). rewrite Gy in Hx. injection Hx as <-.
      destruct (buffer_ok_field _ _ Hok Hx0) as (_ & S0 & L0).
      destruct (transform_op_shape x0 S0 L0) as (y' & Hy' & _ & Sy & _).
      rewrite Hy in Hy'. injection Hy' as <-. eauto.
Qed.

(** C7.  Once a training view exists (every entry of which has a first
    axis), [__getitem__ i] for [0 <= i < len] and a positive minibatch
    size returns ten tensors, in the order values, neglogpacs,
    advantages, mus, sigmas, returns, actions, obses, priv_info,
    point_cloud_info; each holds the rows of its field whose flattened
    index lies in [[i * minibatch_size, (i + 1) * minibatch_size)], in
    order; and the call records these bounds in [last_range].  When
    [len] is [batch_size // minibatch_size] the upper bound does not
    exceed [batch_size]. *)
Theorem getitem_minibatch (s : buffer) dd i :
  data_dict s = Some dd ->
  NoDup (keys dd) ->
  (forall k, In k minibatch_fields -> In k (keys dd)) ->
  (forall k x, dict_get k dd = Some x -> tshape x <> []) ->
  (0 < minibatch_size s)%Z ->
  (0 <= i < __len__ s)%Z ->
  let start := (i * minibatch_size s)%Z in
  let stop := ((i + 1) * minibatch_size s)%Z in
  exists out,
    __getitem__ i s = Return out (set_last_range (Some (start, stop)) s)
    /\ Forall2 (fun k o => exists x, dict_get k dd = Some x
                                /\ is_rows x (Z.to_nat start) (Z.to_nat stop) o)
               minibatch_fields out
    /\ (len s = (batch_size s / minibatch_size s)%Z -> (stop <= batch_size s)%Z).
Proof.
  intros Hdd Hnd Hin Hrank Hm Hi start stop.
  assert (Hstart : (0 <= start)%Z) by (unfold start; nia).
  assert (Hle : Z.to_nat start <= Z.to_nat stop) by (unfold start, stop; nia).
  assert (Hsl : forall k x, dict_get k dd = Some x ->
            exists o, tslice x start stop = Ok o
                      /\ is_rows x (Z.to_nat start) (Z.to_nat stop) o).
  { intros k x Hx. destruct (tslice_rows x (Hrank _ _ Hx) Hle) as (o & Ho & Ro).
    rewrite !Z2Nat.id in Ho by (unfold start, stop in *; nia). eauto. }
  destruct (@slice_items_ok start stop (set_last_range (Some (start, stop)) s) dd [] Hnd)
    as (input_dict & E & G1 & _).
  { intros k x Hx. destruct (Hsl k x) as (o & Ho & _); [now apply in_get_nodup | eauto]. }
  destruct (@lookup_all_ok (set_last_range (Some (start, stop)) s) input_dict minibatch_fields)
    as (out & Eo & Hf).
  { intros k Hk. destruct (get_some_of_key k dd (Hin k Hk)) as [x Hx].
    destruct (G1 _ _ Hx) as (o & _ & Ho). eauto. }
  exists out. split; [|split].
  - unfold __getitem__. mstep. rewrite Hdd. fold start stop. mrun E. exact Eo.
  - revert Hf. apply Forall2_impl_in. intros k o Hk Ho.
    destruct (get_some_of_key k dd (Hin k Hk)) as [x Hx].
    destruct (G1 _ _ Hx) as (o' & Ho' & Go). rewrite Go in Ho. injection Ho as <-.
    destruct (Hsl _ _ Hx) as (o'' & Ho'' & Ro). rewrite Ho' in Ho''. injection Ho'' as <-.
    eauto.
  - unfold __len__ in Hi. intros Hlen. rewrite Hlen in Hi. unfold stop.
    pose proof (Z.mul_div_le (batch_size s) (minibatch_size s) Hm). nia.
Qed.

(** *** [last_range] and [update_mu_sigma] *)

Lemma same_last_range_refl (s : buffer) : same_last_range s s.
Proof. reflexivity. Qed.

Lemma same_last_range_trans (s1 s2 s3 : buffer) :
  same_last_range s1 s2 -> same_last_range s2 s3 -> same_last_range s1 s3.
Proof. unfold same_last_range. congruence. Qed.

Ltac frame_last_range :=
  pose proof same_last_range_refl as Hr;
  pose proof same_last_range_trans as Ht;
  repeat first [ frame_step
               | apply preserves_modify; intros ?; reflexivity ].

Lemma update_data_last_range name index val :
  preserves same_last_range (update_data name index val).
Proof.
  unfold update_data, storage_assign_row. destruct val as [v|[|? ?]]; frame_last_range.
Qed.

Lemma computer_return_last_range lv gamma tau :
  preserves same_last_range (computer_return lv gamma tau).
Proof.
  assert (Hstep : forall t last mb,
             preserves same_last_range (computer_return_step lv gamma tau t last mb)).
  { intros. unfold computer_return_step, storage_assign_row. frame_last_range. }
  assert (Hloop : forall ts last mb,
             preserves same_last_range (computer_return_loop lv gamma tau ts last mb)).
  { induction ts as [|t ts IH]; intros; cbn [computer_return_loop].
    - frame_last_range.
    - apply preserves_bind; [apply same_last_range_trans | apply Hstep | intros; apply IH]. }
  unfold computer_return. frame_last_range. apply Hloop.
Qed.

Lemma transform_items_last_range (items : dict (@tensor F)) :
  preserves same_last_range (transform_items items).
Proof.
  induction items as [|[k v] items IH]; cbn [transform_items]; frame_last_range.
  exact IH.
Qed.

Lemma prepare_training_last_range : preserves same_last_range prepare_training.
Proof.
  unfold prepare_training, data_item.
  pose proof transform_items_last_range.
  frame_last_range; auto.
Qed.

Lemma update_mu_sigma_last_range mu sigma :
  preserves same_last_range (update_mu_sigma mu sigma).
Proof. unfold update_mu_sigma, data_assign_slice. frame_last_range. Qed.

Lemma run_calls_last_range cs :
  forall s, forallb (fun c => negb (is_getitem c)) cs = true ->
       last_range (run_calls cs s) = last_range s.
Proof.
  induction cs as [|c cs IH]; intros s H; [reflexivity|].
  cbn [forallb] in H. apply andb_true_iff in H as [Hc H].
  cbn [run_calls fold_left]. fold (run_calls cs (run_call c s)).
  rewrite (IH _ H).
  destruct c; cbn [run_call]; try discriminate.
  - apply update_data_last_range.
  - apply computer_return_last_range.
  - apply prepare_training_last_range.
  - apply update_mu_sigma_last_range.
Qed.

Lemma slice_items_state a b (items : dict (@tensor F)) :
  forall acc, preserves eq (slice_items items a b acc).
Proof.
  induction items as [|[k v] items IH]; intros acc; cbn [slice_items].
  - intros s. reflexivity.
  - apply preserves_bind; [intros; congruence | apply preserves_lift; reflexivity | intros; apply IH].
Qed.

Lemma lookup_all_state ks (d : dict (@tensor F)) : preserves eq (lookup_all ks d).
Proof.
  assert (Ht : forall s1 s2 s3 : buffer, s1 = s2 -> s2 = s3 -> s1 = s3) by congruence.
  assert (Hr : forall s : buffer, s = s) by reflexivity.
  induction ks as [|k ks IH]; cbn [lookup_all]; repeat frame_step. exact IH.
Qed.

(** [__getitem__] records the bounds even when it then raises. *)
Lemma getitem_state idx (s : buffer) :
  final_state (__getitem__ idx s)
  = set_last_range (Some (idx * minibatch_size s, (idx + 1) * minibatch_size s)%Z) s.
Proof.
  unfold __getitem__. mstep. destruct (data_dict s) as [dd|]; [|reflexivity].
  unfold bind.
  pose proof (slice_items_state (idx * minibatch_size s) ((idx + 1) * minibatch_size s) dd []
                (set_last_range (Some (idx * minibatch_size s, (idx + 1) * minibatch_size s)%Z) s))
    as H1.
  destruct (slice_items dd _ _ [] _) as [input_dict s1|e s1]; cbn [final_state] in *;
    [|now subst].
  subst s1. pose proof (lookup_all_state minibatch_fields input_dict
                (set_last_range (Some (idx * minibatch_size s, (idx + 1) * minibatch_size s)%Z) s))
    as H2.
  destruct (lookup_all _ _ _); cbn [final_state] in *; now subst.
Qed.

Lemma chunk_splice_inside {A} (l v : list A) s s' k (d : A) :
  s + length v <= length l -> s <= s' -> s' + k <= s + length v ->
  chunk (splice l s v) s' k = chunk v (s' - s) k.
Proof.
  intros H H1 H2. apply (nth_ext _ _ d d).
  - rewrite !length_chunk; rewrite ?length_splice; lia.
  - intros i Hi. rewrite length_chunk in Hi by (rewrite length_splice; lia).
    rewrite !nth_chunk, nth_splice by lia.
    destruct (Nat.leb_spec s (s' + i)), (Nat.ltb_spec (s' + i) (s + length v));
      cbn [andb]; try lia. f_equal. lia.
Qed.

Lemma assign_slice_same {A} (x src : arr A) n rest lo hi (d : A) :
  shape x = n :: rest -> length (data x) = numel (n :: rest) ->
  lo <= hi -> hi <= n ->
  shape src = (hi - lo) :: rest -> length (data src) = numel ((hi - lo) :: rest) ->
  exists x',
    assign_slice x (Z.of_nat lo) (Z.of_nat hi) src = Ok x'
    /\ shape x' = shape x
    /\ length (data x') = length (data x)
    /\ forall j, j < n ->
            select x' (Z.of_nat j)
            = if (lo <=? j) && (j <? hi) then select src (Z.of_nat (j - lo))
              else select x (Z.of_nat j).
Proof.
  intros Hs Hl Hlo Hhi Hss Hls.
  set (K := numel rest) in *.
  assert (Hb : lo * K + length (data src) <= length (data x)).
  { rewrite Hl, Hls, !numel_cons. fold K. nia. }
  exists (mkArr (shape x) (splice (data x) (lo * K) (data src))).
  split.
  { unfold assign_slice, slice_bounds. rewrite Hs, !clamp_bound_nat.
    replace (Nat.min n lo) with lo by lia.
    replace (Nat.max lo (Nat.min n hi)) with hi by lia.
    rewrite <- Hss, copy_to_same. reflexivity. }
  cbn [shape data]. split; [reflexivity|]. split; [now apply length_splice|].
  intros j Hj. unfold select. cbn [shape data]. rewrite Hs, Hss.
  rewrite norm_index_nat by assumption. fold K.
  rewrite numel_cons in Hls. fold K in Hls.
  destruct (Nat.leb_spec lo j) as [H1|H1]; cbn [andb].
  - destruct (Nat.ltb_spec j hi) as [H2|H2].
    + rewrite norm_index_nat by lia. do 2 f_equal.
      rewrite (@chunk_splice_inside _ _ _ _ _ _ d) by nia. f_equal. nia.
    + do 2 f_equal. apply (@chunk_splice_other _ _ _ _ _ _ d); [lia | | right; nia].
      rewrite Hl, numel_cons. fold K. nia.
  - do 2 f_equal. apply (@chunk_splice_other _ _ _ _ _ _ d); [lia | | left; nia].
    rewrite Hl, numel_cons. fold K. nia.
Qed.

Lemma tassign_slice_same (x v : @tensor F) n rest lo hi :
  tshape x = n :: rest -> tlen x = numel (n :: rest) ->
  lo <= hi -> hi <= n ->
  is_float v = is_float x ->
  tshape v = (hi - lo) :: rest -> tlen v = numel ((hi - lo) :: rest) ->
  exists x',
    tassign_slice x (Z.of_nat lo) (Z.of_nat hi) v = Ok x'
    /\ rows_overwritten x v x' lo hi.
Proof.
  intros Hs Hl Hlo Hhi Hf Hsv Hlv.
  unfold tassign_slice, lift_assign, rows_overwritten, tselect, lift_arr.
  destruct x as [a|a], v as [b|b]; try discriminate;
    cbn [tshape tlen to_float to_byte is_float] in *.
  - destruct (assign_slice_same a b f0 Hs Hl Hlo Hhi Hsv Hlv) as (x' & -> & E1 & E2 & E3).
    cbn [rbind]. eexists. split; [reflexivity|]. cbn [is_float tshape tlen].
    repeat split; try assumption. rewrite Hs. cbn [hd]. intros j Hj. rewrite (E3 j Hj).
    destruct ((lo <=? j) && (j <? hi)); reflexivity.
  - destruct (assign_slice_same a b 0%Z Hs Hl Hlo Hhi Hsv Hlv) as (x' & -> & E1 & E2 & E3).
    cbn [rbind]. eexists. split; [reflexivity|]. cbn [is_float tshape tlen].
    repeat split; try assumption. rewrite Hs. cbn [hd]. intros j Hj. rewrite (E3 j Hj).
    destruct ((lo <=? j) && (j <? hi)); reflexivity.
Qed.

Lemma data_assign_slice_run (s : buffer) dd k x x' a b v :
  data_dict s = Some dd -> dict_get k dd = Some x -> tassign_slice x a b v = Ok x' ->
  data_assign_slice k a b v s = Return tt (set_data_dict (Some (dict_mutate k x' dd)) s).
Proof.
  intros Hd Hx Ha. unfold data_assign_slice. mstep. rewrite Hd.
  unfold lookup. rewrite Hx. mstep. rewrite Ha. mstep. reflexivity.
Qed.

(** C9 (as amended).  [last_range] is an attribute that only
    [__getitem__] assigns, and nothing ever clears it.  So
    [update_mu_sigma] raises [AttributeError], writing nothing, as long
    as [__getitem__] has never been called on the buffer since its
    construction (a later cycle inherits the range of the previous
    one).  After [__getitem__ i] has returned, with row-shaped [mu] and
    [sigma] of the minibatch size, it returns and overwrites in the
    training view the rows [i * minibatch_size .. (i+1) * minibatch_size - 1]
    of ["mus"] and ["sigmas"] with the rows of [mu] and [sigma], leaving
    every other row and every other entry of the view, and
    [last_range], as they were. *)
Theorem update_mu_sigma_active_range :
  (forall N T bs mbs od ad pd pcd (s0 : buffer) cs mu sigma,
      __init__ N T bs mbs od ad pd pcd = Ok s0 ->
      forallb (fun c => negb (is_getitem c)) cs = true ->
      update_mu_sigma mu sigma (run_calls cs s0)
      = Raise AttributeError (run_calls cs s0))
  /\
  (forall (s s1 : buffer) dd i out mus sigmas mu sigma n rest_mu rest_sigma,
      data_dict s = Some dd ->
      dict_get "mus"%string dd = Some mus ->
      dict_get "sigmas"%string dd = Some sigmas ->
      tshape mus = n :: rest_mu -> tlen mus = numel (n :: rest_mu) ->
      tshape sigmas = n :: rest_sigma -> tlen sigmas = numel (n :: rest_sigma) ->
      (0 <= i)%Z -> (0 < minibatch_size s)%Z ->
      ((i + 1) * minibatch_size s <= Z.of_nat n)%Z ->
      __getitem__ i s = Return out s1 ->
      is_float mu = is_float mus ->
      tshape mu = Z.to_nat (minibatch_size s) :: rest_mu ->
      tlen mu = numel (Z.to_nat (minibatch_size s) :: rest_mu) ->
      is_float sigma = is_float sigmas ->
      tshape sigma = Z.to_nat (minibatch_size s) :: rest_sigma ->
      tlen sigma = numel (Z.to_nat (minibatch_size s) :: rest_sigma) ->
      let lo := Z.to_nat (i * minibatch_size s) in
      let hi := Z.to_nat ((i + 1) * minibatch_size s) in
      exists mus' sigmas' dd' s2,
        update_mu_sigma mu sigma s1 = Return tt s2
        /\ data_dict s2 = Some dd'
        /\ last_range s2 = last_range s1
        /\ dict_get "mus"%string dd' = Some mus'
        /\ dict_get "sigmas"%string dd' = Some sigmas'
        /\ rows_overwritten mus mu mus' lo hi
        /\ rows_overwritten sigmas sigma sigmas' lo hi
        /\ keys dd' = keys dd
        /\ forall k, k <> "mus"%string -> k <> "sigmas"%string ->
                dict_get k dd' = dict_get k dd).
Proof.
  split.
  - intros N T bs mbs od ad pd pcd s0 cs mu sigma Hinit Hcs.
    destruct (init_inversion _ _ _ _ _ _ _ _ Hinit) as (_ & _ & _ & sd & E & _).
    pose proof (run_calls_last_range cs s0 Hcs) as Hl.
    rewrite E in Hl at 2. cbn [last_range] in Hl.
    unfold update_mu_sigma. mstep. rewrite Hl. reflexivity.
  - intros s s1 dd i out mus sigmas mu sigma n rest_mu rest_sigma
           Hdd Hmus Hsig Smus Lmus Ssig Lsig Hi Hm Hhi Hget Fmu Smu Lmu Fsi Ssi Lsi lo hi.
    pose proof (getitem_state i s) as Hs1. rewrite Hget in Hs1. cbn [final_state] in Hs1.
    subst s1.
    assert (Hlohi : lo <= hi) by (unfold lo, hi; nia).
    assert (Hhin : hi <= n) by (unfold hi; lia).
    assert (Hd : hi - lo = Z.to_nat (minibatch_size s)) by (unfold lo, hi; nia).
    rewrite <- Hd in Smu, Lmu, Ssi, Lsi.
    destruct (tassign_slice_same mus mu Smus Lmus Hlohi Hhin Fmu Smu Lmu)
      as (mus' & Emus & Rmus).
    destruct (tassign_slice_same sigmas sigma Ssig Lsig Hlohi Hhin Fsi Ssi Lsi)
      as (sigmas' & Esig & Rsig).
    unfold lo in Emus, Esig at 1. unfold hi in Emus, Esig.
    rewrite !Z2Nat.id in Emus, Esig by nia.
    exists mus', sigmas', (dict_mutate "sigmas" sigmas' (dict_mutate "mus" mus' dd)).
    eexists. split.
    { unfold update_mu_sigma. mstep.
      erewrite run_bind.
      2:{ eapply data_assign_slice_run; [exact Hdd | exact Hmus | exact Emus]. }
      erewrite data_assign_slice_run;
        [ | autorewrite with attrs; reflexivity
          | rewrite get_mutate_ne by discriminate; exact Hsig
          | exact Esig ].
      autorewrite with attrs. reflexivity. }
    split; [reflexivity|]. split; [reflexivity|].
    split.
    { rewrite get_mutate_ne by discriminate. eapply get_mutate_eq; eauto. }
    split.
    { eapply get_mutate_eq. rewrite get_mutate_ne by discriminate. eauto. }
    split; [exact Rmus|]. split; [exact Rsig|]. split.
    { now rewrite !keys_mutate. }
    intros k H1 H2. now rewrite !get_mutate_ne.
Qed.

(** *** Arithmetic on rows in tabulated form *)

Lemma binop_tab_tt {A B C} (f : A -> B -> C) s n a b :
  numel s = n ->
  binop f (mkArr s (tab n a)) (mkArr s (tab n b))
  = Ok (mkArr s (tab n (fun i => f (a i) (b i)))).
Proof.
  intros Hn. rewrite binop_same by (cbn [shape data]; rewrite ?length_tab; congruence).
  cbn [shape data]. now rewrite map2_tab.
Qed.

Lemma binop_tab_st {A B C} (f : A -> B -> C) c s n b :
  numel s = n ->
  binop f (mkArr [] [c]) (mkArr s (tab n b)) = Ok (mkArr s (tab n (fun i => f c (b i)))).
Proof.
  intros Hn. rewrite binop_scalar_l by (cbn [shape data]; rewrite ?length_tab; congruence).
  cbn [shape data]. now rewrite map_tab.
Qed.

Lemma binop_tab_ts {A B C} (f : A -> B -> C) c s n a :
  numel s = n ->
  binop f (mkArr s (tab n a)) (mkArr [] [c]) = Ok (mkArr s (tab n (fun i => f (a i) c))).
Proof.
  intros Hn. rewrite binop_scalar_r by (cbn [shape data]; rewrite ?length_tab; congruence).
  cbn [shape data]. now rewrite map_tab.
Qed.

Lemma arith_float_l ff fb (a : arr F) (y : @tensor F) :
  arith ff fb (TF a) y = (r <-r binop ff a (to_float y) ;; Ok (TF r)).
Proof. destruct y; reflexivity. Qed.

Lemma arith_float_r ff fb (x : @tensor F) (b : arr F) :
  arith ff fb x (TF b) = (r <-r binop ff (to_float x) b ;; Ok (TF r)).
Proof. destruct x; reflexivity. Qed.

(** Row [t] of a tensor with two leading axes and [k] elements per
    cell, in tabulated form. *)
Lemma select_row_tab {A} (x : arr A) T N rest t (d : A) :
  shape x = T :: N :: rest -> length (data x) = numel (T :: N :: rest) -> t < T ->
  select x (Z.of_nat t)
  = Ok (mkArr (N :: rest)
              (tab (numel (N :: rest)) (fun i => nth (t * numel (N :: rest) + i) (data x) d))).
Proof.
  intros Hs Hl Ht. rewrite (select_nat x Hs Ht). do 2 f_equal.
  apply chunk_tab. rewrite Hl, (numel_cons T). apply row_bound. exact Ht.
Qed.

Lemma to_float_tab (x : @tensor F) n :
  tlen x = n -> to_float x = mkArr (tshape x) (tab n (felem x)).
Proof.
  intros Hn. unfold felem.
  assert (Hl : length (data (to_float x)) = n).
  { destruct x; cbn in *; rewrite ?length_map; exact Hn. }
  rewrite <- Hl, <- tab_of_list, <- tshape_to_float. now destruct (to_float x).
Qed.

Lemma felem_byte (a : arr Z) i :
  i < length (data a) -> felem (TB a) i = of_uint8 (nth i (data a) 0%Z).
Proof.
  intros Hi. unfold felem. cbn [to_float data].
  rewrite (nth_indep _ f0 (of_uint8 0%Z)) by now rewrite length_map.
  apply map_nth.
Qed.

Lemma select_col_tab {A} (x : arr A) T N t (d : A) :
  shape x = [T; N; 1] -> length (data x) = T * N -> t < T ->
  select x (Z.of_nat t) = Ok (mkArr [N; 1] (tab N (fun e => nth (t * N + e) (data x) d))).
Proof.
  intros Hs Hl Ht.
  rewrite (@select_row_tab _ x T N [1] t d Hs) by (rewrite Hl; cbn; lia) || exact Ht.
  rewrite numel_col. reflexivity.
Qed.

Lemma select_vec_tab {A} (x : arr A) T N t (d : A) :
  shape x = [T; N] -> length (data x) = T * N -> t < T ->
  select x (Z.of_nat t) = Ok (mkArr [N] (tab N (fun e => nth (t * N + e) (data x) d))).
Proof.
  intros Hs Hl Ht.
  rewrite (@select_row_tab _ x T N [] t d Hs) by (rewrite Hl; cbn; lia) || exact Ht.
  replace (numel [N]) with N by (cbn; lia). reflexivity.
Qed.

(** *** The backward pass of [computer_return] *)

Section GaeProof.

Variables (T N : nat) (rewards values : arr F) (dones : arr Z).
Variables (lv : @tensor F) (gamma tau : F).

Hypothesis rewards_shape : shape rewards = [T; N; 1].
Hypothesis rewards_len : length (data rewards) = T * N.
Hypothesis values_shape : shape values = [T; N; 1].
Hypothesis values_len : length (data values) = T * N.
Hypothesis dones_shape : shape dones = [T; N].
Hypothesis dones_len : length (data dones) = T * N.
Hypothesis lv_shape : tshape lv = [N; 1].
Hypothesis lv_len : tlen lv = N.

(** The stored quantities of environment [e]. *)
Let rew (e t : nat) : F := nth (t * N + e) (data rewards) f0.
Let val (e t : nat) : F := nth (t * N + e) (data values) f0.
Let don (e t : nat) : Z := nth (t * N + e) (data dones) 0%Z.
Let boot (e : nat) : F := felem lv e.

Let delta (e t : nat) : F := spec_delta T (rew e) (val e) (don e) (boot e) gamma t.
Let step_gae (g : nat -> F) (e t : nat) : F :=
  fadd (delta e t) (fmul (fmul (fmul gamma tau) (spec_nonterminal (don e) t)) (g e)).

Local Abbreviation pass_state := (pass_state T N rewards values dones).
Local Abbreviation holds_gae := (holds_gae N).

Lemma next_values_ok (st : buffer) Rc t :
  pass_state st Rc -> t < T ->
  exists nv,
    (if (Z.of_nat t =? transitions_per_env st - 1)%Z then ret lv
     else (v <- storage "values" ;; lift (tselect v (Z.of_nat t + 1)))) st
    = Return nv st
    /\ to_float nv
       = mkArr [N; 1] (tab N (fun e => spec_next_value T (val e) (boot e) t)).
Proof.
  intros (HR & HV & HD & HRc & HT & _) Ht. rewrite HT. unfold spec_next_value.
  destruct (Z.eqb_spec (Z.of_nat t) (Z.of_nat T - 1)) as [E|E].
  - exists lv. split; [reflexivity|].
    rewrite (to_float_tab lv lv_len), lv_shape. f_equal.
    apply tab_ext. intros e He. destruct (Nat.eqb_spec t (T - 1)); [reflexivity | lia].
  - eexists. split.
    + mstorage HV. unfold tselect, lift_arr.
      replace (Z.of_nat t + 1)%Z with (Z.of_nat (t + 1)) by lia.
      rewrite (select_col_tab values f0 values_shape values_len) by lia.
      mstep. reflexivity.
    + cbn [to_float]. f_equal. apply tab_ext. intros e He.
      destruct (Nat.eqb_spec t (T - 1)); [lia | reflexivity].
Qed.

Lemma binop_holds_gae (f : F -> F -> F) a last g :
  holds_gae last g ->
  binop f (mkArr [N; 1] (tab N a)) (to_float last)
  = Ok (mkArr [N; 1] (tab N (fun e => f (a e) (g e)))).
Proof.
  intros [[-> Hg]| ->]; cbn [to_float scalar].
  - rewrite binop_tab_ts by apply numel_col. do 2 f_equal.
    apply tab_ext. intros e He. now rewrite Hg.
  - now rewrite binop_tab_tt by apply numel_col.
Qed.

Lemma computer_return_step_ok (st : buffer) Rc M last g t :
  pass_state st Rc ->
  shape M = [T; N; 1] -> length (data M) = T * N ->
  holds_gae last g -> t < T ->
  exists Rc' M',
    computer_return_step lv gamma tau (Z.of_nat t) last (TF M) st
    = Return (TF (mkArr [N; 1] (tab N (fun e => step_gae g e t))), TF M')
             (set_storage_dict (dict_mutate "returns" (TF Rc') (storage_dict st)) st)
    /\ shape M' = [T; N; 1] /\ length (data M') = T * N
    /\ shape Rc' = [T; N; 1] /\ length (data Rc') = T * N
    /\ forall i, i < T * N ->
            nth i (data Rc') f0
            = if (t * N <=? i) && (i <? t * N + N)
              then fadd (step_gae g (i - t * N) t) (val (i - t * N) t)
              else nth i (data Rc) f0.
Proof.
  intros Hst HM HMl Hlast Ht.
  destruct (next_values_ok Hst Ht) as (nv & Env & Hnv).
  destruct Hst as (HR & HV & HD & HRc & HT & HRcs & HRcl).
  unfold computer_return_step. mstep. mrun Env.
  mstorage HD. unfold tselect at 1, lift_arr. cbn [to_float].
  erewrite (@select_vec_tab _ _ T N t f0);
    [ | cbn [shape]; exact dones_shape
      | cbn [data]; rewrite length_map; exact dones_len | exact Ht].
  go.
  rewrite binop_tab_st by (cbn; lia). go.
  unfold tunsqueeze1, lift_arr, unsqueeze1. go.
  mstorage HR. unfold tselect at 1, lift_arr.
  rewrite (select_col_tab rewards f0 rewards_shape rewards_len Ht). go.
  rewrite Hnv.
  rewrite !binop_tab_st by apply numel_col. go.
  unfold tmul at 1. go.
  rewrite binop_tab_tt by apply numel_col. go.
  rewrite binop_tab_tt by apply numel_col. go.
  mstorage HV. unfold tselect at 1, lift_arr.
  rewrite (select_col_tab values f0 values_shape values_len Ht). go.
  rewrite binop_tab_tt by apply numel_col. go.
  rewrite (binop_holds_gae fmul _ Hlast). go.
  rewrite binop_tab_tt by apply numel_col. go.
  set (gae := tab N _).
  assert (Hgae : gae = tab N (fun e => step_gae g e t)).
  { unfold gae. apply tab_ext. intros e He. unfold step_gae, delta, spec_delta.
    unfold spec_nonterminal, don, rew, val.
    rewrite (nth_indep (map of_uint8 (data dones)) f0 (of_uint8 0%Z))
      by (rewrite length_map; nia).
    rewrite map_nth. reflexivity. }
  rewrite Hgae. clear gae Hgae.
  set (col := mkArr [N; 1] (tab N (fun e => step_gae g e t))).
  assert (HMl' : length (data M) = numel [T; N; 1]) by (rewrite HMl; cbn; lia).
  destruct (@assign_same F M col T [N; 1] t HM HMl' eq_refl)
    as (M' & EM & SM' & LM' & DM' & SelM'); [cbn; rewrite length_tab; lia | exact Ht |].
  unfold tassign, lift_assign. cbn [to_float]. rewrite EM. go.
  unfold tselect at 1, lift_arr. rewrite SelM'. go.
  mstorage HV. unfold tselect at 1, lift_arr.
  rewrite (select_col_tab values f0 values_shape values_len Ht). go.
  unfold col at 1. rewrite binop_tab_tt by apply numel_col. go.
  set (rhs := mkArr [N; 1] (tab N _)).
  assert (HRcl' : length (data Rc) = numel [T; N; 1]) by (rewrite HRcl; cbn; lia).
  destruct (@assign_same F Rc rhs T [N; 1] t HRcs HRcl' eq_refl)
    as (Rc' & ER & SR' & LR' & DR' & _); [cbn; rewrite length_tab; lia | exact Ht |].
  erewrite run_bind.
  2:{ eapply storage_assign_row_run; [exact HRc|].
      unfold tassign_row, lift_assign, assign_row. rewrite HRcs. cbn [to_float].
      rewrite ER. reflexivity. }
  go. exists Rc', M'. split; [reflexivity|].
  split; [congruence|]. split; [congruence|]. split; [congruence|]. split; [congruence|].
  intros i Hi. rewrite DR', numel_col. unfold rhs. cbn [data].
  rewrite nth_splice by (rewrite length_tab; nia). rewrite length_tab.
  destruct ((t * N <=? i) && (i <? t * N + N)) eqn:Ei; [|reflexivity].
  apply andb_true_iff in Ei as [E1 E2]. apply Nat.leb_le in E1. apply Nat.ltb_lt in E2.
  rewrite nth_tab by lia. unfold val. reflexivity.
Qed.

(** [last_gae] of environment [e] once the pass has handled the steps
    [k, ..., T-1]. *)
Let gae_at (e k : nat) : F :=
  spec_last_gae_from T (rew e) (val e) (don e) (boot e) gamma tau (T - k) k.

Lemma gae_at_step e t : t < T -> step_gae (fun e => gae_at e (S t)) e t = gae_at e t.
Proof.
  intros Ht. unfold gae_at at 2. replace (T - t) with (S (T - S t)) by lia. reflexivity.
Qed.

Lemma rev_seq_S k : rev (seq 0 (S k)) = k :: rev (seq 0 k).
Proof. rewrite seq_S, rev_app_distr. reflexivity. Qed.

Lemma computer_return_loop_ok k :
  k <= T ->
  forall (st : buffer) Rc M last,
    pass_state st Rc ->
    shape M = [T; N; 1] -> length (data M) = T * N ->
    holds_gae last (fun e => gae_at e k) ->
    exists st' Rc',
      computer_return_loop lv gamma tau (map Z.of_nat (rev (seq 0 k))) last (TF M) st
      = Return tt st'
      /\ pass_state st' Rc'
      /\ forall t e, t < T -> e < N ->
                nth (t * N + e) (data Rc') f0
                = if t <? k then fadd (gae_at e t) (val e t)
                  else nth (t * N + e) (data Rc) f0.
Proof.
  induction k as [|k IH]; intros Hk st Rc M last Hst HM HMl Hlast.
  - exists st, Rc. split; [reflexivity|]. split; [exact Hst|]. reflexivity.
  - rewrite rev_seq_S. cbn [map computer_return_loop].
    assert (Hkt : k < T) by lia.
    destruct (@computer_return_step_ok st Rc M last _ k Hst HM HMl Hlast Hkt)
      as (Rc1 & M1 & E & SM1 & LM1 & SR1 & LR1 & Hnth).
    mrun E.
    destruct Hst as (HR & HV & HD & HRc & HT & HRcs & HRcl).
    set (st1 := set_storage_dict (dict_mutate "returns" (TF Rc1) (storage_dict st)) st) in *.
    assert (Hst1 : pass_state st1 Rc1).
    { unfold st1. repeat split; autorewrite with attrs; try assumption.
      - rewrite get_mutate_ne by discriminate. exact HR.
      - rewrite get_mutate_ne by discriminate. exact HV.
      - rewrite get_mutate_ne by discriminate. exact HD.
      - eapply get_mutate_eq. exact HRc. }
    destruct (IH (Nat.lt_le_incl _ _ Hkt) st1 Rc1 M1
                 (TF (mkArr [N; 1] (tab N (fun e => step_gae (fun e0 => gae_at e0 (S k)) e k))))
                 Hst1 SM1 LM1)
      as (st' & Rc' & E' & Hst' & Hnth').
    { right. do 2 f_equal. apply tab_ext. intros e He. now apply gae_at_step. }
    exists st', Rc'. split; [exact E'|]. split; [exact Hst'|].
    intros t e Ht He. rewrite (Hnth' t e Ht He).
    destruct (Nat.ltb_spec t k) as [H1|H1].
    + destruct (Nat.ltb_spec t (S k)); [reflexivity | lia].
    + rewrite Hnth by nia.
      destruct (Nat.eq_dec t k) as [->|Hne].
      * destruct (Nat.ltb_spec k (S k)); [|lia].
        destruct (Nat.leb_spec (k * N) (k * N + e)); [|lia].
        destruct (Nat.ltb_spec (k * N + e) (k * N + N)); [|lia].
        cbn [andb]. replace (k * N + e - k * N) with e by lia.
        now rewrite gae_at_step.
      * destruct (Nat.ltb_spec t (S k)); [lia|].
        destruct (Nat.leb_spec (k * N) (t * N + e)); [|reflexivity].
        destruct (Nat.ltb_spec (t * N + e) (k * N + N)); [nia | reflexivity].
Qed.

(** On well-shaped inputs [computer_return] returns, and entry
    [(t, e)] of ["returns"] is [last_gae + value] of the specified
    recursion for environment [e]. *)
Lemma computer_return_ok (st : buffer) Rc :
  pass_state st Rc ->
  exists st' Rc',
    computer_return lv gamma tau st = Return tt st'
    /\ pass_state st' Rc'
    /\ forall t e, t < T -> e < N ->
              nth (t * N + e) (data Rc') f0
              = spec_return T (rew e) (val e) (don e) (boot e) gamma tau t.
Proof.
  intros Hst. pose proof Hst as (HR & HV & HD & HRc & HT & HRcs & HRcl).
  destruct (@computer_return_loop_ok T (Nat.le_refl T) st Rc
              (mkArr (shape rewards) (repeat f0 (numel (shape rewards)))) (scalar f0) Hst)
    as (st' & Rc' & E & Hst' & Hnth).
  { cbn [shape]. exact rewards_shape. }
  { cbn [data]. rewrite repeat_length, rewards_shape. cbn. lia. }
  { left. split; [reflexivity|]. intros e. unfold gae_at. now rewrite Nat.sub_diag. }
  exists st', Rc'. split; [|split; [exact Hst'|]].
  - unfold computer_return. mstorage HR. cbn [zeros_like].
    unfold range. rewrite HT, Nat2Z.id, <- map_rev. exact E.
  - intros t e Ht He. rewrite (Hnth t e Ht He).
    destruct (Nat.ltb_spec t T); [reflexivity | lia].
Qed.

End GaeProof.

(** On a buffer with the constructor's layout and a bootstrap column,
    [computer_return] returns; it leaves the layout and every field
    but ["returns"] as they were, and fills ["returns"] with the
    specified recursion, one environment at a time. *)
Lemma computer_return_spec (s : buffer) (lv : tensor) (gamma tau : F) :
  buffer_okb s = true ->
  tshape lv = [envs s; 1] -> tlen lv = envs s ->
  exists s' rewards values dones returns,
    computer_return lv gamma tau s = Return tt s'
    /\ buffer_okb s' = true
    /\ (forall k, k <> "returns"%string ->
             dict_get k (storage_dict s') = dict_get k (storage_dict s))
    /\ dict_get "rewards"%string (storage_dict s) = Some rewards
    /\ dict_get "values"%string (storage_dict s) = Some values
    /\ dict_get "dones"%string (storage_dict s) = Some dones
    /\ dict_get "returns"%string (storage_dict s') = Some returns
    /\ forall t e, t < horizon s -> e < envs s ->
            felem returns (t * envs s + e)
            = spec_return (horizon s)
                          (fun t => felem rewards (t * envs s + e))
                          (fun t => felem values (t * envs s + e))
                          (fun t => belem dones (t * envs s + e))
                          (felem lv e) gamma tau t.
Proof.
  intros Hok Hlv Hlvl.
  destruct (@buffer_ok_has s "rewards"%string Hok) as [xr Hxr]; [cbn; tauto|].
  destruct (@buffer_ok_has s "values"%string Hok) as [xv Hxv]; [cbn; tauto|].
  destruct (@buffer_ok_has s "dones"%string Hok) as [xd Hxd]; [cbn; tauto|].
  destruct (@buffer_ok_has s "returns"%string Hok) as [xt Hxt]; [cbn; tauto|].
  destruct (buffer_ok_field _ _ Hok Hxr) as (Fr & Sr & Lr).
  destruct (buffer_ok_field _ _ Hok Hxv) as (Fv & Sv & Lv).
  destruct (buffer_ok_field _ _ Hok Hxd) as (Fd & Sd & Ld).
  destruct (buffer_ok_field _ _ Hok Hxt) as (Ft & St & Lt).
  destruct (buffer_ok_dims _ Hok) as [HT HN].
  change (trailing s "rewards"%string) with [1] in *.
  change (trailing s "values"%string) with [1] in *.
  change (trailing s "returns"%string) with [1] in *.
  change (trailing s "dones"%string) with (@nil nat) in *.
  cbn [negb String.eqb Ascii.eqb Bool.eqb] in Fr, Fv, Fd, Ft.
  destruct xr as [R|]; [|discriminate]. destruct xv as [V|]; [|discriminate].
  destruct xt as [Rc|]; [|discriminate]. destruct xd as [|D]; [discriminate|].
  cbn [tshape tlen] in *.
  set (T := horizon s) in *. set (N := envs s) in *.
  assert (Lr' : length (data R) = T * N) by (rewrite Lr; cbn; lia).
  assert (Lv' : length (data V) = T * N) by (rewrite Lv; cbn; lia).
  assert (Lt' : length (data Rc) = T * N) by (rewrite Lt; cbn; lia).
  assert (Ld' : length (data D) = T * N) by (rewrite Ld; cbn; lia).
  assert (Hst : pass_state T N R V D s Rc) by (repeat split; assumption).
  destruct (@computer_return_ok T N R V D lv gamma tau Sr Lr' Sv Lv' Sd Ld' Hlv Hlvl s Rc Hst)
    as (s' & Rc' & E & Hst' & Hnth).
  destruct Hst' as (HR' & HV' & HD' & HRc' & HT' & HRcs' & HRcl').
  pose proof (computer_return_only_returns lv gamma tau s) as Hfr.
  rewrite E in Hfr. cbn [final_state] in Hfr. destruct Hfr as (Es' & Ks' & Gs').
  exists s', (TF R), (TF V), (TB D), (TF Rc').
  split; [exact E|]. split; [|split; [exact Gs'|]].
  - rewrite Es'. rewrite <- (set_storage_dict_twice (storage_dict s') (storage_dict s) s).
    unfold buffer_okb in Hok |- *. rewrite !andb_true_iff in *.
    destruct Hok as [[[H1 H2] H3] H4].
    autorewrite with attrs. rewrite Ks'. repeat split; try assumption.
    change (field_okb (set_storage_dict (storage_dict s') s)) with (field_okb s).
    apply forallb_forall. intros [k x] Hin.
    assert (Hx : dict_get k (storage_dict s') = Some x).
    { apply in_get_nodup; [|exact Hin]. rewrite Ks'.
      apply keys_eqb_eq in H3. rewrite H3. apply field_names_nodup. }
    destruct (String.eqb_spec k "returns") as [->|Hk].
    + rewrite HRc' in Hx. injection Hx as <-.
      unfold field_okb. cbn [fst snd]. apply tensor_okb_spec.
      change (trailing s "returns"%string) with [1]. fold T N.
      cbn [is_float tshape tlen]. repeat split; [exact HRcs' | rewrite HRcl'; cbn; lia].
    + rewrite (Gs' _ Hk) in Hx. rewrite forallb_forall in H4.
      apply (H4 (k, x)). now apply get_in.
  - repeat (split; [assumption|]).
    intros t e Ht He. unfold felem at 1. cbn [to_float]. rewrite (Hnth t e Ht He).
    reflexivity.
Qed.

(** C1.  On a buffer with the constructor's layout and bootstrap values
    of shape [[num_envs, 1]], [computer_return] returns and entry
    [(t, e)] of ["returns"] is [last_gae + value[t]] of the backward
    recursion of the specification run on the stored rewards, values
    and dones of environment [e]: [last_gae] starts at zero, [t] runs
    from the last step down, [next_value] is the bootstrap value at the
    last step and the stored value of step [t+1] otherwise, and the
    done flag is that of step [t]. *)
Theorem computer_return_gae (s : buffer) (last_values : tensor) (gamma tau : F) :
  buffer_okb s = true ->
  tshape last_values = [envs s; 1] -> tlen last_values = envs s ->
  exists s' rewards values dones returns,
    computer_return last_values gamma tau s = Return tt s'
    /\ dict_get "rewards"%string (storage_dict s) = Some rewards
    /\ dict_get "values"%string (storage_dict s) = Some values
    /\ dict_get "dones"%string (storage_dict s) = Some dones
    /\ dict_get "returns"%string (storage_dict s') = Some returns
    /\ forall t e, t < horizon s -> e < envs s ->
            felem returns (t * envs s + e)
            = spec_return (horizon s)
                          (fun t => felem rewards (t * envs s + e))
                          (fun t => felem values (t * envs s + e))
                          (fun t => belem dones (t * envs s + e))
                          (felem last_values e) gamma tau t.
Proof.
  intros Hok Hlv Hlvl.
  destruct (@computer_return_spec s last_values gamma tau Hok Hlv Hlvl)
    as (s' & rewards & values & dones & returns & E & _ & _ & H).
  exists s', rewards, values, dones, returns. split; [exact E | exact H].
Qed.

(** *** Outcomes of the constructor and of [transform_op] *)

Lemma extents_err zs e :
  extents zs = Err e -> e = RuntimeError /\ Exists (fun z => z < 0)%Z zs.
Proof.
  induction zs as [|z zs IH]; cbn; [discriminate|].
  unfold extent. destruct (Z.leb_spec 0 z) as [Hz|Hz]; cbn.
  - destruct (extents zs) as [s'|e']; cbn; [discriminate|].
    intros [= <-]. destruct (IH eq_refl) as [-> Hx]. auto.
  - intros [= <-]. auto.
Qed.

Lemma zeros_f32_err zs e :
  zeros_f32 zs = Err e -> e = RuntimeError /\ Exists (fun z => z < 0)%Z zs.
Proof.
  unfold zeros_f32. destruct (extents zs) eqn:E; cbn; [discriminate|].
  intros [= <-]. now apply extents_err.
Qed.

Lemma zeros_u8_err zs e :
  @zeros_u8 F zs = Err e -> e = RuntimeError /\ Exists (fun z => z < 0)%Z zs.
Proof.
  unfold zeros_u8. destruct (extents zs) eqn:E; cbn; [discriminate|].
  intros [= <-]. now apply extents_err.
Qed.

(** How the construction ends, by the signs of the extents and the
    value of [minibatch_size]. *)
Lemma init_cases N T bs mbs od ad pd pcd :
  match @__init__ F ops N T bs mbs od ad pd pcd with
  | Ok s =>
      Forall (fun z => 0 <= z)%Z [T; N; od; pd; pcd; ad] /\ mbs <> 0%Z
      /\ buffer_okb s = true /\ data_dict s = None /\ last_range s = None
      /\ (forall k x, dict_get k (storage_dict s) = Some x -> x = zeros_like x)
  | Err e =>
      (e = RuntimeError /\ Exists (fun z => z < 0)%Z [T; N; od; pd; pcd; ad])
      \/ (e = ZeroDivisionError
          /\ Forall (fun z => 0 <= z)%Z [T; N; od; pd; pcd; ad] /\ mbs = 0%Z)
  end.
Proof.
  destruct (__init__ N T bs mbs od ad pd pcd) as [s|e] eqn:E.
  - pose proof (init_buffer_ok _ _ _ _ _ _ _ _ E) as Hok.
    unfold __init__ in E.
    repeat match type of E with
           | context [rbind (zeros_f32 ?zs) _] =>
               let E' := fresh "E" in
               destruct (zeros_f32 zs) eqn:E'; cbn [rbind] in E; [|discriminate];
               apply zeros_f32_ok in E'; destruct E' as [-> ?]
           | context [rbind (zeros_u8 ?zs) _] =>
               let E' := fresh "E" in
               destruct (zeros_u8 zs) eqn:E'; cbn [rbind] in E; [|discriminate];
               apply zeros_u8_ok in E'; destruct E' as [-> ?]
           end.
    destruct (Z.eqb_spec mbs 0) as [|Hm]; [discriminate|].
    injection E as <-.
    repeat match goal with
           | H : Forall _ (_ :: _) |- _ => inversion H; clear H; subst
           end.
    split; [repeat constructor; assumption|].
    split; [assumption|]. split; [assumption|].
    split; [reflexivity|]. split; [reflexivity|].
    intros k x. cbn [storage_dict dict_get].
    repeat match goal with
           | |- context [String.eqb k ?c] => destruct (String.eqb k c)
           end;
      intros [= <-]; cbn [zeros_like shape]; reflexivity.
  - unfold __init__ in E.
    repeat match type of E with
           | context [rbind (zeros_f32 ?zs) _] =>
               let E' := fresh "E" in
               destruct (zeros_f32 zs) eqn:E'; cbn [rbind] in E;
               [apply zeros_f32_ok in E'; destruct E' as [-> ?]
               |injection E as <-; apply zeros_f32_err in E'; destruct E' as [-> E'];
                left; split; [reflexivity|];
                repeat rewrite Exists_cons in *; rewrite Exists_nil in *; intuition lia]
           | context [rbind (zeros_u8 ?zs) _] =>
               let E' := fresh "E" in
               destruct (zeros_u8 zs) eqn:E'; cbn [rbind] in E;
               [apply zeros_u8_ok in E'; destruct E' as [-> ?]
               |injection E as <-; apply zeros_u8_err in E'; destruct E' as [-> E'];
                left; split; [reflexivity|];
                repeat rewrite Exists_cons in *; rewrite Exists_nil in *; intuition lia]
           end.
    destruct (Z.eqb_spec mbs 0) as [Hm|Hm]; [|discriminate].
    injection E as <-. right.
    repeat match goal with
           | H : Forall _ (_ :: _) |- _ => inversion H; clear H; subst
           end.
    split; [reflexivity|]. split; [repeat constructor; assumption | reflexivity].
Qed.

(** X1.  The constructor validates nothing itself.  A negative extent
    makes it fail with the tensor library's [RuntimeError], and with
    [minibatch_size = 0] it never yields a buffer; [batch_size] is
    never looked at.  Whenever it does return, no extent is negative,
    [minibatch_size] is not zero, and the buffer has the eleven fields
    in their layout, every element zero, no training view and no
    [last_range]. *)
Theorem init_outcome N T bs mbs od ad pd pcd :
  (forall s : buffer,
      __init__ N T bs mbs od ad pd pcd = Ok s ->
      Forall (fun z => 0 <= z)%Z [T; N; od; pd; pcd; ad] /\ mbs <> 0%Z
      /\ buffer_okb s = true /\ data_dict s = None /\ last_range s = None
      /\ (forall k x, dict_get k (storage_dict s) = Some x -> x = zeros_like x))
  /\ (Exists (fun z => z < 0)%Z [T; N; od; pd; pcd; ad] ->
      @__init__ F ops N T bs mbs od ad pd pcd = Err RuntimeError)
  /\ (mbs = 0%Z -> exists e, @__init__ F ops N T bs mbs od ad pd pcd = Err e).
Proof.
  pose proof (init_cases N T bs mbs od ad pd pcd) as H.
  destruct (__init__ N T bs mbs od ad pd pcd) as [s0|e].
  - split; [intros s [= <-]; exact H|].
    destruct H as (Hf & Hm & _). split.
    + intros Hx. exfalso. rewrite Forall_forall in Hf. rewrite Exists_exists in Hx.
      destruct Hx as (z & Hz & Hneg). specialize (Hf z Hz). lia.
    + intros Hz. contradiction.
  - split; [intros s; discriminate|]. split.
    + intros Hx. destruct H as [[-> _]|(_ & Hf & _)]; [reflexivity|].
      exfalso. rewrite Forall_forall in Hf. rewrite Exists_exists in Hx.
      destruct Hx as (z & Hz & Hneg). specialize (Hf z Hz). lia.
    + intros _. eauto.
Qed.

Lemma transpose01_permutes {A} (x : arr A) s0 s1 rest :
  shape x = s0 :: s1 :: rest -> length (data x) = numel (shape x) ->
  exists z, transpose01 x = Ok z /\ shape z = s1 :: s0 :: rest
            /\ Permutation (data x) (data z).
Proof.
  intros Hs Hl. unfold transpose01. rewrite Hs in *. eexists. split; [reflexivity|].
  split; [reflexivity|]. cbn [data]. set (k := numel rest).
  rewrite (Permutation_flat_map_swap
             (fun e t => chunk (data x) ((t * s1 + e) * k) k) (seq 0 s1) (seq 0 s0)).
  rewrite (@flat_map_ext_seq _ _ (fun t => chunk (data x) (t * (s1 * k)) (s1 * k))).
  - rewrite flat_map_chunks_id; [reflexivity|]. rewrite Hl, !numel_cons. reflexivity.
  - intros t Ht.
    rewrite (flat_map_seq_shift (fun i => chunk (data x) (i * k) k) (t * s1) s1).
    rewrite flat_map_chunks. f_equal. lia.
Qed.

(** X2.  [transform_op] succeeds exactly on tensors of rank two or more
    (a tensor of rank below two is an [IndexError]); the result keeps
    the dtype and has the first two extents multiplied into one. *)
Theorem transform_op_outcome (x : @tensor F) :
  match tshape x with
  | s0 :: s1 :: rest =>
      exists y, transform_op x = Ok y /\ tshape y = s0 * s1 :: rest
                /\ is_float y = is_float x
  | _ => transform_op x = Err IndexError
  end.
Proof.
  unfold transform_op. destruct (tshape x) as [|s0 [|s1 rest]] eqn:Hs; try reflexivity.
  unfold ttranspose01, treshape, lift_arr.
  destruct x as [a|a]; cbn [tshape] in Hs; unfold transpose01, reshape; rewrite Hs;
    cbn [rbind shape data]; rewrite !numel_cons;
    replace (s0 * s1 * numel rest =? s1 * (s0 * numel rest)) with true
      by (symmetry; apply Nat.eqb_eq; nia);
    cbn [rbind]; eexists; repeat split.
Qed.

Lemma transform_op_same_elements (x y : @tensor F) :
  tlen x = numel (tshape x) -> transform_op x = Ok y -> same_elements x y.
Proof.
  intros Hl Hy. unfold transform_op in Hy.
  destruct (tshape x) as [|s0 [|s1 rest]] eqn:Hs; try discriminate.
  unfold ttranspose01, treshape, lift_arr in Hy.
  destruct x as [a|a]; cbn [tshape tlen] in *.
  - rewrite <- Hs in Hl. destruct (transpose01_permutes a Hs Hl) as (z & E & _ & P).
    rewrite E in Hy. cbn [rbind] in Hy. unfold reshape in Hy.
    destruct (_ =? _); cbn [rbind] in Hy; [|discriminate]. injection Hy as <-. exact P.
  - rewrite <- Hs in Hl. destruct (transpose01_permutes a Hs Hl) as (z & E & _ & P).
    rewrite E in Hy. cbn [rbind] in Hy. unfold reshape in Hy.
    destruct (_ =? _); cbn [rbind] in Hy; [|discriminate]. injection Hy as <-. exact P.
Qed.

(** X3.  Flattening loses nothing and duplicates nothing: the result of
    [transform_op] holds the elements of its argument, each as often,
    in a different order, and so as many of them. *)
Theorem transform_op_permutes (x y : @tensor F) :
  tlen x = numel (tshape x) -> transform_op x = Ok y ->
  same_elements x y /\ tlen y = tlen x.
Proof.
  intros Hl Hy. unfold transform_op in Hy.
  destruct (tshape x) as [|s0 [|s1 rest]] eqn:Hs; try discriminate.
  unfold ttranspose01, treshape, lift_arr, reshape in Hy. rewrite <- Hs in Hl.
  destruct x as [a|a]; cbn [tshape tlen] in *;
    destruct (transpose01_permutes a Hs Hl) as (z & E & _ & P);
    rewrite E in Hy; cbn [rbind] in Hy;
    destruct (_ =? _); cbn [rbind] in Hy; try discriminate;
    injection Hy as <-; cbn [same_elements tlen data];
    (split; [exact P | symmetry; now apply Permutation_length]).
Qed.

(** *** What a write through [update_data] touches *)

Lemma Forall2_rev_both {A B} (P : A -> B -> Prop) l1 l2 :
  Forall2 P l1 l2 -> Forall2 P (rev l1) (rev l2).
Proof.
  induction 1 as [|a b l1 l2 Hab H IH]; cbn; [constructor|].
  apply Forall2_app; [exact IH | repeat constructor; exact Hab].
Qed.

Lemma expandable_rev_spec rs :
  forall rd, expandable_rev rd rs = true ->
        length rs <= length rd
        /\ Forall2 (fun d p => p = d \/ p = 1) rd (rs ++ repeat 1 (length rd - length rs)).
Proof.
  induction rs as [|p rs IH]; intros rd H.
  - split; [cbn; lia|]. cbn [app length]. rewrite Nat.sub_0_r.
    clear H. induction rd; cbn; constructor; auto.
  - destruct rd as [|d rd]; [discriminate|]. cbn in H.
    apply andb_true_iff in H as [H1 H2]. destruct (IH _ H2) as [Hl Hf].
    split; [cbn; lia|]. cbn. constructor; [|exact Hf].
    apply orb_true_iff in H1 as [H1|H1]; apply Nat.eqb_eq in H1; auto.
Qed.

Lemma expandable_pad dst s :
  expandable dst s = true ->
  Forall2 (fun d p => p = d \/ p = 1) dst (pad_shape (length dst) s).
Proof.
  unfold expandable, pad_shape. intros H.
  destruct (expandable_rev_spec _ _ H) as [_ Hf].
  apply Forall2_rev_both in Hf.
  rewrite rev_app_distr, rev_repeat, !rev_involutive, !length_rev in Hf. exact Hf.
Qed.

Lemma numel_app s1 s2 : numel (s1 ++ s2) = numel s1 * numel s2.
Proof.
  induction s1 as [|a s1 IH]; cbn [app]; [unfold numel; cbn; lia|].
  rewrite !numel_cons, IH. lia.
Qed.

Lemma numel_pad n s : numel (pad_shape n s) = numel s.
Proof. unfold pad_shape. rewrite numel_app, numel_ones. lia. Qed.

Lemma numel_strip_ones s : numel (strip_ones s) = numel s.
Proof.
  induction s as [|a s IH]; [reflexivity|].
  destruct a as [|[|a]]; try reflexivity. cbn [strip_ones]. rewrite IH.
  rewrite numel_cons. lia.
Qed.

(** Expanding an array along its unit axes yields as many elements as
    the target shape has. *)
Lemma length_expand_data {A} dst src :
  Forall2 (fun d p => p = d \/ p = 1) dst src ->
  forall l : list A, length l = numel src -> length (expand_data dst src l) = numel dst.
Proof.
  induction 1 as [|d p dst src Hp H IH]; intros l Hl; [exact Hl|].
  cbn [expand_data]. rewrite !numel_cons in *.
  destruct (Nat.eqb_spec p d) as [->|Hne].
  - apply length_flat_map_const. intros j Hj. apply IH. apply length_chunk.
    rewrite Hl. apply row_bound. lia.
  - destruct Hp as [->| ->]; [contradiction|].
    rewrite length_concat_repeat, IH by lia. reflexivity.
Qed.

Lemma copy_to_length {A} view (src : arr A) v :
  length (data src) = numel (shape src) -> copy_to view src = Ok v ->
  length v = numel view.
Proof.
  unfold copy_to. intros Hl.
  destruct (shape_eqb view (shape src)) eqn:E.
  - apply shape_eqb_eq in E. intros [= <-]. congruence.
  - destruct (shape src) as [|p sh] eqn:Hs.
    + intros [= <-]. rewrite length_concat_repeat, Hl. cbn. lia.
    + destruct (expandable view (strip_ones (p :: sh))) eqn:Ex; [|discriminate].
      intros [= <-]. apply length_expand_data; [now apply expandable_pad|].
      change (length (data src) = numel (pad_shape (length view) (strip_ones (p :: sh)))).
      now rewrite numel_pad, numel_strip_ones.
Qed.

Lemma copy_to_err {A} view (src : arr A) e :
  copy_to view src = Err e -> e = RuntimeError.
Proof.
  unfold copy_to. destruct (shape_eqb _ _); [discriminate|].
  destruct (shape src); [discriminate|].
  destruct (expandable _ _); [discriminate|]. now intros [= <-].
Qed.

Lemma norm_index_some n i j :
  norm_index n i = Some j ->
  j < n /\ (Z.of_nat j = i \/ Z.of_nat j = (i + Z.of_nat n)%Z).
Proof.
  unfold norm_index.
  destruct (Z.leb_spec 0 i), (Z.ltb_spec i (Z.of_nat n)); cbn [andb];
    try (intros [= <-]; lia);
    destruct (Z.leb_spec (- Z.of_nat n) i), (Z.ltb_spec i 0); cbn [andb];
    try discriminate; intros [= <-]; lia.
Qed.

(** An accepted row assignment, whatever the broadcasting: the shape
    and the number of elements stay, and only the addressed row
    changes. *)
Lemma assign_frame {A} (x src x' : arr A) T rest i (d : A) :
  shape x = T :: rest -> length (data x) = numel (T :: rest) ->
  length (data src) = numel (shape src) ->
  assign x i src = Ok x' ->
  shape x' = shape x /\ length (data x') = length (data x)
  /\ exists j v, norm_index T i = Some j /\ copy_to rest src = Ok v
            /\ select x' (Z.of_nat j) = Ok (mkArr rest v)
            /\ forall t, t < T -> t <> j ->
                    select x' (Z.of_nat t) = select x (Z.of_nat t).
Proof.
  intros Hs Hl Hls. unfold assign. rewrite Hs.
  destruct (norm_index T i) as [j|] eqn:Hj; [|discriminate].
  destruct (copy_to rest src) as [v|] eqn:Hv; cbn [rbind]; [|discriminate].
  intros [= <-]. cbn [shape data].
  destruct (norm_index_some _ _ Hj) as [HjT _].
  pose proof (copy_to_length _ _ Hls Hv) as Lv.
  assert (Hb : j * numel rest + length v <= length (data x)).
  { rewrite Hl, Lv, numel_cons. now apply row_bound. }
  split; [reflexivity|]. split; [now apply length_splice|].
  exists j, v. split; [reflexivity|]. split; [reflexivity|]. split.
  - unfold select. cbn [shape data]. rewrite ?Hs, norm_index_nat by assumption.
    pose proof (@chunk_splice_same _ (data x) v (j * numel rest) Hb) as C.
    rewrite Lv in C. now rewrite C.
  - intros t Ht Hne. unfold select. cbn [shape data].
    rewrite ?Hs, norm_index_nat by assumption. do 2 f_equal.
    apply (@chunk_splice_other _ _ _ _ _ _ d); [exact Hb | |].
    + rewrite Hl, numel_cons. now apply row_bound.
    + rewrite Lv. nia.
Qed.

Lemma length_to_float (v : @tensor F) : length (data (to_float v)) = tlen v.
Proof. destruct v; cbn; [reflexivity | apply length_map]. Qed.

Lemma length_to_byte (v : @tensor F) : length (data (to_byte v)) = tlen v.
Proof. destruct v; cbn; [apply length_map | reflexivity]. Qed.

Lemma tassign_row_frame (x v x' : @tensor F) T N trail i :
  tshape x = T :: N :: trail -> tlen x = numel (T :: N :: trail) ->
  tlen v = numel (tshape v) ->
  tassign_row x i v = Ok x' ->
  is_float x' = is_float x /\ tshape x' = tshape x /\ tlen x' = tlen x
  /\ exists j, norm_index T i = Some j
          /\ forall t, t < T -> t <> j ->
                  tselect x' (Z.of_nat t) = tselect x (Z.of_nat t).
Proof.
  intros Hs Hl Hlv. unfold tassign_row, lift_assign, assign_row, tselect, lift_arr.
  destruct x as [a|a]; cbn [tshape tlen] in *; rewrite Hs.
  - destruct (assign a i (to_float v)) as [r|] eqn:E; cbn [rbind]; [|discriminate].
    intros [= <-].
    assert (Hwf : length (data (to_float v)) = numel (shape (to_float v)))
      by now rewrite length_to_float, tshape_to_float.
    destruct (@assign_frame _ a (to_float v) r T (N :: trail) i f0 Hs Hl Hwf E)
      as (S1 & L1 & j & w & Hj & _ & _ & Ho).
    cbn [is_float tshape tlen]. repeat split; try assumption; try congruence.
    exists j. split; [exact Hj|]. intros t Ht Hne. now rewrite Ho.
  - destruct (assign a i (to_byte v)) as [r|] eqn:E; cbn [rbind]; [|discriminate].
    intros [= <-].
    assert (Hwf : length (data (to_byte v)) = numel (shape (to_byte v)))
      by now rewrite length_to_byte, tshape_to_byte.
    destruct (@assign_frame _ a (to_byte v) r T (N :: trail) i 0%Z Hs Hl Hwf E)
      as (S1 & L1 & j & w & Hj & _ & _ & Ho).
    cbn [is_float tshape tlen]. repeat split; try assumption; try congruence.
    exists j. split; [exact Hj|]. intros t Ht Hne. now rewrite Ho.
Qed.

Lemma select_norm {A} (x : arr A) T rest i j :
  shape x = T :: rest -> norm_index T i = Some j -> select x i = select x (Z.of_nat j).
Proof.
  intros Hs Hj. destruct (norm_index_some _ _ Hj) as [Hl _].
  unfold select. now rewrite Hs, Hj, norm_index_nat.
Qed.

(** The row read back at the index of an accepted row assignment is the
    value cast to the dtype of the target and expanded to the row. *)
Lemma tassign_row_written (x v : @tensor F) T N trail i :
  tshape x = T :: N :: trail -> tlen x = numel (T :: N :: trail) ->
  tlen v = numel (tshape v) ->
  (- Z.of_nat T <= i < Z.of_nat T)%Z ->
  assignable (N :: trail) (tshape v) = true ->
  exists x' row,
    tassign_row x i v = Ok x'
    /\ written_row x v (N :: trail) = Ok row
    /\ tselect x' i = Ok row
    /\ tshape row = N :: trail /\ is_float row = is_float x.
Proof.
  intros Hs Hl Hlv Hi Hv.
  destruct (tassign_row_cases x v i Hs) as (_ & _ & H3 & _).
  destruct (H3 Hi Hv) as [x' E]. clear H3. exists x'.
  unfold tassign_row, lift_assign, assign_row, written_row, tselect, lift_arr in *.
  destruct x as [a|a]; cbn [tshape tlen is_float] in *; rewrite Hs in E |- *.
  - destruct (assign a i (to_float v)) as [r|] eqn:Ea; cbn [rbind] in E; [|discriminate].
    injection E as <-.
    assert (Hwf : length (data (to_float v)) = numel (shape (to_float v)))
      by now rewrite length_to_float, tshape_to_float.
    destruct (@assign_frame _ a (to_float v) r T (N :: trail) i f0 Hs Hl Hwf Ea)
      as (S1 & _ & j & w & Hj & Hw & Hsel & _).
    rewrite Hw. cbn [rbind]. eexists. split; [reflexivity|]. split; [reflexivity|].
    rewrite (@select_norm _ r T (N :: trail) i j) by congruence.
    rewrite Hsel. cbn [rbind]. repeat split.
  - destruct (assign a i (to_byte v)) as [r|] eqn:Ea; cbn [rbind] in E; [|discriminate].
    injection E as <-.
    assert (Hwf : length (data (to_byte v)) = numel (shape (to_byte v)))
      by now rewrite length_to_byte, tshape_to_byte.
    destruct (@assign_frame _ a (to_byte v) r T (N :: trail) i 0%Z Hs Hl Hwf Ea)
      as (S1 & _ & j & w & Hj & Hw & Hsel & _).
    rewrite Hw. cbn [rbind]. eexists. split; [reflexivity|]. split; [reflexivity|].
    rewrite (@select_norm _ r T (N :: trail) i j) by congruence.
    rewrite Hsel. cbn [rbind]. repeat split.
Qed.

Lemma written_row_same (x v row : @tensor F) view :
  written_row x v view = Ok row ->
  tshape v = view -> is_float v = is_float x -> row = v.
Proof.
  unfold written_row. intros H Hs Hf.
  destruct x as [a|a], v as [[sh b]|[sh b]]; try discriminate;
    cbn [tshape to_float to_byte shape] in *; subst view;
    unfold copy_to in H; cbn [shape data] in H; rewrite shape_eqb_refl in H;
    cbn [rbind] in H; now injection H as <-.
Qed.

Lemma written_row_scalar (x row : @tensor F) (c : F) d view :
  written_row x (scalar c) (d :: view) = Ok row ->
  row = if is_float x
        then TF (mkArr (d :: view) (repeat c (numel (d :: view))))
        else TB (mkArr (d :: view) (repeat (to_uint8 c) (numel (d :: view)))).
Proof.
  unfold written_row, scalar, copy_to.
  destruct x as [a|a]; cbn [to_float to_byte shape data map shape_eqb list_eqb rbind is_float];
    rewrite concat_repeat_singleton; now intros [= <-].
Qed.

(** C8 (as amended).  [update_data] relies on the indexing of the
    tensor library and has no check of its own.  On a field of shape
    [[T; N] ++ trail] a tensor write with an index outside
    [-T <= index < T] raises and leaves the buffer as it was, and for
    an index that fits in 64 bits the exception is [IndexError].  With
    an index in that range, a value that has neither the shape
    [[N] ++ trail] nor a shape that broadcasts to it raises
    [RuntimeError], leaving the buffer as it was; any other value is
    accepted, and what is then read back at that index is the value
    cast to the dtype of the field and expanded to [[N] ++ trail]: the
    value itself when it has that shape and dtype, the same number in
    every element when it is a scalar.  A negative index
    [-T <= index < 0] stands for [index + T]. *)
Theorem update_data_rejects (s : buffer) name x T N trail index v :
  dict_get name (storage_dict s) = Some x ->
  tshape x = T :: N :: trail ->
  ((index < - Z.of_nat T \/ Z.of_nat T <= index)%Z ->
     (exists e, update_data name index (VTensor v) s = Raise e s)
     /\ ((- 2 ^ 63 <= index < 2 ^ 63)%Z ->
         update_data name index (VTensor v) s = Raise IndexError s))
  /\ ((- Z.of_nat T <= index < Z.of_nat T)%Z ->
      assignable (N :: trail) (tshape v) = false ->
      update_data name index (VTensor v) s = Raise RuntimeError s)
  /\ ((- Z.of_nat T <= index < Z.of_nat T)%Z ->
      assignable (N :: trail) (tshape v) = true ->
      tlen x = numel (tshape x) -> tlen v = numel (tshape v) ->
      exists s' x' row,
        update_data name index (VTensor v) s = Return tt s'
        /\ dict_get name (storage_dict s') = Some x'
        /\ tselect x' index = Ok row
        /\ written_row x v (N :: trail) = Ok row
        /\ tshape row = N :: trail /\ is_float row = is_float x
        /\ (tshape v = N :: trail -> is_float v = is_float x -> row = v)
        /\ (forall c, v = scalar c ->
              row = if is_float x
                    then TF (mkArr (N :: trail) (repeat c (numel (N :: trail))))
                    else TB (mkArr (N :: trail)
                               (repeat (to_uint8 c) (numel (N :: trail))))))
  /\ ((- Z.of_nat T <= index < 0)%Z ->
      update_data name index (VTensor v) s
      = update_data name (index + Z.of_nat T) (VTensor v) s).
Proof.
  intros Hx Hs.
  destruct (tassign_row_cases x v index Hs) as (H1 & H2 & _ & H4).
  rewrite !(update_data_unfold s name _ v Hx).
  split; [|split; [|split]].
  - intros Hi. rewrite (H1 Hi). eauto.
  - intros Hi Hv. now rewrite H2.
  - intros Hi Hv Hl Hlv. rewrite Hs in Hl.
    destruct (@tassign_row_written x v T N trail index Hs Hl Hlv Hi Hv)
      as (x' & row & E & Hw & Hsel & Hsr & Hfr).
    rewrite E. eexists _, x', row. split; [reflexivity|]. autorewrite with attrs.
    split; [eapply get_mutate_eq; eauto|].
    split; [exact Hsel|]. split; [exact Hw|]. split; [exact Hsr|]. split; [exact Hfr|].
    split.
    + intros Hsv Hf. eapply written_row_same; eauto.
    + intros c ->. now apply written_row_scalar.
  - intros Hi. now rewrite H4.
Qed.

(** X4.  On a buffer with the constructor's layout, a tensor write
    through [update_data], with any name, index and value (broadcast
    or not, index negative or not) and whether it returns or raises,
    keeps the layout, changes no field but the named one, does not
    touch [last_range], and within the named field leaves every time
    step other than the addressed one as it was. *)
Theorem update_data_frame (s : buffer) name index v :
  buffer_okb s = true ->
  tlen v = numel (tshape v) ->
  let s' := final_state (update_data name index (VTensor v) s) in
  buffer_okb s' = true
  /\ keys (storage_dict s') = keys (storage_dict s)
  /\ (forall k, k <> name -> dict_get k (storage_dict s') = dict_get k (storage_dict s))
  /\ last_range s' = last_range s
  /\ (forall x t, dict_get name (storage_dict s) = Some x ->
        t < horizon s ->
        Z.of_nat t <> index -> Z.of_nat t <> (index + transitions_per_env s)%Z ->
        exists x', dict_get name (storage_dict s') = Some x'
                   /\ tselect x' (Z.of_nat t) = tselect x (Z.of_nat t)).
Proof.
  intros Hok Hlv. cbn zeta.
  destruct (dict_get name (storage_dict s)) as [x|] eqn:Hx.
  - rewrite (update_data_unfold s name index v Hx).
    destruct (buffer_ok_field _ _ Hok Hx) as (Fx & Sx & Lx).
    destruct (buffer_ok_dims _ Hok) as [HT HN].
    destruct (tassign_row x index v) as [x'|e] eqn:Ea; cbn [final_state].
    + destruct (tassign_row_frame x v index Sx Lx Hlv Ea) as (F' & S' & L' & j & Hj & Ho).
      split; [eapply buffer_ok_mutate; eauto|]. autorewrite with attrs.
      split; [apply keys_mutate|].
      split; [intros k Hk; now apply get_mutate_ne|].
      split; [reflexivity|].
      intros x0 t [= <-] Ht H1 H2. exists x'. split; [eapply get_mutate_eq; eauto|].
      apply Ho; [exact Ht|]. destruct (norm_index_some _ _ Hj) as [_ Hij]. lia.
    + repeat split; auto. intros x0 t [= <-] Ht H1 H2. eauto.
  - unfold update_data, storage_assign_row, storage, bind, get, lookup. rewrite Hx.
    cbn [final_state raise]. repeat split; auto. intros x t [=].
Qed.

(** X5.  A scalar value is broadcast over the whole time step: written
    into a floating field at a time index of the horizon, it becomes
    the value of every element of that step. *)
Theorem update_data_scalar_fills (s : buffer) name x (c : F) t :
  buffer_okb s = true ->
  dict_get name (storage_dict s) = Some x ->
  is_float x = true ->
  (0 <= t < transitions_per_env s)%Z ->
  exists s' x',
    update_data name t (VTensor (scalar c)) s = Return tt s'
    /\ dict_get name (storage_dict s') = Some x'
    /\ tselect x' t
       = Ok (TF (mkArr (envs s :: trailing s name)
                       (repeat c (numel (envs s :: trailing s name))))).
Proof.
  intros Hok Hx Hf Ht.
  destruct (buffer_ok_field _ _ Hok Hx) as (_ & Sx & Lx).
  destruct (buffer_ok_dims _ Hok) as [HT HN].
  destruct (is_float_TF _ Hf) as [a ->]. cbn [tshape tlen] in *.
  rewrite (update_data_unfold s name t (scalar c) Hx).
  unfold tassign_row, lift_assign, assign_row. rewrite Sx. cbn [to_float scalar].
  destruct (assign a t (mkArr [] [c])) as [r|e] eqn:E.
  - destruct (@assign_frame _ a (mkArr [] [c]) r _ _ t f0 Sx Lx eq_refl E)
      as (_ & _ & j & w & Hj & Hw & Hsel & _).
    destruct (norm_index_some _ _ Hj) as [Hjl Hij].
    assert (Z.of_nat j = t) as <- by lia.
    cbn [rbind]. eexists _, _. split; [reflexivity|]. autorewrite with attrs.
    split; [eapply get_mutate_eq; eauto|].
    unfold tselect, lift_arr. rewrite Hsel. cbn [rbind]. do 3 f_equal.
    unfold copy_to in Hw. cbn [shape data shape_eqb list_eqb] in Hw.
    injection Hw as <-. apply concat_repeat_singleton.
  - exfalso. unfold assign in E. rewrite Sx in E.
    destruct (@norm_index_in (horizon s) t) as (j & _ & Hj); [lia|].
    rewrite Hj in E. unfold copy_to in E. cbn [shape data shape_eqb list_eqb rbind] in E.
    discriminate.
Qed.

Lemma tassign_row_err (x v : @tensor F) i e :
  tassign_row x i v = Err e -> e = IndexError \/ e = RuntimeError.
Proof.
  unfold tassign_row, lift_assign, assign_row, assign.
  destruct x as [a|a]; destruct (shape a) as [|d [|n rest]];
    try (intros [= <-]; auto; fail);
    destruct (norm_index d i); try (intros [= <-]; auto; fail).
  - destruct (copy_to _ _) eqn:E; cbn [rbind]; [discriminate|].
    apply copy_to_err in E. intros [= <-]. auto.
  - destruct (copy_to _ _) eqn:E; cbn [rbind]; [discriminate|].
    apply copy_to_err in E. intros [= <-]. auto.
Qed.

(** X6.  A failing [update_data] has written nothing: whatever the
    arguments, when it raises the buffer is as before, and the
    exception is a [KeyError] exactly when [name] is not a key of
    [storage_dict].  A dict value with string keys is never stored: an
    empty one is ignored, without even looking [name] up, and a
    non-empty one always raises. *)
Theorem update_data_failure (s : buffer) name index val :
  match update_data name index val s with
  | Return _ s' =>
      match val with
      | VTensor _ => dict_get name (storage_dict s) <> None
      | VDict items => items = [] /\ s' = s
      end
  | Raise e s' =>
      s' = s /\ (e = KeyError <-> dict_get name (storage_dict s) = None)
  end.
Proof.
  destruct val as [v|[|kv items]].
  - destruct (dict_get name (storage_dict s)) as [x|] eqn:Hx.
    + rewrite (update_data_unfold s name index v Hx).
      destruct (tassign_row x index v) as [x'|e] eqn:E; [discriminate|].
      destruct (tassign_row_err _ _ _ E) as [-> | ->];
        (split; [reflexivity|]); split; discriminate.
    + unfold update_data, storage_assign_row, storage, bind, get, lookup. rewrite Hx.
      cbn. repeat split; auto.
  - cbn. auto.
  - unfold update_data, storage, bind, get, lookup.
    destruct (dict_get name (storage_dict s)); cbn;
      (split; [reflexivity|]); split; congruence.
Qed.

(** *** Minibatches at any index *)

Lemma tslice_total (x : @tensor F) n rest a b :
  tshape x = n :: rest ->
  exists o, tslice x a b = Ok o
            /\ tshape o = (snd (slice_bounds n a b) - fst (slice_bounds n a b)) :: rest.
Proof.
  intros Hs. unfold tslice, lift_arr, slice.
  destruct x as [c|c]; cbn [tshape] in Hs; rewrite Hs;
    destruct (slice_bounds n a b) as [lo hi]; cbn [rbind fst snd];
    eexists; split; reflexivity.
Qed.

(** With a training view whose entries all have a first axis,
    [__getitem__] returns for every index: the ten slices. *)
Lemma getitem_run (s : buffer) dd idx :
  data_dict s = Some dd ->
  NoDup (keys dd) ->
  (forall k, In k minibatch_fields -> In k (keys dd)) ->
  (forall k x, dict_get k dd = Some x -> tshape x <> []) ->
  let start := (idx * minibatch_size s)%Z in
  let stop := ((idx + 1) * minibatch_size s)%Z in
  exists out,
    __getitem__ idx s = Return out (set_last_range (Some (start, stop)) s)
    /\ Forall2 (fun k o => exists x, dict_get k dd = Some x /\ tslice x start stop = Ok o)
               minibatch_fields out.
Proof.
  intros Hdd Hnd Hin Hrank start stop.
  assert (Hsl : forall k x, dict_get k dd = Some x -> exists o, tslice x start stop = Ok o).
  { intros k x Hx. pose proof (Hrank _ _ Hx) as Hr.
    destruct (tshape x) as [|n rest] eqn:Hs; [contradiction|].
    destruct (tslice_total x start stop Hs) as (o & Ho & _). eauto. }
  destruct (@slice_items_ok start stop (set_last_range (Some (start, stop)) s) dd [] Hnd)
    as (input_dict & E & G1 & _).
  { intros k x Hx. apply (Hsl k x). now apply in_get_nodup. }
  destruct (@lookup_all_ok (set_last_range (Some (start, stop)) s) input_dict minibatch_fields)
    as (out & Eo & Hf).
  { intros k Hk. destruct (get_some_of_key k dd (Hin k Hk)) as [x Hx].
    destruct (G1 _ _ Hx) as (o & _ & Ho). eauto. }
  exists out. split.
  - unfold __getitem__. mstep. rewrite Hdd. fold start stop. mrun E. exact Eo.
  - revert Hf. apply Forall2_impl_in. intros k o Hk Ho.
    destruct (get_some_of_key k dd (Hin k Hk)) as [x Hx].
    destruct (G1 _ _ Hx) as (o' & Ho' & Go). rewrite Go in Ho. injection Ho as <-.
    eauto.
Qed.

(** X7.  [__getitem__] changes nothing but [last_range], and it sets
    [last_range] to the requested bounds whether it returns or raises:
    also on a buffer without a training view, where the call ends in
    an [AttributeError]. *)
Theorem getitem_frame (s : buffer) idx :
  final_state (__getitem__ idx s)
  = set_last_range (Some (idx * minibatch_size s, (idx + 1) * minibatch_size s)%Z) s
  /\ (data_dict s = None ->
      __getitem__ idx s
      = Raise AttributeError
          (set_last_range (Some (idx * minibatch_size s, (idx + 1) * minibatch_size s)%Z) s)).
Proof.
  split; [apply getitem_state|].
  intros H. unfold __getitem__. mstep. now rewrite H.
Qed.

(** X8.  Once a training view exists, [__getitem__] never raises, for
    no index at all: slicing clamps.  A minibatch has at most
    [minibatch_size] rows, and it is empty when the index is [-1] (the
    slice [-m:0]) or lies at or beyond the end of the data, so that no
    [IndexError] ever ends an iteration over the buffer. *)
Theorem getitem_any_index (s : buffer) dd idx :
  data_dict s = Some dd ->
  NoDup (keys dd) ->
  (forall k, In k minibatch_fields -> In k (keys dd)) ->
  (forall k x, dict_get k dd = Some x -> tshape x <> []) ->
  (0 < minibatch_size s)%Z ->
  exists out,
    __getitem__ idx s
    = Return out
        (set_last_range (Some (idx * minibatch_size s, (idx + 1) * minibatch_size s)%Z) s)
    /\ Forall2 (fun k o => exists x n rest r,
                   dict_get k dd = Some x /\ tshape x = n :: rest
                   /\ tshape o = r :: rest
                   /\ r <= n /\ (Z.of_nat r <= minibatch_size s)%Z
                   /\ (idx = (-1)%Z \/ (Z.of_nat n <= idx * minibatch_size s)%Z -> r = 0))
               minibatch_fields out.
Proof.
  intros Hdd Hnd Hin Hrank Hm.
  destruct (@getitem_run s dd idx Hdd Hnd Hin Hrank) as (out & E & Hf).
  exists out. split; [exact E|].
  revert Hf. apply Forall2_impl_in. intros k o _ (x & Hx & Ho).
  pose proof (Hrank _ _ Hx) as Hr.
  destruct (tshape x) as [|n rest] eqn:Hs; [contradiction|].
  destruct (tslice_total x (idx * minibatch_size s) ((idx + 1) * minibatch_size s) Hs)
    as (o' & Ho' & So).
  rewrite Ho in Ho'. injection Ho' as <-.
  exists x, n, rest. eexists. split; [exact Hx|]. split; [exact Hs|]. split; [exact So|].
  unfold slice_bounds, clamp_bound. cbn [fst snd].
  destruct (Z.ltb_spec (idx * minibatch_size s) 0),
    (Z.ltb_spec ((idx + 1) * minibatch_size s) 0);
    repeat split; try nia; intros [-> | Hge]; nia.
Qed.

(** *** [update_mu_sigma] writes in two steps *)

Lemma tassign_slice_rejects (x v : @tensor F) n rest lo hi :
  tshape x = n :: rest -> lo <= hi -> hi <= n ->
  assignable ((hi - lo) :: rest) (tshape v) = false ->
  tassign_slice x (Z.of_nat lo) (Z.of_nat hi) v = Err RuntimeError.
Proof.
  intros Hs Hlo Hhi Hv. unfold tassign_slice, lift_assign, assign_slice, slice_bounds.
  destruct x as [a|a]; cbn [tshape] in Hs; rewrite Hs, !clamp_bound_nat;
    replace (Nat.min n lo) with lo by lia;
    replace (Nat.max lo (Nat.min n hi)) with hi by lia.
  - rewrite copy_to_rejects by now rewrite tshape_to_float. reflexivity.
  - rewrite copy_to_rejects by now rewrite tshape_to_byte. reflexivity.
Qed.

(** X9.  [update_mu_sigma] is not atomic.  It assigns ["mus"] before
    ["sigmas"]: when [mu] fits the recorded range and [sigma] cannot
    be assigned to it, the call raises [RuntimeError] with the rows of
    ["mus"] already overwritten. *)
Theorem update_mu_sigma_partial_write
        (s : buffer) dd mus sigmas mu sigma n rest_mu rest_sigma lo hi :
  data_dict s = Some dd ->
  last_range s = Some (Z.of_nat lo, Z.of_nat hi) ->
  dict_get "mus"%string dd = Some mus ->
  dict_get "sigmas"%string dd = Some sigmas ->
  tshape mus = n :: rest_mu -> tlen mus = numel (n :: rest_mu) ->
  tshape sigmas = n :: rest_sigma ->
  lo <= hi -> hi <= n ->
  is_float mu = is_float mus ->
  tshape mu = (hi - lo) :: rest_mu -> tlen mu = numel ((hi - lo) :: rest_mu) ->
  assignable ((hi - lo) :: rest_sigma) (tshape sigma) = false ->
  exists s' mus',
    update_mu_sigma mu sigma s = Raise RuntimeError s'
    /\ data_dict s' = Some (dict_mutate "mus" mus' dd)
    /\ rows_overwritten mus mu mus' lo hi.
Proof.
  intros Hdd Hlr Hmus Hsig Smus Lmus Ssig Hlo Hhi Fmu Smu Lmu Hbad.
  destruct (tassign_slice_same mus mu Smus Lmus Hlo Hhi Fmu Smu Lmu) as (mus' & Emus & Rmus).
  exists (set_data_dict (Some (dict_mutate "mus" mus' dd)) s), mus'.
  split; [|split; [reflexivity | exact Rmus]].
  unfold update_mu_sigma. mstep. rewrite Hlr.
  erewrite run_bind.
  2:{ eapply data_assign_slice_run; [exact Hdd | exact Hmus | exact Emus]. }
  unfold data_assign_slice. mstep.
  unfold lookup. rewrite get_mutate_ne by discriminate. rewrite Hsig. mstep.
  rewrite (tassign_slice_rejects sigmas sigma Ssig Hlo Hhi Hbad). reflexivity.
Qed.

(** *** What [prepare_training] touches *)

(** X10.  [prepare_training] replaces the training view and nothing
    else: whether it returns or raises, [storage_dict], [last_range]
    and the scalar attributes are as before, and the buffer has a view
    afterwards. *)
Theorem prepare_training_frame (s : buffer) :
  let s' := final_state (prepare_training s) in
  s' = set_data_dict (data_dict s') s /\ data_dict s' <> None.
Proof.
  set (R := fun s0 s1 : buffer =>
              s1 = set_data_dict (data_dict s1) s0
              /\ (data_dict s0 <> None -> data_dict s1 <> None)).
  assert (Hr : forall s0, R s0 s0) by (intros s0; split; [now destruct s0 | auto]).
  assert (Ht : forall s1 s2 s3, R s1 s2 -> R s2 s3 -> R s1 s3).
  { intros s1 s2 s3 [E1 N1] [E2 N2]. split; [|auto].
    rewrite E2 at 1. rewrite E1. reflexivity. }
  assert (Hset : forall k (y : @tensor F),
             preserves R (modify (fun s0 => set_data_dict
                                              (option_map (dict_set k y) (data_dict s0)) s0))).
  { intros k y. apply preserves_modify. intros s0. split; [reflexivity|].
    autorewrite with attrs. destruct (data_dict s0); cbn; congruence. }
  assert (Hitems : forall items : dict (@tensor F), preserves R (transform_items items)).
  { induction items as [|[k v] items IH]; cbn [transform_items]; repeat frame_step.
    - apply Hset.
    - exact IH. }
  assert (Hrest : forall s0 : buffer, data_dict s0 <> None ->
            let s1 := final_state
                        ((s1 <- get ;; transform_items (storage_dict s1) ;;
                          rets <- data_item "returns" ;;
                          vals <- data_item "values" ;;
                          advantages <- lift (tsub rets vals) ;;
                          m <- lift (tmean advantages) ;;
                          centred <- lift (tsub advantages m) ;;
                          sd <- lift (tstd advantages) ;;
                          sde <- lift (tadd sd (scalar eps)) ;;
                          q <- lift (tdiv centred sde) ;;
                          a <- lift (tsqueeze1 q) ;;
                          modify (fun s => set_data_dict
                                             (option_map (dict_set "advantages" a)
                                                         (data_dict s)) s) ;;
                          s2 <- get ;;
                          match data_dict s2 with
                          | None => raise TypeError
                          | Some dd => ret dd
                          end) s0) in
            R s0 s1).
  { intros s0 _.
    match goal with |- let s1 := final_state (?m s0) in _ =>
      assert (Hp : preserves R m); [|exact (Hp s0)] end.
    unfold data_item.
    repeat first [apply Hitems | apply Hset | frame_step]. }
  cbn zeta. unfold prepare_training. unfold bind at 1. cbn [modify].
  destruct (Hrest (set_data_dict (Some []) s)) as [E N]; [discriminate|].
  split; [|apply N; discriminate].
  rewrite E at 1. reflexivity.
Qed.

(** *** Reading back what [update_mu_sigma] wrote *)

Lemma slice_assign_slice {A} (x src x' : arr A) n rest lo hi :
  shape x = n :: rest -> length (data x) = numel (n :: rest) ->
  lo <= hi -> hi <= n ->
  shape src = (hi - lo) :: rest -> length (data src) = numel ((hi - lo) :: rest) ->
  assign_slice x (Z.of_nat lo) (Z.of_nat hi) src = Ok x' ->
  slice x' (Z.of_nat lo) (Z.of_nat hi) = Ok src.
Proof.
  intros Hs Hl Hlo Hhi Hss Hls. unfold assign_slice, slice, slice_bounds.
  rewrite Hs, !clamp_bound_nat.
  replace (Nat.min n lo) with lo by lia.
  replace (Nat.max lo (Nat.min n hi)) with hi by lia.
  rewrite <- Hss at 1. rewrite copy_to_same. cbn [rbind]. intros [= <-]. cbn [shape data].
  rewrite !clamp_bound_nat.
  replace (Nat.min n lo) with lo by lia.
  replace (Nat.max lo (Nat.min n hi)) with hi by lia.
  rewrite numel_cons in Hls.
  assert (Hb : lo * numel rest + length (data src) <= length (data x)).
  { rewrite Hl, Hls, numel_cons. nia. }
  pose proof (@chunk_splice_same _ (data x) (data src) (lo * numel rest) Hb) as C.
  rewrite Hls in C. rewrite C, <- Hss. now destruct src.
Qed.

Lemma tslice_tassign_slice (x v x' : @tensor F) n rest lo hi :
  tshape x = n :: rest -> tlen x = numel (n :: rest) ->
  lo <= hi -> hi <= n ->
  is_float v = is_float x ->
  tshape v = (hi - lo) :: rest -> tlen v = numel ((hi - lo) :: rest) ->
  tassign_slice x (Z.of_nat lo) (Z.of_nat hi) v = Ok x' ->
  tslice x' (Z.of_nat lo) (Z.of_nat hi) = Ok v.
Proof.
  intros Hs Hl Hlo Hhi Hf Hsv Hlv. unfold tassign_slice, lift_assign, tslice, lift_arr.
  destruct x as [a|a], v as [b|b]; try discriminate;
    cbn [tshape tlen to_float to_byte] in *;
    destruct (assign_slice a _ _ b) as [r|] eqn:E; cbn [rbind]; try discriminate;
    intros [= <-];
    rewrite (slice_assign_slice a b Hs Hl Hlo Hhi Hsv Hlv E); reflexivity.
Qed.

(** X11.  Reading back: after [__getitem__ i] has returned and
    [update_mu_sigma] has been given row-shaped [mu] and [sigma] of the
    minibatch size, requesting minibatch [i] again returns [mu] and
    [sigma] themselves in the places of ["mus"] and ["sigmas"], and the
    eight other tensors as before. *)
Theorem update_mu_sigma_read_back
        (s s1 : buffer) dd i out mus sigmas mu sigma n rest_mu rest_sigma :
  data_dict s = Some dd ->
  NoDup (keys dd) ->
  (forall k, In k minibatch_fields -> In k (keys dd)) ->
  (forall k x, dict_get k dd = Some x -> tshape x <> []) ->
  dict_get "mus"%string dd = Some mus ->
  dict_get "sigmas"%string dd = Some sigmas ->
  tshape mus = n :: rest_mu -> tlen mus = numel (n :: rest_mu) ->
  tshape sigmas = n :: rest_sigma -> tlen sigmas = numel (n :: rest_sigma) ->
  (0 <= i)%Z -> (0 < minibatch_size s)%Z ->
  ((i + 1) * minibatch_size s <= Z.of_nat n)%Z ->
  __getitem__ i s = Return out s1 ->
  is_float mu = is_float mus ->
  tshape mu = Z.to_nat (minibatch_size s) :: rest_mu ->
  tlen mu = numel (Z.to_nat (minibatch_size s) :: rest_mu) ->
  is_float sigma = is_float sigmas ->
  tshape sigma = Z.to_nat (minibatch_size s) :: rest_sigma ->
  tlen sigma = numel (Z.to_nat (minibatch_size s) :: rest_sigma) ->
  exists s2 out',
    update_mu_sigma mu sigma s1 = Return tt s2
    /\ __getitem__ i s2 = Return out' s2
    /\ nth_error out' 3 = Some mu
    /\ nth_error out' 4 = Some sigma
    /\ forall j, j <> 3 -> j <> 4 -> nth_error out' j = nth_error out j.
Proof.
  intros Hdd Hnd Hin Hrank Hmus Hsig Smus Lmus Ssig Lsig Hi Hm Hhi Hget
         Fmu Smu Lmu Fsi Ssi Lsi.
  set (start := (i * minibatch_size s)%Z). set (stop := ((i + 1) * minibatch_size s)%Z).
  pose proof (getitem_state i s) as Hs1. rewrite Hget in Hs1. cbn [final_state] in Hs1.
  fold start stop in Hs1. subst s1.
  destruct (@getitem_run s dd i Hdd Hnd Hin Hrank) as (out0 & E0 & Hf0).
  fold start stop in E0, Hf0. rewrite Hget in E0. injection E0 as <-.
  set (lo := Z.to_nat start). set (hi := Z.to_nat stop).
  assert (Hlohi : lo <= hi) by (unfold lo, hi, start, stop; nia).
  assert (Hhin : hi <= n) by (unfold hi, stop; lia).
  assert (Hd : hi - lo = Z.to_nat (minibatch_size s)) by (unfold lo, hi, start, stop; nia).
  assert (Zlo : Z.of_nat lo = start) by (unfold lo, start; nia).
  assert (Zhi : Z.of_nat hi = stop) by (unfold hi, stop; nia).
  rewrite <- Hd in Smu, Lmu, Ssi, Lsi.
  destruct (tassign_slice_same mus mu Smus Lmus Hlohi Hhin Fmu Smu Lmu)
    as (mus' & Emus & Rmus).
  destruct (tassign_slice_same sigmas sigma Ssig Lsig Hlohi Hhin Fsi Ssi Lsi)
    as (sigmas' & Esig & Rsig).
  pose proof (tslice_tassign_slice mus mu Smus Lmus Hlohi Hhin Fmu Smu Lmu Emus) as Bmus.
  pose proof (tslice_tassign_slice sigmas sigma Ssig Lsig Hlohi Hhin Fsi Ssi Lsi Esig) as Bsig.
  rewrite Zlo, Zhi in Emus, Esig, Bmus, Bsig.
  set (dd' := dict_mutate "sigmas" sigmas' (dict_mutate "mus" mus' dd)).
  set (s1 := set_last_range (Some (start, stop)) s) in *.
  set (s2 := set_data_dict (Some dd') s1).
  assert (Gmus : dict_get "mus"%string dd' = Some mus').
  { unfold dd'. rewrite get_mutate_ne by discriminate. eapply get_mutate_eq; eauto. }
  assert (Gsig : dict_get "sigmas"%string dd' = Some sigmas').
  { unfold dd'. eapply get_mutate_eq. rewrite get_mutate_ne by discriminate. eauto. }
  assert (Gother : forall k, k <> "mus"%string -> k <> "sigmas"%string ->
                        dict_get k dd' = dict_get k dd).
  { intros k H1 H2. unfold dd'. now rewrite !get_mutate_ne. }
  assert (Hrank' : forall k x, dict_get k dd' = Some x -> tshape x <> []).
  { intros k x Hx.
    destruct (String.eqb_spec k "mus") as [->|H1].
    { rewrite Gmus in Hx. injection Hx as <-.
      destruct Rmus as (_ & -> & _). rewrite Smus. discriminate. }
    destruct (String.eqb_spec k "sigmas") as [->|H2].
    { rewrite Gsig in Hx. injection Hx as <-.
      destruct Rsig as (_ & -> & _). rewrite Ssig. discriminate. }
    rewrite Gother in Hx by assumption. eauto. }
  destruct (@getitem_run s2 dd' i eq_refl) as (out' & E' & Hf').
  { unfold dd'. now rewrite !keys_mutate. }
  { intros k Hk. unfold dd'. rewrite !keys_mutate. auto. }
  { exact Hrank'. }
  change (minibatch_size s2) with (minibatch_size s) in E', Hf'. fold start stop in E', Hf'.
  exists s2, out'. split.
  { unfold update_mu_sigma. mstep. unfold s1 at 1. autorewrite with attrs.
    erewrite run_bind.
    2:{ eapply data_assign_slice_run; [exact Hdd | exact Hmus | exact Emus]. }
    erewrite data_assign_slice_run;
      [ | autorewrite with attrs; reflexivity
        | rewrite get_mutate_ne by discriminate; exact Hsig
        | exact Esig ].
    autorewrite with attrs. reflexivity. }
  split; [exact E'|].
  assert (Same : forall k o o',
             (exists x, dict_get k dd = Some x /\ tslice x start stop = Ok o) ->
             (exists x, dict_get k dd' = Some x /\ tslice x start stop = Ok o') ->
             k <> "mus"%string -> k <> "sigmas"%string -> o' = o).
  { intros k o o' (x & Hx & Ho) (x' & Hx' & Ho') H1 H2.
    rewrite Gother in Hx' by assumption. congruence. }
  unfold minibatch_fields in Hf0, Hf'.
  repeat match goal with
         | H : Forall2 _ (_ :: _) _ |- _ => inversion H; subst; clear H
         | H : Forall2 _ [] _ |- _ => inversion H; subst; clear H
         end.
  split.
  { cbn [nth_error]. f_equal.
    match goal with
    | H : exists x, dict_get "mus"%string dd' = Some x /\ _ |- _ =>
        destruct H as (x & Hx & Ho); congruence
    end. }
  split.
  { cbn [nth_error]. f_equal.
    match goal with
    | H : exists x, dict_get "sigmas"%string dd' = Some x /\ _ |- _ =>
        destruct H as (x & Hx & Ho); congruence
    end. }
  intros j Hj3 Hj4.
  do 10 (destruct j as [|j]; [try (exfalso; congruence); cbn [nth_error]; f_equal;
                              eapply Same; eauto; discriminate|]).
  reflexivity.
Qed.

(** *** The layout of the training view *)

(** X12.  On a buffer with the constructor's layout, [prepare_training]
    returns a view whose keys are the eleven fields in the order of
    the constructor followed by ["advantages"]; the entry of a field
    has the dtype of the stored tensor, its two leading axes merged
    into one of extent [horizon * envs], and holds exactly its
    elements; ["advantages"] is a floating vector with one entry per
    sample. *)
Theorem prepare_training_view_layout (s : buffer) :
  buffer_okb s = true ->
  exists dd adv,
    prepare_training s = Return dd (set_data_dict (Some dd) s)
    /\ keys dd = field_names ++ ["advantages"%string]
    /\ (forall k x, dict_get k (storage_dict s) = Some x ->
          exists y, dict_get k dd = Some y
                    /\ is_float y = is_float x
                    /\ tshape y = horizon s * envs s :: trailing s k
                    /\ same_elements x y)
    /\ dict_get "advantages"%string dd = Some (TF adv)
    /\ shape adv = [horizon s * envs s]
    /\ length (data adv) = horizon s * envs s.
Proof.
  intros Hok.
  destruct (prepare_training_ok s Hok)
    as (dd & rets & vals & E & K & G & _ & _ & Lr & Lv & Ha).
  eexists dd, _. split; [exact E|]. split; [exact K|]. split; [|split; [exact Ha|]].
  - intros k x Hx. destruct (G _ _ Hx) as (y & Hy & Gy).
    destruct (buffer_ok_field _ _ Hok Hx) as (_ & Sx & Lx).
    destruct (transform_op_shape x Sx Lx) as (y' & Hy' & Fy & Sy & _).
    rewrite Hy in Hy'. injection Hy' as <-.
    exists y. repeat split; try assumption.
    apply transform_op_same_elements; [now rewrite Sx | exact Hy].
  - cbn [shape data]. split; [reflexivity|].
    unfold normalised. rewrite length_map, length_map2, Lr, Lv. lia.
Qed.

(** *** Running [computer_return] again *)

Lemma dict_ext {V} (d1 d2 : dict V) :
  keys d1 = keys d2 -> NoDup (keys d1) ->
  (forall k, dict_get k d1 = dict_get k d2) -> d1 = d2.
Proof.
  revert d2. induction d1 as [|[k v] d1 IH]; intros [|[k' v'] d2]; cbn [keys map fst];
    try discriminate; [reflexivity|].
  intros [= <- K] Hnd G. inversion Hnd as [|? ? Hni Hnd']; subst.
  pose proof (G k) as Gk. cbn [dict_get] in Gk. rewrite String.eqb_refl in Gk.
  injection Gk as <-. f_equal. apply IH; [exact K | exact Hnd' |].
  intros k0. specialize (G k0). cbn [dict_get] in G.
  destruct (String.eqb k0 k) eqn:Ek; [|exact G].
  apply String.eqb_eq in Ek. rewrite Ek.
  rewrite !get_none_of_key; [reflexivity | | exact Hni].
  unfold keys. now rewrite <- K.
Qed.

(** X13.  [computer_return] is idempotent: it reads rewards, values and
    dones, which it does not change, and overwrites every entry of
    ["returns"], so a second call with the same arguments leaves the
    buffer exactly as the first one did. *)
Theorem computer_return_idempotent (s : buffer) (last_values : tensor) (gamma tau : F) :
  buffer_okb s = true ->
  tshape last_values = [envs s; 1] -> tlen last_values = envs s ->
  exists s',
    computer_return last_values gamma tau s = Return tt s'
    /\ computer_return last_values gamma tau s' = Return tt s'.
Proof.
  intros Hok Hlv Hlvl.
  destruct (@computer_return_spec s last_values gamma tau Hok Hlv Hlvl)
    as (s1 & rw & vl & dn & R1 & E1 & Hok1 & G1 & Hr & Hv & Hd & HR1 & Hspec1).
  pose proof (computer_return_only_returns last_values gamma tau s) as Hfr.
  rewrite E1 in Hfr. cbn [final_state] in Hfr. destruct Hfr as (Es1 & Ks1 & _).
  assert (HT : horizon s1 = horizon s) by (rewrite Es1; reflexivity).
  assert (HN : envs s1 = envs s) by (rewrite Es1; reflexivity).
  rewrite <- HN in Hlv, Hlvl.
  destruct (@computer_return_spec s1 last_values gamma tau Hok1 Hlv Hlvl)
    as (s2 & rw' & vl' & dn' & R2 & E2 & Hok2 & G2 & Hr' & Hv' & Hd' & HR2 & Hspec2).
  pose proof (computer_return_only_returns last_values gamma tau s1) as Hfr.
  rewrite E2 in Hfr. cbn [final_state] in Hfr. destruct Hfr as (Es2 & Ks2 & _).
  rewrite G1 in Hr', Hv', Hd' by discriminate.
  rewrite Hr in Hr'. injection Hr' as <-.
  rewrite Hv in Hv'. injection Hv' as <-.
  rewrite Hd in Hd'. injection Hd' as <-.
  rewrite HT, HN in Hspec2.
  exists s1. split; [exact E1|]. rewrite E2. f_equal.
  assert (HRR : R2 = R1).
  { destruct (buffer_ok_field _ _ Hok1 HR1) as (F1 & S1 & L1).
    destruct (buffer_ok_field _ _ Hok2 HR2) as (F2 & S2 & L2).
    assert (HT2 : horizon s2 = horizon s) by (rewrite Es2; exact HT).
    assert (HN2 : envs s2 = envs s) by (rewrite Es2; exact HN).
    change (trailing s2 "returns"%string) with [1] in *.
    change (trailing s1 "returns"%string) with [1] in *.
    rewrite HT2, HN2 in S2, L2. rewrite HT, HN in S1, L1.
    destruct (is_float_TF _ F1) as [a1 ->]. destruct (is_float_TF _ F2) as [a2 ->].
    cbn [tshape tlen] in *. f_equal.
    destruct a1 as [sh1 d1], a2 as [sh2 d2]. cbn [shape data] in *. subst sh1 sh2.
    f_equal. apply (nth_ext _ _ f0 f0); [congruence|].
    intros j Hj. rewrite L2 in Hj. cbn [numel fold_right] in Hj.
    assert (Hn0 : envs s <> 0) by (intros H0; rewrite H0 in Hj; lia).
    pose proof (Nat.div_mod j (envs s) Hn0) as Dj.
    pose proof (Nat.mod_upper_bound j (envs s) Hn0) as Mj.
    assert (Tj : j / envs s < horizon s).
    { apply Nat.Div0.div_lt_upper_bound. lia. }
    specialize (Hspec1 _ _ Tj Mj). specialize (Hspec2 _ _ Tj Mj).
    replace (j / envs s * envs s + j mod envs s) with j in Hspec1, Hspec2 by lia.
    unfold felem in Hspec1 at 1. unfold felem in Hspec2 at 1.
    cbn [to_float data] in Hspec1, Hspec2. congruence. }
  subst R2.
  assert (Hsd : storage_dict s2 = storage_dict s1).
  { apply dict_ext; [exact Ks2 | |].
    - rewrite Ks2, (buffer_ok_keys _ Hok1). apply field_names_nodup.
    - intros k. destruct (String.eqb_spec k "returns") as [->|Hk]; [congruence|].
      now apply G2. }
  rewrite Es2, Hsd. now destruct s1.
Qed.

(** *** Bootstrap values of the wrong shape *)

Lemma binop_shape {A B C} (f : A -> B -> C) (x : arr A) (y : arr B) s :
  broadcast_shapes (shape x) (shape y) = Some s ->
  exists d, binop f x y = Ok (mkArr s d).
Proof. intros H. unfold binop. rewrite H. eauto. Qed.

Ltac bshape :=
  match goal with
  | |- context [binop ?f ?x ?y] =>
      let d := fresh "d" in
      let E := fresh "E" in
      edestruct (@binop_shape _ _ _ f x y) as [d E];
      [unfold broadcast_shapes; cbn [shape];
       repeat progress (simpl; rewrite ?Nat.eqb_refl); reflexivity
      | rewrite E; clear E]
  end.

(** X17.  Bootstrap values given as a vector of shape [[num_envs]]
    instead of a column of shape [[num_envs, 1]] are not accepted: with
    more than one environment and a non-empty horizon the first
    iteration broadcasts them against the column of done flags into a
    square, which cannot be assigned to a row of [mb_advs];
    [computer_return] raises [RuntimeError] and has written nothing. *)
Theorem computer_return_vector_bootstrap (s : buffer) (last_values : tensor) (gamma tau : F) :
  buffer_okb s = true ->
  0 < horizon s -> 1 < envs s ->
  tshape last_values = [envs s] ->
  computer_return last_values gamma tau s = Raise RuntimeError s.
Proof.
  intros Hok HT0 HN1 Hlv.
  assert (Hlv' : shape (to_float last_values) = [envs s]) by now rewrite tshape_to_float.
  destruct (to_float last_values) as [shl dl] eqn:Elv. cbn [shape] in Hlv'. subst shl.
  destruct (@buffer_ok_has s "rewards"%string Hok) as [xr Hxr]; [cbn; tauto|].
  destruct (@buffer_ok_has s "values"%string Hok) as [xv Hxv]; [cbn; tauto|].
  destruct (@buffer_ok_has s "dones"%string Hok) as [xd Hxd]; [cbn; tauto|].
  destruct (buffer_ok_field _ _ Hok Hxr) as (Fr & Sr & Lr).
  destruct (buffer_ok_field _ _ Hok Hxv) as (Fv & Sv & Lv).
  destruct (buffer_ok_field _ _ Hok Hxd) as (Fd & Sd & Ld).
  destruct (buffer_ok_dims _ Hok) as [HT HN].
  change (trailing s "rewards"%string) with [1] in *.
  change (trailing s "values"%string) with [1] in *.
  change (trailing s "dones"%string) with (@nil nat) in *.
  cbn [negb String.eqb Ascii.eqb Bool.eqb] in Fr, Fv, Fd.
  destruct xr as [R|]; [|discriminate]. destruct xv as [V|]; [|discriminate].
  destruct xd as [|D]; [discriminate|].
  cbn [tshape tlen] in *.
  destruct (horizon s) as [|T] eqn:ET; [lia|].
  destruct (envs s) as [|[|N]] eqn:EN; try lia.
  unfold computer_return. mstorage Hxr. cbn [zeros_like].
  unfold range. rewrite HT, Nat2Z.id, <- map_rev, rev_seq_S.
  cbn [map computer_return_loop]. apply run_bind_raise.
  unfold computer_return_step. mstep. rewrite HT.
  replace (Z.of_nat T =? Z.of_nat (S T) - 1)%Z with true by (symmetry; apply Z.eqb_eq; lia).
  mstep.
  mstorage Hxd. unfold tselect at 1, lift_arr. cbn [to_float].
  erewrite (@select_nat _ _ (S T) [S (S N)] T); [|cbn [shape]; exact Sd | lia].
  go. bshape. go.
  unfold tunsqueeze1, lift_arr, unsqueeze1. go.
  mstorage Hxr. unfold tselect at 1, lift_arr.
  erewrite (@select_nat _ R (S T) [S (S N); 1] T); [|exact Sr | lia]. go.
  rewrite Elv. repeat first [bshape | progress go].
  mstorage Hxv. unfold tselect at 1, lift_arr.
  erewrite (@select_nat _ V (S T) [S (S N); 1] T); [|exact Sv | lia].
  repeat first [bshape | progress go].
  unfold tassign, lift_assign, assign. cbn [to_float shape]. rewrite Sr.
  rewrite norm_index_nat by lia.
  rewrite copy_to_rejects
    by (unfold assignable, shape_eqb, expandable; cbn [shape];
        repeat progress (simpl; rewrite ?Nat.eqb_refl); reflexivity).
  reflexivity.
Qed.

(** *** Sequences of calls *)

Lemma same_config_refl (s : buffer) : same_config s s.
Proof. repeat split. Qed.

Lemma same_config_trans (s1 s2 s3 : buffer) :
  same_config s1 s2 -> same_config s2 s3 -> same_config s1 s3.
Proof. unfold same_config. intuition congruence. Qed.

Ltac frame_config :=
  pose proof same_config_refl as Hr;
  pose proof same_config_trans as Ht;
  repeat first [ frame_step
               | apply preserves_modify; intros ?; repeat split;
                 autorewrite with attrs; rewrite ?keys_mutate; reflexivity ].

Lemma update_data_config name index val :
  preserves same_config (update_data name index val).
Proof.
  unfold update_data, storage_assign_row. destruct val as [v|[|? ?]]; frame_config.
Qed.

Lemma computer_return_config lv gamma tau :
  preserves same_config (computer_return lv gamma tau).
Proof.
  assert (Hstep : forall t last mb,
             preserves same_config (computer_return_step lv gamma tau t last mb)).
  { intros. unfold computer_return_step, storage_assign_row. frame_config. }
  assert (Hloop : forall ts last mb,
             preserves same_config (computer_return_loop lv gamma tau ts last mb)).
  { induction ts as [|t ts IH]; intros; cbn [computer_return_loop].
    - frame_config.
    - apply preserves_bind; [apply same_config_trans | apply Hstep | intros; apply IH]. }
  unfold computer_return. frame_config. apply Hloop.
Qed.

Lemma transform_items_config (items : dict (@tensor F)) :
  preserves same_config (transform_items items).
Proof.
  induction items as [|[k v] items IH]; cbn [transform_items]; frame_config.
  exact IH.
Qed.

Lemma prepare_training_config : preserves same_config prepare_training.
Proof.
  unfold prepare_training, data_item.
  pose proof transform_items_config.
  frame_config; auto.
Qed.

Lemma update_mu_sigma_config mu sigma :
  preserves same_config (update_mu_sigma mu sigma).
Proof. unfold update_mu_sigma, data_assign_slice. frame_config. Qed.

Lemma getitem_config idx : preserves (@same_config F) (__getitem__ idx).
Proof. intros s. rewrite getitem_state. repeat split. Qed.

Lemma run_call_config c (s : buffer) : same_config s (run_call c s).
Proof.
  destruct c; cbn [run_call].
  - apply update_data_config.
  - apply computer_return_config.
  - apply prepare_training_config.
  - apply getitem_config.
  - apply update_mu_sigma_config.
Qed.

Lemma run_calls_config cs : forall s : buffer, same_config s (run_calls cs s).
Proof.
  induction cs as [|c cs IH]; intros s; [apply same_config_refl|].
  cbn [run_calls fold_left]. fold (run_calls cs (run_call c s)).
  eapply same_config_trans; [apply run_call_config | apply IH].
Qed.

Lemma run_calls_app cs c (s : buffer) :
  run_calls (cs ++ [c]) s = run_call c (run_calls cs s).
Proof. unfold run_calls. now rewrite fold_left_app. Qed.

(** X18.  No method changes the configuration of the buffer: after any
    sequence of calls, whether they return or raise, the scalar
    attributes, among them [minibatch_size] and the value of
    [__len__], are those the constructor set, and [storage_dict] has
    the same keys in the same order. *)
Theorem config_never_changes (cs : list call) (s : buffer) :
  same_config s (run_calls cs s) /\ __len__ (run_calls cs s) = __len__ s.
Proof.
  pose proof (run_calls_config cs s) as H. split; [exact H|].
  unfold __len__. apply H.
Qed.

(** X19.  [last_range] is determined by the last [__getitem__] of the
    call sequence alone: after any sequence of calls it holds the
    bounds [(idx * minibatch_size, (idx + 1) * minibatch_size)] of the
    last index requested, whether that request returned or raised and
    whatever was called since, and it is what it was before the
    sequence when no minibatch was requested. *)
Theorem last_range_after_calls (cs : list call) (s : buffer) :
  last_range (run_calls cs s)
  = match last_getitem cs with
    | Some idx => Some (idx * minibatch_size s, (idx + 1) * minibatch_size s)%Z
    | None => last_range s
    end.
Proof.
  induction cs as [|c cs IH] using rev_ind; [reflexivity|].
  rewrite run_calls_app. unfold last_getitem. rewrite fold_left_app. cbn [fold_left].
  fold (last_getitem cs).
  destruct c; cbn [run_call];
    try (rewrite <- IH;
         first [ apply update_data_last_range | apply computer_return_last_range
               | apply prepare_training_last_range | apply update_mu_sigma_last_range ]).
  rewrite getitem_state. autorewrite with attrs.
  destruct (run_calls_config cs s) as (_ & _ & _ & _ & _ & _ & _ & _ & -> & _).
  reflexivity.
Qed.

(** Entry [(t, e)] of a stored column is entry [e * T + t] of its
    flattened view. *)
Lemma transform_op_elem (x y : @tensor F) T N t e :
  tshape x = [T; N; 1] -> tlen x = numel [T; N; 1] -> is_float x = true ->
  transform_op x = Ok y -> t < T -> e < N ->
  felem y (e * T + t) = felem x (t * N + e).
Proof.
  intros Hs Hl Hf Hy Ht He.
  pose proof (transform_op_select x Hs Hl Hy Ht He) as Hsel.
  destruct (transform_op_shape x Hs Hl) as (y' & Hy' & Fy & Sy & Ly).
  rewrite Hy in Hy'. injection Hy' as <-. rewrite Hf in Fy.
  destruct (is_float_TF _ Hf) as [a ->]. destruct (is_float_TF _ Fy) as [b ->].
  cbn [tshape tlen] in *. unfold tselect, lift_arr in Hsel.
  rewrite (select_nat b Sy) in Hsel by nia.
  rewrite (select_nat a Hs Ht) in Hsel. cbn [rbind] in Hsel.
  erewrite select_nat in Hsel; [|reflexivity | exact He]. cbn [rbind data] in Hsel.
  injection Hsel as Hc.
  apply (f_equal (fun l => nth 0 l f0)) in Hc.
  rewrite chunk_chunk in Hc by nia.
  rewrite !nth_chunk in Hc by lia.
  unfold felem. cbn [to_float].
  replace ((e * T + t) * 1 + 0) with (e * T + t) in Hc by lia.
  replace (t * (N * 1) + e * 1 + 0) with (t * N + e) in Hc by lia.
  exact Hc.
Qed.

(** *** The layout is kept by every call *)

Lemma Forall2_ones (r : list nat) :
  Forall2 (fun d p => p = d \/ p = 1) r (repeat 1 (length r)).
Proof. induction r; cbn; constructor; auto. Qed.

Lemma Forall2_same_shape (r : list nat) : Forall2 (fun d p => p = d \/ p = 1) r r.
Proof. induction r; constructor; auto. Qed.

Lemma broadcast_rev_spec r1 :
  forall r2 r, broadcast_rev r1 r2 = Some r ->
          Forall2 (fun d p => p = d \/ p = 1) r (r1 ++ repeat 1 (length r - length r1))
          /\ Forall2 (fun d p => p = d \/ p = 1) r (r2 ++ repeat 1 (length r - length r2)).
Proof.
  induction r1 as [|a r1 IH]; intros r2 r H.
  - cbn in H. injection H as <-. cbn [app length]. rewrite Nat.sub_0_r, Nat.sub_diag.
    cbn [repeat]. rewrite app_nil_r. split; [apply Forall2_ones | apply Forall2_same_shape].
  - destruct r2 as [|b r2].
    + cbn in H. injection H as <-. cbn [app length]. rewrite Nat.sub_0_r, Nat.sub_diag.
      cbn [repeat]. rewrite app_nil_r.
      split; [apply Forall2_same_shape | apply (Forall2_ones (a :: r1))].
    + cbn [broadcast_rev] in H.
      destruct (broadcast_rev r1 r2) as [r'|] eqn:E; [|discriminate].
      destruct (IH _ _ E) as [H1 H2].
      destruct (Nat.eqb_spec a b) as [->|Hab].
      { injection H as <-. split; cbn; constructor; auto. }
      destruct (Nat.eqb_spec a 1) as [->|Ha].
      { injection H as <-. split; cbn; constructor; auto. }
      destruct (Nat.eqb_spec b 1) as [->|Hb]; [|discriminate].
      injection H as <-. split; cbn; constructor; auto.
Qed.

Lemma broadcast_shapes_pad s1 s2 s :
  broadcast_shapes s1 s2 = Some s ->
  Forall2 (fun d p => p = d \/ p = 1) s (pad_shape (length s) s1)
  /\ Forall2 (fun d p => p = d \/ p = 1) s (pad_shape (length s) s2).
Proof.
  unfold broadcast_shapes, pad_shape.
  destruct (broadcast_rev (rev s1) (rev s2)) as [r|] eqn:E; [|discriminate].
  cbn [option_map]. intros [= <-].
  destruct (broadcast_rev_spec _ _ E) as [H1 H2].
  apply Forall2_rev_both in H1. apply Forall2_rev_both in H2.
  rewrite rev_app_distr, rev_repeat, rev_involutive, !length_rev in H1, H2.
  rewrite length_rev. auto.
Qed.

Lemma binop_wf {A B C} (f : A -> B -> C) (x : arr A) (y : arr B) r :
  length (data x) = numel (shape x) -> length (data y) = numel (shape y) ->
  binop f x y = Ok r -> length (data r) = numel (shape r).
Proof.
  intros Hx Hy. unfold binop.
  destruct (broadcast_shapes (shape x) (shape y)) as [s|] eqn:E; [|discriminate].
  intros [= <-]. cbn [shape data]. destruct (broadcast_shapes_pad _ _ E) as [H1 H2].
  unfold expand_to.
  rewrite length_map2, !length_expand_data by (try assumption; now rewrite numel_pad).
  lia.
Qed.

Lemma select_wf {A} (x r : arr A) i :
  length (data x) = numel (shape x) -> select x i = Ok r ->
  length (data r) = numel (shape r).
Proof.
  intros Hx. unfold select. destruct (shape x) as [|d rest] eqn:Hs; [discriminate|].
  destruct (norm_index d i) as [j|] eqn:Hj; [|discriminate].
  intros [= <-]. cbn [shape data]. apply length_chunk.
  destruct (norm_index_some _ _ Hj) as [Hjd _].
  rewrite Hx, numel_cons. now apply row_bound.
Qed.

Lemma well_formed_spec (x : @tensor F) :
  well_formed x = true <-> tlen x = numel (tshape x).
Proof. unfold well_formed. apply Nat.eqb_eq. Qed.

Lemma to_float_wf (x : @tensor F) :
  well_formed x = true -> length (data (to_float x)) = numel (shape (to_float x)).
Proof. rewrite well_formed_spec, length_to_float, tshape_to_float. auto. Qed.

Lemma to_byte_wf (x : @tensor F) :
  well_formed x = true -> length (data (to_byte x)) = numel (shape (to_byte x)).
Proof. rewrite well_formed_spec, length_to_byte, tshape_to_byte. auto. Qed.

Lemma arith_wf ff fb (x y r : @tensor F) :
  well_formed x = true -> well_formed y = true ->
  arith ff fb x y = Ok r -> well_formed r = true.
Proof.
  intros Hx Hy. pose proof (to_float_wf _ Hx) as Fx. pose proof (to_float_wf _ Hy) as Fy.
  apply well_formed_spec in Hx, Hy. unfold arith.
  destruct x as [a|a], y as [b|b]; cbn [to_float tlen tshape] in *;
    match goal with
    | |- context [binop ?f ?p ?q] => destruct (binop f p q) as [c|] eqn:E
    end; cbn [rbind]; try discriminate; intros [= <-];
    apply well_formed_spec; cbn [tlen tshape];
    eapply binop_wf; try exact E; cbn [shape data]; rewrite ?length_map; assumption.
Qed.

Lemma tadd_wf (x y r : @tensor F) :
  well_formed x = true -> well_formed y = true -> tadd x y = Ok r -> well_formed r = true.
Proof. apply arith_wf. Qed.

Lemma tsub_wf (x y r : @tensor F) :
  well_formed x = true -> well_formed y = true -> tsub x y = Ok r -> well_formed r = true.
Proof. apply arith_wf. Qed.

Lemma tmul_wf (x y r : @tensor F) :
  well_formed x = true -> well_formed y = true -> tmul x y = Ok r -> well_formed r = true.
Proof. apply arith_wf. Qed.

Lemma tselect_wf (x r : @tensor F) i :
  well_formed x = true -> tselect x i = Ok r -> well_formed r = true.
Proof.
  rewrite !well_formed_spec. unfold tselect, lift_arr.
  destruct x as [a|a]; cbn [tlen tshape]; intros Hx;
    destruct (select a i) as [c|] eqn:E; cbn [rbind]; try discriminate;
    intros [= <-]; cbn [tlen tshape]; eapply select_wf; eauto.
Qed.

Lemma tunsqueeze1_wf (x r : @tensor F) :
  well_formed x = true -> tunsqueeze1 x = Ok r -> well_formed r = true.
Proof.
  rewrite !well_formed_spec. unfold tunsqueeze1, lift_arr, unsqueeze1.
  destruct x as [a|a]; cbn [tlen tshape]; intros Hx;
    destruct (shape a) as [|d rest] eqn:Hs; cbn [rbind]; try discriminate;
    intros [= <-]; cbn [tlen tshape shape data]; rewrite Hx, !numel_cons; cbn; lia.
Qed.

Lemma assign_wf {A} (x src x' : arr A) i :
  length (data x) = numel (shape x) -> length (data src) = numel (shape src) ->
  assign x i src = Ok x' -> length (data x') = numel (shape x').
Proof.
  intros Hx Hs. unfold assign. destruct (shape x) as [|d rest] eqn:Sx; [discriminate|].
  destruct (norm_index d i) as [j|] eqn:Hj; [|discriminate].
  destruct (copy_to rest src) as [v|] eqn:Hv; cbn [rbind]; [|discriminate].
  intros [= <-]. cbn [shape data].
  destruct (norm_index_some _ _ Hj) as [Hjd _].
  pose proof (copy_to_length _ _ Hs Hv) as Lv.
  rewrite length_splice; [exact Hx|]. rewrite Hx, Lv, numel_cons. now apply row_bound.
Qed.

Lemma tassign_wf (x v x' : @tensor F) i :
  well_formed x = true -> well_formed v = true ->
  tassign x i v = Ok x' -> well_formed x' = true.
Proof.
  intros Hx Hv. pose proof (to_float_wf _ Hv) as Fv. pose proof (to_byte_wf _ Hv) as Bv.
  apply well_formed_spec in Hx. unfold tassign, lift_assign.
  destruct x as [a|a]; cbn [tlen tshape] in Hx.
  - destruct (assign a i (to_float v)) as [c|] eqn:E; cbn [rbind]; [|discriminate].
    intros [= <-]. apply well_formed_spec. cbn [tlen tshape].
    eapply assign_wf; [exact Hx | exact Fv | exact E].
  - destruct (assign a i (to_byte v)) as [c|] eqn:E; cbn [rbind]; [|discriminate].
    intros [= <-]. apply well_formed_spec. cbn [tlen tshape].
    eapply assign_wf; [exact Hx | exact Bv | exact E].
Qed.

Lemma zeros_like_wf (x : @tensor F) : well_formed (zeros_like x) = true.
Proof.
  apply well_formed_spec. destruct x; cbn [zeros_like tlen tshape shape data];
    apply repeat_length.
Qed.

Lemma buffer_ok_wf (s : buffer) k x :
  buffer_okb s = true -> dict_get k (storage_dict s) = Some x -> well_formed x = true.
Proof.
  intros Hok Hx. destruct (buffer_ok_field _ _ Hok Hx) as (_ & Sx & Lx).
  apply well_formed_spec. now rewrite Sx.
Qed.

(** A row assignment into a stored field keeps the layout, whether it
    is accepted or raises. *)
Lemma storage_assign_row_layout (s : buffer) name index v :
  buffer_okb s = true -> well_formed v = true ->
  buffer_okb (final_state (storage_assign_row name index v s)) = true.
Proof.
  intros Hok Hv. apply well_formed_spec in Hv.
  unfold storage_assign_row, storage, bind, get, lookup.
  destruct (dict_get name (storage_dict s)) as [x|] eqn:Hx; cbn; [|exact Hok].
  destruct (buffer_ok_field _ _ Hok Hx) as (Fx & Sx & Lx).
  destruct (tassign_row x index v) as [x'|e] eqn:Ea; cbn; [|exact Hok].
  destruct (tassign_row_frame x v index Sx Lx Hv Ea) as (F' & S' & L' & _).
  eapply buffer_ok_mutate; eauto.
Qed.

Lemma bind_lift {A B} (r : result A) (k : A -> M B) (s : buffer) :
  bind (lift r) k s = match r with Ok a => k a s | Err e => Raise e s end.
Proof. destruct r; reflexivity. Qed.

Lemma bind_storage {B} k0 (k : tensor -> M B) (s : buffer) :
  bind (storage k0) k s
  = match dict_get k0 (storage_dict s) with
    | Some v => k v s
    | None => Raise KeyError s
    end.
Proof. unfold storage, bind, get, lookup. destruct (dict_get _ _); reflexivity. Qed.

Lemma bind_assoc {A B C} (m : M A) (f : A -> M B) (k : B -> M C) (s : buffer) :
  bind (bind m f) k s = bind m (fun a => bind (f a) k) s.
Proof. unfold bind. destruct (m s); reflexivity. Qed.

Ltac wf_lift Hok :=
  rewrite bind_lift;
  match goal with
  | |- context [match ?r with Ok _ => _ | Err _ => _ end] =>
      let E := fresh "E" in
      let W := fresh "W" in
      destruct r eqn:E; [|exact Hok];
      pose proof E as W;
      first [ apply tselect_wf in W; [|eassumption]
            | apply tadd_wf in W; [|eassumption|eassumption]
            | apply tsub_wf in W; [|eassumption|eassumption]
            | apply tmul_wf in W; [|eassumption|eassumption]
            | apply tunsqueeze1_wf in W; [|eassumption]
            | apply tassign_wf in W; [|eassumption|eassumption] ]
  end.

Ltac wf_storage Hok :=
  rewrite bind_storage;
  match goal with
  | |- context [dict_get ?k (storage_dict ?s)] =>
      let E := fresh "E" in
      let W := fresh "W" in
      destruct (dict_get k (storage_dict s)) eqn:E; [|exact Hok];
      pose proof (buffer_ok_wf _ _ Hok E) as W
  end.

Lemma computer_return_step_layout (st : buffer) lv gamma tau t last mb :
  buffer_okb st = true ->
  well_formed lv = true -> well_formed last = true -> well_formed mb = true ->
  match computer_return_step lv gamma tau t last mb st with
  | Return p st' =>
      buffer_okb st' = true /\ well_formed (fst p) = true /\ well_formed (snd p) = true
  | Raise _ st' => buffer_okb st' = true
  end.
Proof.
  intros Hok Wlv Wlast Wmb.
  assert (W1 : well_formed (scalar f1) = true) by reflexivity.
  assert (Wg : well_formed (scalar gamma) = true) by reflexivity.
  assert (Wgt : well_formed (scalar (fmul gamma tau)) = true) by reflexivity.
  unfold computer_return_step. unfold bind at 1. cbn [get].
  match goal with
  | |- match bind _ ?k st with _ => _ end =>
      assert (Htail : forall nv, well_formed nv = true ->
                match k nv st with
                | Return p st' =>
                    buffer_okb st' = true /\ well_formed (fst p) = true
                    /\ well_formed (snd p) = true
                | Raise _ st' => buffer_okb st' = true
                end)
  end.
  { intros nv Wnv. cbn beta.
    wf_storage Hok.
    assert (Wd : well_formed (TF (to_float t0)) = true).
    { apply well_formed_spec. cbn [tlen tshape]. now apply to_float_wf. }
    repeat first [wf_lift Hok | wf_storage Hok].
    unfold bind at 1.
    match goal with
    | |- context [storage_assign_row ?n ?i ?v st] =>
        pose proof (@storage_assign_row_layout st n i v Hok ltac:(assumption)) as Hrow;
        destruct (storage_assign_row n i v st) as [[] st'|e st']
    end; cbn [final_state] in Hrow; [|exact Hrow].
    cbn [ret fst snd]. auto. }
  destruct (t =? transitions_per_env st - 1)%Z.
  - unfold bind at 1. cbn [ret]. now apply Htail.
  - rewrite bind_assoc. wf_storage Hok. wf_lift Hok. now apply Htail.
Qed.

Lemma computer_return_loop_layout lv gamma tau ts :
  forall (st : buffer) last mb,
    buffer_okb st = true ->
    well_formed lv = true -> well_formed last = true -> well_formed mb = true ->
    buffer_okb (final_state (computer_return_loop lv gamma tau ts last mb st)) = true.
Proof.
  induction ts as [|t ts IH]; intros st last mb Hok Wlv Wlast Wmb;
    cbn [computer_return_loop]; [exact Hok|].
  unfold bind.
  pose proof (@computer_return_step_layout st lv gamma tau t last mb Hok Wlv Wlast Wmb)
    as Hstep.
  destruct (computer_return_step lv gamma tau t last mb st) as [p st'|e st'];
    [|exact Hstep].
  destruct Hstep as (Hok' & Wg & Wm). now apply IH.
Qed.

Lemma computer_return_layout (s : buffer) lv gamma tau :
  buffer_okb s = true -> well_formed lv = true ->
  buffer_okb (final_state (computer_return lv gamma tau s)) = true.
Proof.
  intros Hok Wlv. unfold computer_return. rewrite bind_storage.
  destruct (dict_get "rewards"%string (storage_dict s)) as [r|]; [|exact Hok].
  unfold bind at 1. cbn [get].
  apply computer_return_loop_layout; auto using zeros_like_wf.
Qed.

Lemma only_view_differs_refl (s : buffer) : only_view_differs s s.
Proof. now destruct s. Qed.

Lemma only_view_differs_trans (s1 s2 s3 : buffer) :
  only_view_differs s1 s2 -> only_view_differs s2 s3 -> only_view_differs s1 s3.
Proof. unfold only_view_differs. intros E1 E2. rewrite E2 at 1. rewrite E1. reflexivity. Qed.

Ltac frame_view :=
  pose proof only_view_differs_refl as Hr;
  pose proof only_view_differs_trans as Ht;
  repeat first [ frame_step
               | apply preserves_modify; intros ?; reflexivity ].

Lemma transform_items_only_view (items : dict (@tensor F)) :
  preserves only_view_differs (transform_items items).
Proof.
  induction items as [|[k v] items IH]; cbn [transform_items]; frame_view.
  exact IH.
Qed.

Lemma prepare_training_only_view : preserves only_view_differs prepare_training.
Proof.
  unfold prepare_training, data_item.
  pose proof transform_items_only_view.
  frame_view; auto.
Qed.

Lemma update_mu_sigma_only_view mu sigma :
  preserves only_view_differs (update_mu_sigma mu sigma).
Proof. unfold update_mu_sigma, data_assign_slice. frame_view. Qed.

Lemma only_view_differs_layout (s s' : buffer) :
  only_view_differs s s' -> buffer_okb s' = buffer_okb s.
Proof. unfold only_view_differs. intros ->. reflexivity. Qed.

Lemma run_call_layout c (s : buffer) :
  buffer_okb s = true -> call_wfb c = true -> buffer_okb (run_call c s) = true.
Proof.
  intros Hok Hc. destruct c as [name index [v|[|kv items]]|lv gamma tau| |idx|mu sigma];
    cbn [run_call call_wfb] in *.
  - now apply storage_assign_row_layout.
  - exact Hok.
  - unfold update_data. rewrite bind_storage.
    destruct (dict_get name (storage_dict s)); exact Hok.
  - now apply computer_return_layout.
  - now rewrite (only_view_differs_layout (prepare_training_only_view s)).
  - rewrite getitem_state. exact Hok.
  - now rewrite (only_view_differs_layout (update_mu_sigma_only_view mu sigma s)).
Qed.

(** X21.  The layout established by the constructor is an invariant of
    the object: after any sequence of calls of [update_data],
    [computer_return], [prepare_training], [__getitem__] and
    [update_mu_sigma], with any arguments and whether the calls return
    or raise, [storage_dict] still holds the eleven fields with their
    dtypes and shapes.  (The tensor arguments are assumed well formed,
    as every tensor of the library is.) *)
Theorem layout_invariant (cs : list call) (s : buffer) :
  buffer_okb s = true -> forallb call_wfb cs = true ->
  buffer_okb (run_calls cs s) = true.
Proof.
  revert s. induction cs as [|c cs IH]; intros s Hok Hcs; [exact Hok|].
  cbn [forallb] in Hcs. apply andb_true_iff in Hcs as [Hc Hcs].
  cbn [run_calls fold_left]. fold (run_calls cs (run_call c s)).
  apply IH; [now apply run_call_layout | exact Hcs].
Qed.

(** *** From the backward pass to the training view *)

(** X20.  [computer_return] followed by [prepare_training], whatever
    the arithmetic: the ["advantages"] entry of the view is the
    normalisation of the raw advantages, and the raw advantage at
    flattened index [e * horizon + t] is the return of the backward
    recursion for environment [e] at step [t] minus the stored value:
    the value added by [computer_return] is subtracted again by
    [prepare_training], each with its own rounding. *)
Theorem advantages_normalise_gae (s : buffer) (last_values : tensor) (gamma tau : F) :
  buffer_okb s = true ->
  tshape last_values = [envs s; 1] -> tlen last_values = envs s ->
  exists s1 dd rewards values dones raw,
    computer_return last_values gamma tau s = Return tt s1
    /\ prepare_training s1 = Return dd (set_data_dict (Some dd) s1)
    /\ dict_get "rewards"%string (storage_dict s) = Some rewards
    /\ dict_get "values"%string (storage_dict s) = Some values
    /\ dict_get "dones"%string (storage_dict s) = Some dones
    /\ dict_get "advantages"%string dd
       = Some (TF (mkArr [horizon s * envs s] (normalised raw)))
    /\ length raw = horizon s * envs s
    /\ forall t e, t < horizon s -> e < envs s ->
            nth (e * horizon s + t) raw f0
            = fsub (spec_return (horizon s)
                                (fun t => felem rewards (t * envs s + e))
                                (fun t => felem values (t * envs s + e))
                                (fun t => belem dones (t * envs s + e))
                                (felem last_values e) gamma tau t)
                   (felem values (t * envs s + e)).
Proof.
  intros Hok Hlv Hlvl.
  destruct (computer_return_spec s last_values gamma tau Hok Hlv Hlvl)
    as (s1 & rewards & values & dones & returns & E & Hok1 & G & Hr & Hv & Hd & Ht & Hspec).
  pose proof (computer_return_only_returns last_values gamma tau s) as Hfr.
  rewrite E in Hfr. cbn [final_state] in Hfr. destruct Hfr as (Es1 & _ & _).
  assert (HT : horizon s1 = horizon s) by (rewrite Es1; reflexivity).
  assert (HN : envs s1 = envs s) by (rewrite Es1; reflexivity).
  destruct (prepare_training_ok s1 Hok1)
    as (dd & rets & vals & Ep & _ & Gt & Hdr & Hdv & Lr & Lv & Ha).
  rewrite HT, HN in Lr, Lv, Ha.
  assert (Hv1 : dict_get "values"%string (storage_dict s1) = Some values)
    by (rewrite G by discriminate; exact Hv).
  destruct (Gt _ _ Ht) as (yr & Tr & Dr). rewrite Hdr in Dr. injection Dr as <-.
  destruct (Gt _ _ Hv1) as (yv & Tv & Dv). rewrite Hdv in Dv. injection Dv as <-.
  destruct (buffer_ok_field _ _ Hok1 Ht) as (Fr & Sr & Llr).
  destruct (buffer_ok_field _ _ Hok1 Hv1) as (Fv & Sv & Llv).
  change (trailing s1 "returns"%string) with [1] in *.
  change (trailing s1 "values"%string) with [1] in *.
  cbn [negb String.eqb Ascii.eqb Bool.eqb] in Fr, Fv.
  rewrite HT, HN in Sr, Llr, Sv, Llv.
  exists s1, dd, rewards, values, dones, (map2 fsub (data rets) (data vals)).
  split; [exact E|]. split; [exact Ep|]. split; [exact Hr|]. split; [exact Hv|].
  split; [exact Hd|]. split; [exact Ha|].
  split; [rewrite length_map2, Lr, Lv; lia|].
  intros t e Htt He.
  assert (Hb : e * horizon s + t < horizon s * envs s) by nia.
  rewrite (@nth_map2 _ _ _ fsub (data rets) (data vals) _ f0 f0 f0) by lia.
  pose proof (@transform_op_elem returns (TF rets) _ _ t e Sr Llr Fr Tr Htt He) as Er.
  pose proof (@transform_op_elem values (TF vals) _ _ t e Sv Llv Fv Tv Htt He) as Ev.
  unfold felem at 1 in Er. unfold felem at 1 in Ev. cbn [to_float] in Er, Ev.
  rewrite Er, Ev, (Hspec t e Htt He). reflexivity.
Qed.

End Theory.

(* ------------------------------------------------------------------ *)
(** ** Properties in exact arithmetic *)

Section Exact.

Local Open Scope R_scope.

Local Abbreviation rbuffer := (@ExperienceBuffer R).
Local Abbreviation rtensor := (@tensor R).

(** *** Normalisation *)












(** *** The claims at concrete buffers *)

Lemma small_buffer_init : __init__ 2 3 6 2 2 1 1 1 = Ok small_buffer.
Proof. reflexivity. Qed.

(** The number of minibatches times the minibatch size falls short of
    the batch size when the division is not exact: 10 samples in
    minibatches of 3. *)
Lemma len_times_minibatch_size_counterexample :
  exists s : rbuffer,
    __init__ 2 5 10 3 1 1 1 1 = Ok s
    /\ (0 < batch_size s)%Z /\ (0 < minibatch_size s)%Z
    /\ (__len__ s * minibatch_size s)%Z <> batch_size s.
Proof.
  eexists. split; [reflexivity|]. cbn. repeat split; lia.
Qed.

Lemma len_times_minibatch_size_witness :
  __init__ 2 3 6 2 2 1 1 1 = Ok small_buffer
  /\ (__len__ small_buffer * minibatch_size small_buffer
      = batch_size small_buffer - batch_size small_buffer mod minibatch_size small_buffer)%Z.
Proof.
  split; [reflexivity|].
  exact (proj1 (proj2 (proj2 (proj2
           (@len_times_minibatch_size R RealOps 2 3 6 2 2 1 1 1 small_buffer eq_refl))))).
Defined.

(** A write at time index -1 and a write of a value of shape [[1]] are
    both accepted: the first lands in the last row, the second is
    broadcast over the environments. *)
Lemma update_data_counterexample :
  ~ (0 <= -1 < transitions_per_env small_buffer)%Z
  /\ (exists s' x,
        update_data "rewards" (-1) (VTensor (column 5 7)) small_buffer = Return tt s'
        /\ dict_get "rewards"%string (storage_dict s') = Some x
        /\ tselect x 2 = Ok (column 5 7))
  /\ tshape (TF (mkArr [1%nat] [9])) <> [2%nat; 1%nat]
  /\ (exists s' x,
        update_data "rewards" 0 (VTensor (TF (mkArr [1%nat] [9]))) small_buffer = Return tt s'
        /\ dict_get "rewards"%string (storage_dict s') = Some x
        /\ tselect x 0 = Ok (column 9 9)).
Proof.
  split; [cbn; lia|].
  split; [do 2 eexists; split; [reflexivity | split; reflexivity]|].
  split; [discriminate|]. do 2 eexists; split; [reflexivity | split; reflexivity].
Qed.

Lemma update_data_rejects_witness :
  dict_get "rewards"%string (storage_dict small_buffer)
  = Some (TF (mkArr [3; 2; 1]%nat [0; 0; 0; 0; 0; 0]))
  /\ update_data "rewards" 5 (VTensor (column 5 7)) small_buffer
     = Raise IndexError small_buffer
  /\ update_data "rewards" 0 (VTensor (TF (mkArr [3%nat] [1; 2; 3]))) small_buffer
     = Raise RuntimeError small_buffer
  /\ exists s' x',
      update_data "rewards" (-1) (VTensor (TF (mkArr [1%nat] [9]))) small_buffer
      = Return tt s'
      /\ dict_get "rewards"%string (storage_dict s') = Some x'
      /\ tselect x' (-1) = Ok (column 9 9).
Proof.
  pose proof (@update_data_rejects R RealOps small_buffer "rewards"
                (TF (mkArr [3; 2; 1]%nat [0; 0; 0; 0; 0; 0])) 3 2 [1%nat]) as H.
  split; [reflexivity|]. split; [|split].
  - apply (proj1 (H 5%Z (column 5 7) eq_refl eq_refl)); [right|]; cbn; lia.
  - apply (proj1 (proj2 (H 0%Z (TF (mkArr [3%nat] [1; 2; 3])) eq_refl eq_refl)));
      [cbn; lia | reflexivity].
  - destruct (proj1 (proj2 (proj2 (H (-1)%Z (TF (mkArr [1%nat] [9])) eq_refl eq_refl))))
      as (s' & x' & row & E & Hx' & Hsel & Hw & _);
      [cbn; lia | reflexivity | reflexivity | reflexivity |].
    exists s', x'. split; [exact E|]. split; [exact Hx'|].
    rewrite Hsel. rewrite <- Hw. reflexivity.
Defined.

(** In a second cycle [update_mu_sigma] does not fail although no
    minibatch has been requested since the last [prepare_training]: it
    writes at the range served in the first cycle. *)
Lemma update_mu_sigma_counterexample :
  served_in_cycle second_cycle = false
  /\ exists s' mus,
      update_mu_sigma (column 1 2) (column 3 4) (run_calls second_cycle small_buffer)
      = Return tt s'
      /\ option_map (dict_get "mus"%string) (data_dict s') = Some (Some mus)
      /\ tselect mus 0 = tselect (column 1 2) 0
      /\ tselect mus 1 = tselect (column 1 2) 1.
Proof.
  split; [reflexivity|]. do 2 eexists.
  split; [vm_compute; reflexivity|]. split; [vm_compute; reflexivity|].
  split; vm_compute; reflexivity.
Qed.

(** The scenario of the specification: the return of the terminal step
    is the reward alone, and the first step accumulates more. *)
Example scenario_returns :
  exists s' returns,
    computer_return (column 0 0) (99 / 100) (95 / 100) scenario_buffer = Return tt s'
    /\ dict_get "returns"%string (storage_dict s') = Some returns
    /\ felem returns 6 = 1 /\ felem returns 7 = 1
    /\ felem returns 0 > felem returns 6 /\ felem returns 1 > felem returns 7.
Proof.
  destruct (@computer_return_spec R RealOps scenario_buffer (column 0 0)
              (99 / 100) (95 / 100) eq_refl eq_refl eq_refl)
    as (s' & rewards & values & dones & returns & E & _ & _ & Hr & Hv & Hd & Ht & Hspec).
  vm_compute in Hr, Hv, Hd. injection Hr as <-. injection Hv as <-. injection Hd as <-.
  exists s', returns. split; [exact E|]. split; [exact Ht|].
  assert (H : forall t e, (t < 4)%nat -> (e < 2)%nat ->
            felem returns (t * 2 + e)
            = spec_return 4
                (fun t => nth (t * 2 + e) [1; 1; 1; 1; 1; 1; 1; 1] 0)
                (fun t => nth (t * 2 + e) [0; 0; 0; 0; 0; 0; 0; 0] 0)
                (fun t => nth (t * 2 + e) [0; 0; 0; 0; 0; 0; 1; 1]%Z 0%Z)
                (nth e [0; 0] 0) (99 / 100) (95 / 100) t).
  { intros t e Htt He. exact (Hspec t e Htt He). }
  pose proof (H 3%nat 0%nat ltac:(lia) ltac:(lia)) as H30.
  pose proof (H 3%nat 1%nat ltac:(lia) ltac:(lia)) as H31.
  pose proof (H 0%nat 0%nat ltac:(lia) ltac:(lia)) as H00.
  pose proof (H 0%nat 1%nat ltac:(lia) ltac:(lia)) as H01.
  cbn in H30, H31, H00, H01. rewrite H30, H31, H00, H01.
  repeat split; lra.
Qed.

Lemma computer_return_gae_witness :
  buffer_okb terminal_buffer = true
  /\ tshape (column 7 8) = [envs terminal_buffer; 1%nat]
  /\ tlen (column 7 8) = envs terminal_buffer
  /\ exists s', computer_return (column 7 8) (99 / 100) (95 / 100) terminal_buffer
                = Return tt s'.
Proof.
  split; [reflexivity|]. split; [reflexivity|]. split; [reflexivity|].
  destruct (@computer_return_gae R RealOps terminal_buffer (column 7 8)
              (99 / 100) (95 / 100) eq_refl eq_refl eq_refl)
    as (s' & _ & _ & _ & _ & E & _).
  exists s'. exact E.
Defined.

Lemma write_then_flattened_read_witness :
  buffer_okb small_buffer = true
  /\ dict_get "rewards"%string (storage_dict small_buffer)
     = Some (TF (mkArr [3; 2; 1]%nat [0; 0; 0; 0; 0; 0]))
  /\ (0 <= 1 < transitions_per_env small_buffer)%Z
  /\ exists s1 dd y,
      update_data "rewards" 1 (VTensor (column 5 7)) small_buffer = Return tt s1
      /\ prepare_training s1 = Return dd (set_data_dict (Some dd) s1)
      /\ dict_get "rewards"%string dd = Some y
      /\ tselect y (Z.of_nat 1 * transitions_per_env small_buffer + 1)
         = tselect (column 5 7) (Z.of_nat 1).
Proof.
  split; [reflexivity|]. split; [reflexivity|]. split; [cbn; lia|].
  destruct (@write_then_flattened_read R RealOps small_buffer "rewards"
              (TF (mkArr [3; 2; 1]%nat [0; 0; 0; 0; 0; 0])) (column 5 7) 1%Z
              eq_refl eq_refl eq_refl eq_refl eq_refl)
    as (s1 & dd & E1 & E2 & (y & Hy & Hsel) & _); [cbn; lia|].
  exists s1, dd, y. split; [exact E1|]. split; [exact E2|]. split; [exact Hy|].
  apply Hsel. cbn. lia.
Defined.



Lemma prepared_view_keys : keys prepared_view = field_names ++ ["advantages"%string].
Proof. vm_compute. reflexivity. Qed.

Lemma prepared_view_nodup : NoDup (keys prepared_view).
Proof.
  rewrite prepared_view_keys. cbn [field_names app].
  repeat (constructor; [cbn; intros H; repeat (destruct H as [H|H]; [discriminate|]); exact H|]).
  constructor.
Qed.

Lemma prepared_view_fields k : In k minibatch_fields -> In k (keys prepared_view).
Proof.
  rewrite prepared_view_keys. cbn. intros H.
  repeat (destruct H as [<-|H]; [tauto|]). contradiction.
Qed.

Lemma prepared_view_ranks k (x : rtensor) :
  dict_get k prepared_view = Some x -> tshape x <> [].
Proof.
  intros H. apply get_in in H. vm_compute in H.
  repeat (destruct H as [H|H]; [injection H as <- <-; discriminate|]). contradiction.
Qed.

Lemma getitem_minibatch_witness :
  data_dict prepared_buffer = Some prepared_view
  /\ (0 < minibatch_size prepared_buffer)%Z
  /\ (0 <= 1 < __len__ prepared_buffer)%Z
  /\ exists out,
      __getitem__ 1 prepared_buffer
      = Return out (set_last_range (Some (2, 4)%Z) prepared_buffer)
      /\ length out = 10%nat.
Proof.
  split; [reflexivity|]. split; [reflexivity|].
  split; [change (__len__ prepared_buffer) with 3%Z; lia|].
  destruct (@getitem_minibatch R prepared_buffer prepared_view 1%Z eq_refl
              prepared_view_nodup prepared_view_fields prepared_view_ranks eq_refl)
    as (out & E & Hf & _); [change (__len__ prepared_buffer) with 3%Z; lia|].
  exists out. split; [exact E|].
  apply Forall2_length in Hf. rewrite <- Hf. reflexivity.
Defined.

Lemma update_mu_sigma_active_range_witness :
  (__init__ 2 3 6 2 2 1 1 1 = Ok small_buffer
   /\ update_mu_sigma (column 1 2) (column 3 4)
        (run_calls [CallUpdateData "rewards" 0 (VTensor (column 1 2)); CallPrepareTraining]
                   small_buffer)
      = Raise AttributeError
          (run_calls [CallUpdateData "rewards" 0 (VTensor (column 1 2)); CallPrepareTraining]
                     small_buffer))
  /\ (exists out s1 s2,
        __getitem__ 1 prepared_buffer = Return out s1
        /\ update_mu_sigma (column 1 2) (column 3 4) s1 = Return tt s2
        /\ last_range s2 = Some (2, 4)%Z).
Proof.
  destruct (@update_mu_sigma_active_range R RealOps) as [Ha Hb].
  split.
  - split; [reflexivity|].
    apply (Ha 2%Z 3%Z 6%Z 2%Z 2%Z 1%Z 1%Z 1%Z small_buffer); reflexivity.
  - destruct (@getitem_run R prepared_buffer prepared_view 1%Z eq_refl
                prepared_view_nodup prepared_view_fields prepared_view_ranks)
      as (out & E & _).
    exists out, (set_last_range (Some (2, 4)%Z) prepared_buffer).
    destruct (Hb prepared_buffer (set_last_range (Some (2, 4)%Z) prepared_buffer)
                 prepared_view 1%Z out
                 (TF (mkArr [6; 1]%nat [0; 0; 0; 0; 0; 0]))
                 (TF (mkArr [6; 1]%nat [0; 0; 0; 0; 0; 0]))
                 (column 1 2) (column 3 4) 6%nat [1%nat] [1%nat])
      as (mus' & sigmas' & dd' & s2 & E2 & _ & Hl & _);
      try reflexivity; try exact E;
      try (change (minibatch_size prepared_buffer) with 2%Z; lia).
    exists s2. split; [exact E|]. split; [exact E2 | exact Hl].
Defined.

(** *** The further properties at concrete buffers *)

Lemma transform_op_permutes_witness :
  let x : rtensor := TB (mkArr [2; 2]%nat [1; 2; 3; 4]%Z) in
  let y : rtensor := TB (mkArr [4]%nat [1; 3; 2; 4]%Z) in
  tlen x = numel (tshape x) /\ transform_op x = Ok y /\ same_elements x y.
Proof.
  cbn zeta. split; [reflexivity|]. split; [reflexivity|].
  destruct (@transform_op_permutes R (TB (mkArr [2; 2]%nat [1; 2; 3; 4]%Z))
              (TB (mkArr [4]%nat [1; 3; 2; 4]%Z)))
    as [P _]; [reflexivity | reflexivity | exact P].
Defined.

Lemma update_data_frame_witness :
  buffer_okb small_buffer = true
  /\ tlen (@scalar R 5) = numel (tshape (@scalar R 5))
  /\ buffer_okb (final_state (update_data "rewards" (-1) (VTensor (scalar 5)) small_buffer))
     = true.
Proof.
  split; [vm_compute; reflexivity|]. split; [reflexivity|].
  destruct (@update_data_frame R RealOps small_buffer "rewards"%string (-1)%Z (scalar 5))
    as (H & _); [vm_compute; reflexivity | reflexivity | exact H].
Defined.

Lemma update_data_scalar_fills_witness :
  buffer_okb small_buffer = true
  /\ dict_get "rewards"%string (storage_dict small_buffer)
     = Some (TF (mkArr [3; 2; 1]%nat [0; 0; 0; 0; 0; 0]))
  /\ (0 <= 1 < transitions_per_env small_buffer)%Z
  /\ exists s' x',
      update_data "rewards" 1 (VTensor (scalar 5)) small_buffer = Return tt s'
      /\ dict_get "rewards"%string (storage_dict s') = Some x'
      /\ tselect x' 1 = Ok (TF (mkArr [2; 1]%nat [5; 5])).
Proof.
  split; [vm_compute; reflexivity|]. split; [reflexivity|].
  split; [change (transitions_per_env small_buffer) with 3%Z; lia|].
  apply (@update_data_scalar_fills R RealOps small_buffer "rewards"%string
           (TF (mkArr [3; 2; 1]%nat [0; 0; 0; 0; 0; 0])) 5 1%Z);
    [vm_compute; reflexivity | reflexivity | reflexivity
    | change (transitions_per_env small_buffer) with 3%Z; lia].
Defined.

Lemma getitem_any_index_witness :
  data_dict prepared_buffer = Some prepared_view
  /\ (0 < minibatch_size prepared_buffer)%Z
  /\ exists out,
      __getitem__ (-1) prepared_buffer
      = Return out (set_last_range (Some (-2, 0)%Z) prepared_buffer)
      /\ length out = 10%nat.
Proof.
  split; [reflexivity|]. split; [reflexivity|].
  destruct (@getitem_any_index R prepared_buffer prepared_view (-1)%Z eq_refl
              prepared_view_nodup prepared_view_fields prepared_view_ranks eq_refl)
    as (out & E & Hf).
  exists out. split; [exact E|].
  apply Forall2_length in Hf. rewrite <- Hf. reflexivity.
Defined.

Lemma update_mu_sigma_partial_write_witness :
  let s := set_last_range (Some (0, 2)%Z) prepared_buffer in
  data_dict s = Some prepared_view
  /\ last_range s = Some (Z.of_nat 0, Z.of_nat 2)
  /\ assignable [(2 - 0)%nat; 1%nat] (tshape (TF (mkArr [3; 1]%nat [7; 8; 9]))) = false
  /\ exists s' mus',
      update_mu_sigma (column 1 2) (TF (mkArr [3; 1]%nat [7; 8; 9])) s
      = Raise RuntimeError s'
      /\ data_dict s' = Some (dict_mutate "mus" mus' prepared_view).
Proof.
  cbn zeta. split; [reflexivity|]. split; [reflexivity|]. split; [reflexivity|].
  destruct (@update_mu_sigma_partial_write R RealOps
              (set_last_range (Some (0, 2)%Z) prepared_buffer) prepared_view
              (TF (mkArr [6; 1]%nat [0; 0; 0; 0; 0; 0]))
              (TF (mkArr [6; 1]%nat [0; 0; 0; 0; 0; 0]))
              (column 1 2) (TF (mkArr [3; 1]%nat [7; 8; 9]))
              6%nat [1%nat] [1%nat] 0%nat 2%nat)
    as (s' & mus' & E & D & _); try reflexivity; try lia.
  exists s', mus'. split; [exact E | exact D].
Defined.

Lemma update_mu_sigma_read_back_witness :
  data_dict prepared_buffer = Some prepared_view
  /\ (0 < minibatch_size prepared_buffer)%Z
  /\ exists out s1 s2 out',
      __getitem__ 1 prepared_buffer = Return out s1
      /\ update_mu_sigma (column 1 2) (column 3 4) s1 = Return tt s2
      /\ __getitem__ 1 s2 = Return out' s2
      /\ nth_error out' 3 = Some (column 1 2)
      /\ nth_error out' 4 = Some (column 3 4).
Proof.
  split; [reflexivity|]. split; [reflexivity|].
  destruct (@getitem_run R prepared_buffer prepared_view 1%Z eq_refl
              prepared_view_nodup prepared_view_fields prepared_view_ranks)
    as (out & E & _).
  exists out, (set_last_range (Some (2, 4)%Z) prepared_buffer).
  destruct (@update_mu_sigma_read_back R RealOps prepared_buffer
              (set_last_range (Some (2, 4)%Z) prepared_buffer)
              prepared_view 1%Z out
              (TF (mkArr [6; 1]%nat [0; 0; 0; 0; 0; 0]))
              (TF (mkArr [6; 1]%nat [0; 0; 0; 0; 0; 0]))
              (column 1 2) (column 3 4) 6%nat [1%nat] [1%nat] eq_refl
              prepared_view_nodup prepared_view_fields prepared_view_ranks)
    as (s2 & out' & E1 & E2 & H3 & H4 & _);
    try reflexivity; try exact E;
    try (change (minibatch_size prepared_buffer) with 2%Z; lia).
  exists s2, out'. repeat split; assumption.
Defined.

Lemma prepare_training_view_layout_witness :
  buffer_okb small_buffer = true
  /\ exists dd,
      prepare_training small_buffer = Return dd (set_data_dict (Some dd) small_buffer)
      /\ keys dd = field_names ++ ["advantages"%string].
Proof.
  split; [vm_compute; reflexivity|].
  destruct (@prepare_training_view_layout R RealOps small_buffer)
    as (dd & adv & E & K & _); [vm_compute; reflexivity|].
  exists dd. split; [exact E | exact K].
Defined.

Lemma computer_return_idempotent_witness :
  buffer_okb small_buffer = true
  /\ tshape (column 10 20) = [envs small_buffer; 1%nat]
  /\ tlen (column 10 20) = envs small_buffer
  /\ exists s',
      computer_return (column 10 20) (99 / 100) (95 / 100) small_buffer = Return tt s'
      /\ computer_return (column 10 20) (99 / 100) (95 / 100) s' = Return tt s'.
Proof.
  split; [vm_compute; reflexivity|]. split; [reflexivity|]. split; [reflexivity|].
  apply (@computer_return_idempotent R RealOps small_buffer (column 10 20)
           (99 / 100) (95 / 100)); [vm_compute; reflexivity | reflexivity | reflexivity].
Defined.

Lemma computer_return_vector_bootstrap_witness :
  buffer_okb small_buffer = true
  /\ (0 < horizon small_buffer)%nat /\ (1 < envs small_buffer)%nat
  /\ tshape (TF (mkArr [2%nat] [10; 20])) = [envs small_buffer]
  /\ computer_return (TF (mkArr [2%nat] [10; 20])) (99 / 100) (95 / 100) small_buffer
     = Raise RuntimeError small_buffer.
Proof.
  split; [vm_compute; reflexivity|].
  split; [change (horizon small_buffer) with 3%nat; lia|].
  split; [change (envs small_buffer) with 2%nat; lia|].
  split; [reflexivity|].
  apply (@computer_return_vector_bootstrap R RealOps small_buffer
           (TF (mkArr [2%nat] [10; 20])) (99 / 100) (95 / 100));
    [vm_compute; reflexivity
    | change (horizon small_buffer) with 3%nat; lia
    | change (envs small_buffer) with 2%nat; lia
    | reflexivity].
Defined.

Lemma advantages_normalise_gae_witness :
  buffer_okb terminal_buffer = true
  /\ tshape (column 10 20) = [envs terminal_buffer; 1%nat]
  /\ tlen (column 10 20) = envs terminal_buffer
  /\ exists s1 dd,
      computer_return (column 10 20) (99 / 100) (95 / 100) terminal_buffer = Return tt s1
      /\ prepare_training s1 = Return dd (set_data_dict (Some dd) s1).
Proof.
  split; [vm_compute; reflexivity|]. split; [reflexivity|]. split; [reflexivity|].
  destruct (@advantages_normalise_gae R RealOps terminal_buffer (column 10 20)
              (99 / 100) (95 / 100))
    as (s1 & dd & _ & _ & _ & _ & E1 & E2 & _);
    [vm_compute; reflexivity | reflexivity | reflexivity |].
  exists s1, dd. split; [exact E1 | exact E2].
Defined.

Lemma init_outcome_witness :
  (exists s : rbuffer, __init__ 2 3 6 2 2 1 1 1 = Ok s /\ buffer_okb s = true)
  /\ @__init__ R RealOps (-1) 3 6 2 2 1 1 1 = Err RuntimeError
  /\ exists e, @__init__ R RealOps 2 3 6 0 2 1 1 1 = Err e.
Proof.
  split; [|split].
  - exists small_buffer. split; [reflexivity|].
    destruct (@init_outcome R RealOps 2 3 6 2 2 1 1 1)%Z as (H & _).
    exact (proj1 (proj2 (proj2 (H small_buffer eq_refl)))).
  - destruct (@init_outcome R RealOps (-1) 3 6 2 2 1 1 1)%Z as (_ & H & _).
    apply H. apply Exists_cons_tl, Exists_cons_hd. lia.
  - destruct (@init_outcome R RealOps 2 3 6 0 2 1 1 1)%Z as (_ & _ & H).
    apply H. reflexivity.
Defined.

Lemma layout_invariant_witness :
  let cs : list (@call R) :=
    [CallUpdateData "rewards" 0 (VTensor (column 1 2));
     CallUpdateData "rewards" 7 (VTensor (column 1 2));
     CallComputerReturn (TF (mkArr [2%nat] [10; 20])) (99 / 100) (95 / 100);
     CallPrepareTraining;
     CallGetItem 0;
     CallUpdateMuSigma (column 1 2) (column 3 4)] in
  buffer_okb small_buffer = true
  /\ forallb call_wfb cs = true
  /\ buffer_okb (run_calls cs small_buffer) = true.
Proof.
  cbn zeta. split; [vm_compute; reflexivity|]. split; [reflexivity|].
  apply (@layout_invariant R RealOps); [vm_compute; reflexivity | reflexivity].
Defined.

End Exact.

(* ------------------------------------------------------------------ *)
(** ** The backward pass in float32 *)

Section Binary32.

Local Abbreviation fbuffer := (@ExperienceBuffer float32).
Local Abbreviation ftensor := (@tensor float32).

Lemma same_number_refl x : same_number x x.
Proof. now left. Qed.

Lemma same_number_sym x y : same_number x y -> same_number y x.
Proof. intros [->|(sx & sy & -> & ->)]; [now left | right; eauto]. Qed.

Lemma same_number_trans x y z : same_number x y -> same_number y z -> same_number x z.
Proof.
  intros [->|(sx & sy & -> & Ey)] H; [exact H|].
  destruct H as [<-|(sx' & sy' & _ & ->)]; right; eauto.
Qed.

Lemma same_number_finite x y : same_number x y -> finite32 y = true -> finite32 x = true.
Proof. intros [->|(sx & sy & -> & ->)] H; [exact H | reflexivity]. Qed.

Lemma fadd_zero_r32 x s : same_number (fadd x (SpecFloat.S754_zero s)) x.
Proof.
  destruct x as [sx|sx| |sx m e]; cbn; try (now left).
  right. destruct sx, s; eauto.
Qed.

Lemma fadd_same_l32 x x' v : same_number x x' -> same_number (fadd x v) (fadd x' v).
Proof.
  intros [->|(sx & sy & -> & ->)]; [now left|].
  destruct v as [s|s| |s m e]; cbn; try (now left).
  right. destruct sx, sy, s; eauto.
Qed.

Lemma fsub_same_l32 x x' v : same_number x x' -> same_number (fsub x v) (fsub x' v).
Proof.
  intros [->|(sx & sy & -> & ->)]; [now left|].
  destruct v as [s|s| |s m e]; cbn; try (now left).
  right. destruct sx, sy, s; eauto.
Qed.

Lemma fmul_zero_r32 x s :
  finite32 x = true -> is_zero32 (fmul x (SpecFloat.S754_zero s)) = true.
Proof. destruct x; cbn; try discriminate; reflexivity. Qed.

Lemma fmul_zero_l32 x y :
  is_zero32 x = true -> finite32 y = true -> is_zero32 (fmul x y) = true.
Proof. destruct x, y; cbn; try discriminate; reflexivity. Qed.

Lemma is_zero32_inv x : is_zero32 x = true -> exists s, x = SpecFloat.S754_zero s.
Proof. destruct x; try discriminate. eauto. Qed.

Lemma is_zero32_finite x : is_zero32 x = true -> finite32 x = true.
Proof. destruct x; try discriminate. reflexivity. Qed.

(** [1.0 - dones.float()] of a terminal step is zero. *)
Lemma nonterminal_done : fsub f1 (of_uint8 1) = SpecFloat.S754_zero false.
Proof. vm_compute. reflexivity. Qed.

(** [1.0 - dones.float()] is finite, for every [uint8] flag. *)
Lemma nonterminal_finite d :
  (0 <= d < 256)%Z -> finite32 (fsub f1 (of_uint8 d)) = true.
Proof.
  intros H.
  assert (A : forallb (fun n => finite32 (fsub f1 (of_uint8 (Z.of_nat n)))) (seq 0 256) = true)
    by (vm_compute; reflexivity).
  rewrite forallb_forall in A.
  rewrite <- (Z2Nat.id d) by lia. apply A. apply in_seq. lia.
Qed.

Section NoCarry.

Variables (T : nat) (reward value : nat -> float32) (done : nat -> Z).
Variables (boot gamma tau : float32).

Local Abbreviation delta := (spec_delta T reward value done boot gamma).
Local Abbreviation nonterminal := (@spec_nonterminal float32 Float32Ops done).
Local Abbreviation last_gae_from := (spec_last_gae_from T reward value done boot gamma tau).

(** When the factor [gamma * tau * nonterminal] is zero at every step
    and every [delta] is finite, nothing is carried from one step to the
    previous one. *)
Lemma last_gae_no_carry :
  (forall t, t < T -> is_zero32 (fmul (fmul gamma tau) (nonterminal t)) = true) ->
  (forall t, t < T -> finite32 (delta t) = true) ->
  forall k t, t + S k <= T -> same_number (last_gae_from (S k) t) (delta t).
Proof.
  intros Hz Hf. induction k as [|k IH]; intros t Ht.
  - cbn [spec_last_gae_from].
    destruct (is_zero32_inv _ (Hz t ltac:(lia))) as [s0 E].
    assert (Z : is_zero32 (fmul (fmul (fmul gamma tau) (nonterminal t)) f0) = true).
    { apply fmul_zero_l32; [apply Hz; lia | reflexivity]. }
    destruct (is_zero32_inv _ Z) as [s1 ->]. apply fadd_zero_r32.
  - change (last_gae_from (S (S k)) t)
      with (fadd (delta t)
              (fmul (fmul (fmul gamma tau) (nonterminal t)) (last_gae_from (S k) (S t)))).
    assert (Z : is_zero32 (fmul (fmul (fmul gamma tau) (nonterminal t))
                             (last_gae_from (S k) (S t))) = true).
    { apply fmul_zero_l32; [apply Hz; lia|].
      eapply same_number_finite; [apply IH; lia | apply Hf; lia]. }
    destruct (is_zero32_inv _ Z) as [s1 ->]. apply fadd_zero_r32.
Qed.

Lemma spec_return_no_carry :
  (forall t, t < T -> is_zero32 (fmul (fmul gamma tau) (nonterminal t)) = true) ->
  (forall t, t < T -> finite32 (delta t) = true) ->
  forall t, t < T ->
       same_number (spec_return T reward value done boot gamma tau t)
                   (fadd (delta t) (value t)).
Proof.
  intros Hz Hf t Ht. unfold spec_return, spec_last_gae.
  destruct (T - t) as [|k] eqn:E; [lia|].
  apply fadd_same_l32. apply last_gae_no_carry; [exact Hz | exact Hf | lia].
Qed.

(** When the bootstrapped term [gamma * next_value * nonterminal] is
    zero, [delta] is [reward - value]. *)
Lemma delta_no_bootstrap t :
  is_zero32 (fmul (fmul gamma (spec_next_value T value boot t)) (nonterminal t)) = true ->
  same_number (delta t) (fsub (reward t) (value t)).
Proof.
  intros Z. unfold spec_delta. destruct (is_zero32_inv _ Z) as [s0 ->].
  apply fsub_same_l32, fadd_zero_r32.
Qed.

End NoCarry.


(** C4 (as amended).  In float32, on a buffer whose every done flag is
    1, with [gamma * tau] finite and, at every step, [reward - value]
    and [gamma * next_value] finite: after [computer_return] the return
    of every step and environment is [(reward - value) + value], each
    operation rounded, up to the sign of a zero; so the advantage
    [returns - values] is [((reward - value) + value) - value], with
    three roundings.  Nothing of the later steps or of the bootstrap
    values enters it. *)
Theorem advantage_when_all_done (s : fbuffer) (last_values : ftensor) (gamma tau : float32) :
  buffer_okb s = true ->
  tshape last_values = [envs s; 1] -> tlen last_values = envs s ->
  (forall dones i, dict_get "dones"%string (storage_dict s) = Some dones ->
              i < horizon s * envs s -> belem dones i = 1%Z) ->
  finite32 (fmul gamma tau) = true ->
  (forall rewards values t e,
      dict_get "rewards"%string (storage_dict s) = Some rewards ->
      dict_get "values"%string (storage_dict s) = Some values ->
      t < horizon s -> e < envs s ->
      finite32 (fsub (felem rewards (t * envs s + e)) (felem values (t * envs s + e))) = true
      /\ finite32 (fmul gamma (if t =? horizon s - 1 then felem last_values e
                               else felem values ((t + 1) * envs s + e))) = true) ->
  exists s' rewards values returns,
    computer_return last_values gamma tau s = Return tt s'
    /\ dict_get "rewards"%string (storage_dict s') = Some rewards
    /\ dict_get "values"%string (storage_dict s') = Some values
    /\ dict_get "returns"%string (storage_dict s') = Some returns
    /\ forall t e, t < horizon s -> e < envs s ->
            let r := felem rewards (t * envs s + e) in
            let v := felem values (t * envs s + e) in
            same_number (felem returns (t * envs s + e)) (fadd (fsub r v) v)
            /\ same_number (fsub (felem returns (t * envs s + e)) v)
                           (fsub (fadd (fsub r v) v) v).
Proof.
  intros Hok Hlv Hlvl Hdone Hgt Hfin.
  destruct (@computer_return_spec float32 Float32Ops s last_values gamma tau Hok Hlv Hlvl)
    as (s' & rewards & values & dones & returns & E & _ & G & Hr & Hv & Hd & Ht & Hspec).
  exists s', rewards, values, returns.
  split; [exact E|]. split; [rewrite G by discriminate; exact Hr|].
  split; [rewrite G by discriminate; exact Hv|]. split; [exact Ht|].
  intros t e Htt He. cbv zeta.
  assert (Hret : same_number
            (felem returns (t * envs s + e))
            (fadd (fsub (felem rewards (t * envs s + e)) (felem values (t * envs s + e)))
                  (felem values (t * envs s + e))));
    [|split; [exact Hret | now apply fsub_same_l32]].
  rewrite (Hspec t e Htt He).
  assert (Hnt : forall t', t' < horizon s ->
             @spec_nonterminal float32 Float32Ops
               (fun t => belem dones (t * envs s + e)) t'
             = SpecFloat.S754_zero false).
  { intros t' Ht'. unfold spec_nonterminal.
    rewrite (Hdone dones _ Hd) by nia. apply nonterminal_done. }

  assert (Hdelta : forall t', t' < horizon s ->
             same_number
               (spec_delta (horizon s) (fun t => felem rewards (t * envs s + e))
                  (fun t => felem values (t * envs s + e))
                  (fun t => belem dones (t * envs s + e)) (felem last_values e) gamma t')
               (fsub (felem rewards (t' * envs s + e)) (felem values (t' * envs s + e)))).
  { intros t' Ht'.
    apply (@delta_no_bootstrap (horizon s) (fun t => felem rewards (t * envs s + e))
             (fun t => felem values (t * envs s + e))
             (fun t => belem dones (t * envs s + e)) (felem last_values e) gamma t').
    cbv beta. rewrite (Hnt t' Ht').
    apply fmul_zero_r32. exact (proj2 (Hfin rewards values t' e Hr Hv Ht' He)). }
  eapply same_number_trans.
  - apply (@spec_return_no_carry (horizon s) (fun t => felem rewards (t * envs s + e))
             (fun t => felem values (t * envs s + e))
             (fun t => belem dones (t * envs s + e)) (felem last_values e) gamma tau); [| |exact Htt].
    + intros t' Ht'. cbv beta. rewrite (Hnt t' Ht'). now apply fmul_zero_r32.
    + intros t' Ht'. eapply same_number_finite; [apply (Hdelta t' Ht')|].
      exact (proj1 (Hfin rewards values t' e Hr Hv Ht' He)).
  - apply fadd_same_l32, Hdelta, Htt.
Qed.

(** C5 (as amended).  In float32, with [tau = 0], [gamma] finite and
    every one-step residual
    [delta = reward + gamma * next_value * (1 - done) - value] finite,
    where [next_value] is the bootstrap value at the last step and the
    stored value of step [t + 1] otherwise: after [computer_return] the
    return of every step and environment is [delta + value], each
    operation rounded, up to the sign of a zero; so the advantage
    [returns - values] is [(delta + value) - value], with two more
    roundings than [delta]. *)
Theorem advantage_when_tau_zero (s : fbuffer) (last_values : ftensor) (gamma : float32) :
  buffer_okb s = true ->
  tshape last_values = [envs s; 1] -> tlen last_values = envs s ->
  finite32 gamma = true ->
  (forall dones i, dict_get "dones"%string (storage_dict s) = Some dones ->
              i < horizon s * envs s -> (0 <= belem dones i < 256)%Z) ->
  (forall rewards values dones t e,
      dict_get "rewards"%string (storage_dict s) = Some rewards ->
      dict_get "values"%string (storage_dict s) = Some values ->
      dict_get "dones"%string (storage_dict s) = Some dones ->
      t < horizon s -> e < envs s ->
      finite32 (spec_delta (horizon s)
                  (fun t => felem rewards (t * envs s + e))
                  (fun t => felem values (t * envs s + e))
                  (fun t => belem dones (t * envs s + e))
                  (felem last_values e) gamma t) = true) ->
  exists s' rewards values dones returns,
    computer_return last_values gamma f0 s = Return tt s'
    /\ dict_get "rewards"%string (storage_dict s') = Some rewards
    /\ dict_get "values"%string (storage_dict s') = Some values
    /\ dict_get "dones"%string (storage_dict s') = Some dones
    /\ dict_get "returns"%string (storage_dict s') = Some returns
    /\ forall t e, t < horizon s -> e < envs s ->
            let delta := spec_delta (horizon s)
                           (fun t => felem rewards (t * envs s + e))
                           (fun t => felem values (t * envs s + e))
                           (fun t => belem dones (t * envs s + e))
                           (felem last_values e) gamma t in
            let v := felem values (t * envs s + e) in
            same_number (felem returns (t * envs s + e)) (fadd delta v)
            /\ same_number (fsub (felem returns (t * envs s + e)) v)
                           (fsub (fadd delta v) v).
Proof.
  intros Hok Hlv Hlvl Hg Hdone Hfin.
  destruct (@computer_return_spec float32 Float32Ops s last_values gamma f0 Hok Hlv Hlvl)
    as (s' & rewards & values & dones & returns & E & _ & G & Hr & Hv & Hd & Ht & Hspec).
  exists s', rewards, values, dones, returns.
  split; [exact E|]. split; [rewrite G by discriminate; exact Hr|].
  split; [rewrite G by discriminate; exact Hv|].
  split; [rewrite G by discriminate; exact Hd|]. split; [exact Ht|].
  intros t e Htt He. cbv zeta.
  assert (Hret : same_number
            (felem returns (t * envs s + e))
            (fadd (spec_delta (horizon s)
                     (fun t => felem rewards (t * envs s + e))
                     (fun t => felem values (t * envs s + e))
                     (fun t => belem dones (t * envs s + e))
                     (felem last_values e) gamma t)
                  (felem values (t * envs s + e))));
    [|split; [exact Hret | now apply fsub_same_l32]].
  rewrite (Hspec t e Htt He).
  apply (@spec_return_no_carry (horizon s) (fun t => felem rewards (t * envs s + e))
             (fun t => felem values (t * envs s + e))
             (fun t => belem dones (t * envs s + e)) (felem last_values e) gamma f0); [| |exact Htt].
  - intros t' Ht'. apply fmul_zero_l32; [now apply (@fmul_zero_r32 gamma false)|].
    unfold spec_nonterminal. apply nonterminal_finite. apply (Hdone dones _ Hd). nia.
  - intros t' Ht'. exact (Hfin rewards values dones t' e Hr Hv Hd Ht' He).
Qed.

(** X15.  In float32, with [gamma = 0], [tau] finite and, at every
    step, a finite [reward - value] and a finite next value: after
    [computer_return] the return of every step and environment is
    [(reward - value) + value], each operation rounded, up to the sign
    of a zero, whatever the done flags. *)
Theorem returns_when_gamma_zero (s : fbuffer) (last_values : ftensor) (tau : float32) :
  buffer_okb s = true ->
  tshape last_values = [envs s; 1] -> tlen last_values = envs s ->
  finite32 tau = true ->
  (forall dones i, dict_get "dones"%string (storage_dict s) = Some dones ->
              i < horizon s * envs s -> (0 <= belem dones i < 256)%Z) ->
  (forall rewards values t e,
      dict_get "rewards"%string (storage_dict s) = Some rewards ->
      dict_get "values"%string (storage_dict s) = Some values ->
      t < horizon s -> e < envs s ->
      finite32 (fsub (felem rewards (t * envs s + e)) (felem values (t * envs s + e))) = true
      /\ finite32 (if t =? horizon s - 1 then felem last_values e
                   else felem values ((t + 1) * envs s + e)) = true) ->
  exists s' rewards values returns,
    computer_return last_values f0 tau s = Return tt s'
    /\ dict_get "rewards"%string (storage_dict s') = Some rewards
    /\ dict_get "values"%string (storage_dict s') = Some values
    /\ dict_get "returns"%string (storage_dict s') = Some returns
    /\ forall t e, t < horizon s -> e < envs s ->
            same_number
              (felem returns (t * envs s + e))
              (fadd (fsub (felem rewards (t * envs s + e)) (felem values (t * envs s + e)))
                    (felem values (t * envs s + e))).
Proof.
  intros Hok Hlv Hlvl Htau Hdone Hfin.
  destruct (@computer_return_spec float32 Float32Ops s last_values f0 tau Hok Hlv Hlvl)
    as (s' & rewards & values & dones & returns & E & _ & G & Hr & Hv & Hd & Ht & Hspec).
  exists s', rewards, values, returns.
  split; [exact E|]. split; [rewrite G by discriminate; exact Hr|].
  split; [rewrite G by discriminate; exact Hv|]. split; [exact Ht|].
  intros t e Htt He. rewrite (Hspec t e Htt He).
  assert (Hnt : forall t', t' < horizon s ->
             finite32 (spec_nonterminal (fun t => belem dones (t * envs s + e)) t') = true).
  { intros t' Ht'. unfold spec_nonterminal. apply nonterminal_finite.
    apply (Hdone dones _ Hd). nia. }
  assert (Hdelta : forall t', t' < horizon s ->
             same_number
               (spec_delta (horizon s) (fun t => felem rewards (t * envs s + e))
                  (fun t => felem values (t * envs s + e))
                  (fun t => belem dones (t * envs s + e)) (felem last_values e) f0 t')
               (fsub (felem rewards (t' * envs s + e)) (felem values (t' * envs s + e)))).
  { intros t' Ht'.
    apply (@delta_no_bootstrap (horizon s) (fun t => felem rewards (t * envs s + e))
             (fun t => felem values (t * envs s + e))
             (fun t => belem dones (t * envs s + e)) (felem last_values e) f0 t').
    apply fmul_zero_l32; [|now apply Hnt].
    apply fmul_zero_l32; [reflexivity|].
    exact (proj2 (Hfin rewards values t' e Hr Hv Ht' He)). }
  eapply same_number_trans.
  - apply (@spec_return_no_carry (horizon s) (fun t => felem rewards (t * envs s + e))
             (fun t => felem values (t * envs s + e))
             (fun t => belem dones (t * envs s + e)) (felem last_values e) f0 tau); [| |exact Htt].
    + intros t' Ht'. apply fmul_zero_l32; [|now apply Hnt].
      now apply fmul_zero_l32.
    + intros t' Ht'. eapply same_number_finite; [apply (Hdelta t' Ht')|].
      exact (proj1 (Hfin rewards values t' e Hr Hv Ht' He)).
  - apply fadd_same_l32, Hdelta, Htt.
Qed.

(** *** The float32 cases at concrete buffers *)

Local Unset Implicit Arguments.

Lemma rounding_buffer_dones (dones : ftensor) i :
  dict_get "dones"%string (storage_dict rounding_buffer) = Some dones ->
  i < horizon rounding_buffer * envs rounding_buffer -> belem dones i = 1%Z.
Proof.
  intros H Hi. vm_compute in H, Hi. injection H as <-.
  do 4 (destruct i as [|i]; [reflexivity|]). lia.
Qed.

Lemma advantage_when_all_done_witness :
  buffer_okb rounding_buffer = true
  /\ finite32 (fmul f1 f1) = true
  /\ exists s', computer_return (fcolumn 0 0) f1 f1 rounding_buffer = Return tt s'.
Proof.
  split; [vm_compute; reflexivity|]. split; [vm_compute; reflexivity|].
  destruct (@advantage_when_all_done rounding_buffer (fcolumn 0 0) f1 f1)
    as (s' & _ & _ & _ & E & _);
    [vm_compute; reflexivity | vm_compute; reflexivity | vm_compute; reflexivity
    | exact rounding_buffer_dones | vm_compute; reflexivity | | exists s'; exact E].
  intros rewards values t e Hr Hv Ht He.
  vm_compute in Hr, Hv. injection Hr as <-. injection Hv as <-.
  vm_compute in Ht, He.
  destruct t as [|[|t]]; [| |lia]; (destruct e as [|[|e]]; [| |lia]);
    split; vm_compute; reflexivity.
Defined.

(** Every step is terminal, the reward is 33554436 and the value 2:
    the return is 33554432, so [returns - values] is 33554430, which is
    neither [reward - value] rounded (33554432) nor exact (33554434).
    With infinite bootstrap values every return is NaN, although every
    step is terminal. *)
Lemma advantage_when_all_done_counterexample :
  dict_get "dones"%string (storage_dict rounding_buffer)
  = Some (TB (mkArr [2; 2] [1; 1; 1; 1]%Z))
  /\ (exists s' rewards values returns,
        computer_return (fcolumn 0 0) f1 f1 rounding_buffer = Return tt s'
        /\ dict_get "rewards"%string (storage_dict s') = Some rewards
        /\ dict_get "values"%string (storage_dict s') = Some values
        /\ dict_get "returns"%string (storage_dict s') = Some returns
        /\ felem rewards 0 = float32_of_Z 33554436
        /\ felem values 0 = float32_of_Z 2
        /\ felem returns 0 = float32_of_Z 33554432
        /\ fsub (felem returns 0) (felem values 0) = float32_of_Z 33554430
        /\ fsub (felem rewards 0) (felem values 0) = float32_of_Z 33554432
        /\ fsub (felem returns 0) (felem values 0)
           <> fsub (felem rewards 0) (felem values 0))
  /\ (exists s' returns,
        computer_return
          (TF (mkArr [2; 1] [SpecFloat.S754_infinity false; SpecFloat.S754_infinity false]))
          f1 f1 rounding_buffer = Return tt s'
        /\ dict_get "returns"%string (storage_dict s') = Some returns
        /\ data (to_float returns)
           = [SpecFloat.S754_nan; SpecFloat.S754_nan; SpecFloat.S754_nan; SpecFloat.S754_nan]).
Proof.
  split; [vm_compute; reflexivity|]. split.
  - eexists _, _, _, _. split; [vm_compute; reflexivity|].
    do 3 (split; [vm_compute; reflexivity|]).
    do 5 (split; [vm_compute; reflexivity|]). vm_compute. discriminate.
  - eexists _, _. split; [vm_compute; reflexivity|].
    split; vm_compute; reflexivity.
Qed.

Lemma advantage_when_tau_zero_witness :
  buffer_okb rounding_buffer = true
  /\ finite32 f1 = true
  /\ exists s', computer_return (fcolumn 0 0) f1 f0 rounding_buffer = Return tt s'.
Proof.
  split; [vm_compute; reflexivity|]. split; [vm_compute; reflexivity|].
  destruct (@advantage_when_tau_zero rounding_buffer (fcolumn 0 0) f1)
    as (s' & _ & _ & _ & _ & E & _);
    [vm_compute; reflexivity | vm_compute; reflexivity | vm_compute; reflexivity
    | vm_compute; reflexivity | | | exists s'; exact E].
  - intros dones i H Hi. rewrite (@rounding_buffer_dones dones i H Hi). lia.
  - intros rewards values dones t e Hr Hv Hd Ht He.
    vm_compute in Hr, Hv, Hd. injection Hr as <-. injection Hv as <-. injection Hd as <-.
    vm_compute in Ht, He.
    destruct t as [|[|t]]; [| |lia]; (destruct e as [|[|e]]; [| |lia]);
      vm_compute; reflexivity.
Defined.

(** With [tau = 0] on the same buffer the one-step residual is
    33554432 and the return 33554432, so [returns - values] is
    33554430.  With infinite bootstrap values the residual of the first
    step is still 33554432 but its return is NaN: the NaN of the last
    step is carried over although [tau = 0]. *)
Lemma advantage_when_tau_zero_counterexample :
  (exists s' rewards values dones returns,
      computer_return (fcolumn 0 0) f1 f0 rounding_buffer = Return tt s'
      /\ dict_get "rewards"%string (storage_dict s') = Some rewards
      /\ dict_get "values"%string (storage_dict s') = Some values
      /\ dict_get "dones"%string (storage_dict s') = Some dones
      /\ dict_get "returns"%string (storage_dict s') = Some returns
      /\ spec_delta 2 (fun t => felem rewards (t * 2 + 0))
           (fun t => felem values (t * 2 + 0)) (fun t => belem dones (t * 2 + 0))
           (float32_of_Z 0) f1 0
         = float32_of_Z 33554432
      /\ fsub (felem returns 0) (felem values 0) = float32_of_Z 33554430
      /\ float32_of_Z 33554430 <> float32_of_Z 33554432)
  /\ (exists s' rewards values dones returns,
        computer_return
          (TF (mkArr [2; 1] [SpecFloat.S754_infinity false; SpecFloat.S754_infinity false]))
          f1 f0 rounding_buffer = Return tt s'
        /\ dict_get "rewards"%string (storage_dict s') = Some rewards
        /\ dict_get "values"%string (storage_dict s') = Some values
        /\ dict_get "dones"%string (storage_dict s') = Some dones
        /\ dict_get "returns"%string (storage_dict s') = Some returns
        /\ spec_delta 2 (fun t => felem rewards (t * 2 + 0))
             (fun t => felem values (t * 2 + 0)) (fun t => belem dones (t * 2 + 0))
             (SpecFloat.S754_infinity false) f1 0
           = float32_of_Z 33554432
        /\ felem returns 0 = SpecFloat.S754_nan).
Proof.
  split.
  - eexists _, _, _, _, _. split; [vm_compute; reflexivity|].
    do 4 (split; [vm_compute; reflexivity|]).
    do 2 (split; [vm_compute; reflexivity|]). vm_compute. discriminate.
  - eexists _, _, _, _, _. split; [vm_compute; reflexivity|].
    do 4 (split; [vm_compute; reflexivity|]).
    split; vm_compute; reflexivity.
Qed.

Lemma returns_when_gamma_zero_witness :
  buffer_okb rounding_buffer = true
  /\ finite32 f1 = true
  /\ exists s', computer_return (fcolumn 0 0) f0 f1 rounding_buffer = Return tt s'.
Proof.
  split; [vm_compute; reflexivity|]. split; [vm_compute; reflexivity|].
  destruct (@returns_when_gamma_zero rounding_buffer (fcolumn 0 0) f1)
    as (s' & _ & _ & _ & E & _);
    [vm_compute; reflexivity | vm_compute; reflexivity | vm_compute; reflexivity
    | vm_compute; reflexivity | | | exists s'; exact E].
  - intros dones i H Hi. rewrite (@rounding_buffer_dones dones i H Hi). lia.
  - intros rewards values t e Hr Hv Ht He.
    vm_compute in Hr, Hv. injection Hr as <-. injection Hv as <-.
    vm_compute in Ht, He.
    destruct t as [|[|t]]; [| |lia]; (destruct e as [|[|e]]; [| |lia]);
      split; vm_compute; reflexivity.
Defined.


End Binary32.
